(** * better_bitset: a shallow embedding of [BitSet<N>]

    Source: include/better_bitset.hpp.

    The class template [BitSet<N>] owns one member, [m_storage], an
    [std::array<Inner_t, NUM_CHUNKS>].  Here a container state is the content
    of that array, a [list Z] of machine words; the template parameter [N] is
    an explicit argument of every operation.  Unsigned arithmetic is written
    with its wrap-around, integral promotion is spelled out where the source
    relies on it, and the three ways a call can end (normal return, failed
    [BITSET_ASSERT] in a debug build, undefined behaviour) are the three
    constructors of [result]. *)

From Stdlib Require Import ZArith List Bool Lia Ascii.
From stdpp Require Import base option list.
Import ListNotations.
Local Open Scope Z_scope.

(** ** Machine integers *)

Module Word.

(** Conversion to an unsigned type of [w] bits. *)
Definition wrap (w x : Z) : Z := x mod 2 ^ w.

(** Conversion to [size_t] / [unsigned long long] (64 bits). *)
Definition size_t (x : Z) : Z := wrap 64 x.

(** Conversion to [int] (32 bits, two's complement). *)
Definition int (x : Z) : Z :=
  let y := wrap 32 x in if y <? 2 ^ 31 then y else y - 2 ^ 32.

(** Width of the type an operand of an unsigned [w]-bit type has after
    integral promotion: [uint8_t] and [uint16_t] become [int]. *)
Definition promoted_bits (w : Z) : Z := if w <? 32 then 32 else w.

(** [~x] for [x] of an unsigned [w]-bit type: on the promoted operand. *)
Definition bit_not (w x : Z) : Z :=
  if w <? 32 then Z.lnot x else wrap w (Z.lnot x).

(** Conversion to [bool]. *)
Definition to_bool (x : Z) : bool := negb (x =? 0).

End Word.
Import Word.

(** ** Functions of <bit>, on a value of an unsigned [w]-bit type *)

Module Std.

Fixpoint countr_zero_aux (fuel : nat) (x : Z) : Z :=
  match fuel with
  | O => 0
  | S fuel' => if Z.odd x then 0 else 1 + countr_zero_aux fuel' (Z.div2 x)
  end.

(** [std::countr_zero<T>]: the number of consecutive 0 bits from the least
    significant one; the width of [T] for 0. *)
Definition countr_zero (w x : Z) : Z := countr_zero_aux (Z.to_nat w) x.

Fixpoint countr_one_aux (fuel : nat) (x : Z) : Z :=
  match fuel with
  | O => 0
  | S fuel' => if Z.odd x then 1 + countr_one_aux fuel' (Z.div2 x) else 0
  end.

(** [std::countr_one<T>]: the number of consecutive 1 bits from the least
    significant one. *)
Definition countr_one (w x : Z) : Z := countr_one_aux (Z.to_nat w) x.

Fixpoint popcount_pos (p : positive) : Z :=
  match p with
  | xH => 1
  | xO p' => popcount_pos p'
  | xI p' => 1 + popcount_pos p'
  end.

(** [std::popcount]: the number of 1 bits. *)
Definition popcount (x : Z) : Z :=
  match x with
  | Zpos p => popcount_pos p
  | _ => 0
  end.

(** [std::bit_width]: 0 for 0, else one more than the position of the
    highest 1 bit. *)
Definition bit_width (x : Z) : Z :=
  match x with
  | Zpos _ => Z.log2 x + 1
  | _ => 0
  end.

End Std.

(** ** How a call ends *)

Inductive build : Type := Debug | Release.

Inductive result (A : Type) : Type :=
| Ok (a : A)
| AssertionFailed
| Undefined.
Arguments Ok {A} a.
Arguments AssertionFailed {A}.
Arguments Undefined {A}.

Definition bind {A B : Type} (r : result A) (k : A -> result B) : result B :=
  match r with
  | Ok a => k a
  | AssertionFailed => AssertionFailed
  | Undefined => Undefined
  end.

Notation "'do' x <- r ; k" := (bind r (fun x => k))
  (at level 10, x name, r at level 100, k at level 200).
Notation "r ;; k" := (bind r (fun _ => k))
  (at level 100, k at level 200, right associativity).

(** [BITSET_ASSERT(x)]: [assert(x)] under [_DEBUG], [(void)(x)] otherwise. *)
Definition BITSET_ASSERT (b : build) (x : bool) : result unit :=
  match b with
  | Debug => if x then Ok tt else AssertionFailed
  | Release => Ok tt
  end.

(** ** The class [BitSet<N>] *)

Abbreviation Storage_t := (list Z).

(** [sizeof(Inner_t) * 8] for the [Inner_t] selected by [N]. *)
Definition Inner_bits (N : Z) : Z :=
  if 32 <? N then 64 else if 16 <? N then 32 else if 8 <? N then 16 else 8.

(** [std::numeric_limits<Inner_t>::max()]. *)
Definition Inner_max (N : Z) : Z := 2 ^ Inner_bits N - 1.

(** Conversion to [Inner_t]. *)
Definition Inner_t (N x : Z) : Z := wrap (Inner_bits N) x.

(** [LAST_MASK = ~(~1ull << ((N - 1ull) % (64ull)))]. *)
Definition LAST_MASK (N : Z) : Z :=
  size_t (Z.lnot (size_t (Z.shiftl (size_t (Z.lnot 1)) (size_t (N - 1) mod 64)))).

(** [NUM_CHUNKS = (N + 63) / 64]. *)
Definition NUM_CHUNKS (N : Z) : Z := size_t (N + 63) / 64.

(** [m_storage[i]] as an rvalue and as the target of an assignment; an index
    outside the array is undefined behaviour. *)
Definition load (s : Storage_t) (i : Z) : result Z :=
  if i <? 0 then Undefined
  else match s !! Z.to_nat i with
       | Some w => Ok w
       | None => Undefined
       end.

Definition store (s : Storage_t) (i v : Z) : result Storage_t :=
  if (0 <=? i) && (i <? Z.of_nat (length s))
  then Ok (<[Z.to_nat i := v]> s)
  else Undefined.

(** [x << n] and [x >> n] on an operand whose (promoted) type has [w] bits; a
    shift count of [w] or more is undefined behaviour. *)
Definition shl (w x n : Z) : result Z :=
  if n <? w then Ok (wrap w (Z.shiftl x n)) else Undefined.

Definition shr (w x n : Z) : result Z :=
  if n <? w then Ok (Z.shiftr x n) else Undefined.

(** [for (size_t i = from; i < from + n; ++i) body]. *)
Fixpoint for_loop (n : nat) (i : Z) (body : Z -> Storage_t -> result Storage_t)
  (s : Storage_t) : result Storage_t :=
  match n with
  | O => Ok s
  | S n' => do s' <- body i s; for_loop n' (i + 1) body s'
  end.

(** The trip count of [for (size_t i = 0; i < NUM_CHUNKS - 1; ++i)]. *)
Definition chunks_but_last (N : Z) : nat := Z.to_nat (size_t (NUM_CHUNKS N - 1)).

(** *** Scans *)

Fixpoint first_func_loop (COUNT_FUNC : Z -> Z) (N : Z) (chunks : list Z)
  (pos : Z) : Z :=
  match chunks with
  | [] => N
  | chunk :: rest =>
      let chunk_pos := size_t (COUNT_FUNC chunk) in
      let pos := size_t (pos + chunk_pos) in
      if negb (chunk_pos =? Inner_bits N) then pos
      else first_func_loop COUNT_FUNC N rest pos
  end.

Definition first_func_impl (COUNT_FUNC : Z -> Z) (N : Z) (s : Storage_t) : Z :=
  first_func_loop COUNT_FUNC N s 0.

(** *** Constructors *)

(** [BitSet()]: value-initialised storage. *)
Definition BitSet_default (N : Z) : Storage_t :=
  repeat 0 (Z.to_nat (NUM_CHUNKS N)).

(** [BitSet(Storage_t storage) requires(N > 64)]. *)
Definition BitSet_of_array (b : build) (N : Z) (storage : Storage_t)
  : result Storage_t :=
  do w <- load storage (size_t (NUM_CHUNKS N - 1));
  BITSET_ASSERT b (size_t (Std.bit_width w) <=? LAST_MASK N);;
  Ok storage.

(** [BitSet(Inner_t storage) requires(N <= 64)]. *)
Definition BitSet_of_word (b : build) (N : Z) (storage : Z) : result Storage_t :=
  BITSET_ASSERT b (size_t (Std.bit_width storage) <=? N);;
  Ok [storage].

(** *** Accessors *)

(** [all()].  On an empty array [std::prev(m_storage.end())] and
    [m_storage.back()] are undefined; this is the value of [all()] on a
    non-empty array, which the array is whenever [NUM_CHUNKS >= 1]. *)
Definition all (N : Z) (s : Storage_t) : bool :=
  forallb (fun val => val =? Inner_max N) (removelast s)
  && (List.last s 0 =? LAST_MASK N).

Definition any (s : Storage_t) : bool :=
  existsb (fun val => negb (val =? 0)) s.

Definition none (s : Storage_t) : bool :=
  forallb (fun val => val =? 0) s.

(** [std::accumulate] with the initial value [0] of type [int]: the
    accumulator is an [int], the lambda computes in [size_t]. *)
Definition count (s : Storage_t) : Z :=
  size_t (fold_left (fun acc val => int (size_t (size_t acc + Std.popcount val))) s 0).

Definition first_one (N : Z) (s : Storage_t) : Z :=
  first_func_impl (Std.countr_zero (Inner_bits N)) N s.

Definition first_zero (N : Z) (s : Storage_t) : Z :=
  first_func_impl (Std.countr_one (Inner_bits N)) N s.

(** [operator[](pos)]. *)
Definition index (b : build) (N : Z) (s : Storage_t) (pos : Z) : result bool :=
  BITSET_ASSERT b (pos <? N);;
  if 64 <? N then
    let chunk := pos / 64 in
    let shift := pos mod 64 in
    do w <- load s chunk;
    do v <- shr 64 w shift;
    Ok (to_bool v)
  else
    do w <- load s 0;
    do v <- shr (promoted_bits (Inner_bits N)) w pos;
    Ok (to_bool (Z.land v 1)).

Definition test (b : build) (N : Z) (s : Storage_t) (pos : Z) : result bool :=
  index b N s pos.

Definition size (N : Z) : Z := N.

(** *** Modifiers *)

(** [set()]. *)
Definition set_all (N : Z) (s : Storage_t) : result Storage_t :=
  do s <- for_loop (chunks_but_last N) 0 (fun i s => store s i (Inner_max N)) s;
  store s (size_t (NUM_CHUNKS N - 1)) (Inner_t N (LAST_MASK N)).

(** [reset(pos)]. *)
Definition reset (b : build) (N : Z) (s : Storage_t) (pos : Z) : result Storage_t :=
  BITSET_ASSERT b (pos <? N);;
  if 64 <? N then
    let chunk := pos / 64 in
    let shift := pos mod 64 in
    do one <- shl 64 1 shift;
    do w <- load s chunk;
    if chunk =? size_t (NUM_CHUNKS N - 1)
    then store s chunk (Inner_t N (Z.land w (Z.land (size_t (Z.lnot one)) (LAST_MASK N))))
    else store s chunk (Inner_t N (Z.land w (size_t (Z.lnot one))))
  else
    do one <- shl 64 1 pos;
    do w <- load s 0;
    store s 0 (Inner_t N (Z.land w (Z.land (size_t (Z.lnot one)) (LAST_MASK N)))).

(** [set(pos, value)]. *)
Definition set (b : build) (N : Z) (s : Storage_t) (pos : Z) (value : bool)
  : result Storage_t :=
  BITSET_ASSERT b (pos <? N);;
  if negb value then reset b N s pos
  else if 64 <? N then
    let chunk := pos / 64 in
    let shift := pos mod 64 in
    do one <- shl 64 1 shift;
    do w <- load s chunk;
    store s chunk (Inner_t N (Z.lor w one))
  else
    do one <- shl 64 1 pos;
    do w <- load s 0;
    store s 0 (Inner_t N (Z.lor w (Inner_t N one))).

(** [flip()]. *)
Definition flip (N : Z) (s : Storage_t) : result Storage_t :=
  do s <- for_loop (chunks_but_last N) 0
            (fun i s => do w <- load s i;
                        store s i (Inner_t N (bit_not (Inner_bits N) w))) s;
  do w <- load s (size_t (NUM_CHUNKS N - 1));
  store s (size_t (NUM_CHUNKS N - 1))
    (Inner_t N (Z.land (size_t (bit_not (Inner_bits N) w)) (LAST_MASK N))).

(** [reset()]. *)
Definition reset_all (s : Storage_t) : Storage_t :=
  map (fun _ => 0) s.

(** [operator==(const BitSet<N>&)]. *)
Definition eqb (s other : Storage_t) : bool :=
  bool_decide (s = other).

(** [operator==(Storage_t storage) requires(N > 64)]. *)
Definition eqb_array (s storage : Storage_t) : bool :=
  bool_decide (s = storage).

(** [operator==(Inner_t storage) requires(N <= 64)]. *)
Definition eqb_word (s : Storage_t) (storage : Z) : result bool :=
  do w <- load s 0;
  Ok (w =? storage).

(** *** Conversions *)

(** The loop of [to_string()], [for (size_t i = N; i > 0; --i)], entered
    with [i] and the characters appended so far. *)
Fixpoint to_string_loop (b : build) (N : Z) (s : Storage_t) (i : nat)
  (acc : list ascii) : result (list ascii) :=
  match i with
  | O => Ok acc
  | S i' =>
      do r <- test b N s (Z.of_nat i');
      to_string_loop b N s i' (acc ++ [if r then "1"%char else "0"%char])
  end.

(** [to_string()]. *)
Definition to_string (b : build) (N : Z) (s : Storage_t) : result (list ascii) :=
  to_string_loop b N s (Z.to_nat N) [].

(** ** Vocabulary of the specification *)

(** The bit at logical index [i]: word [i / 64], shift [i % 64]. *)
Definition bit (s : Storage_t) (i : Z) : bool :=
  Z.testbit (nth (Z.to_nat (i / 64)) s 0) (i mod 64).

(** The number of live bits of the final word. *)
Definition live_bits (N : Z) : Z := (N - 1) mod 64 + 1.

(** [N] is a positive [size_t] for which [N + 63] does not wrap, so that
    [NUM_CHUNKS] is the number of 64-bit chunks that cover [N] bits. *)
Definition size_ok (N : Z) : Prop := 0 < N /\ N + 63 < 2 ^ 64.

(** A value of type [Inner_t]. *)
Definition word_ok (N w : Z) : bool := (0 <=? w) && (w <? 2 ^ Inner_bits N).

(** A value of type [std::array<Inner_t, NUM_CHUNKS>]. *)
Definition wf (N : Z) (s : Storage_t) : bool :=
  (Z.of_nat (length s) =? NUM_CHUNKS N) && forallb (word_ok N) s.

(** Canonical form: no bit of the final word outside [LAST_MASK]. *)
Definition canonical (N : Z) (s : Storage_t) : bool :=
  Z.land (List.last s 0) (Z.lnot (LAST_MASK N)) =? 0.

(** [within x m]: every 1 bit of [x] is a 1 bit of [m]. *)
Definition within (x m : Z) : Prop :=
  forall j, 0 <= j -> Z.testbit x j = true -> Z.testbit m j = true.

(** The number of indices [lo <= i < lo + n] at which [f] is true. *)
Fixpoint count_true (f : Z -> bool) (lo : Z) (n : nat) : Z :=
  match n with
  | O => 0
  | S n' => Z.b2z (f lo) + count_true f (lo + 1) n'
  end.

(** The number of 1 bits among the logical indices [0, N). *)
Definition ones_below (N : Z) (s : Storage_t) : Z :=
  count_true (bit s) 0 (Z.to_nat N).

(** The run lengths of a sequence of words, accumulated. *)
Definition run_sum (COUNT_FUNC : Z -> Z) (l : list Z) : Z :=
  fold_right (fun w acc => COUNT_FUNC w + acc) 0 l.

(** What the scans need of a run-length function for words of [w] bits that
    counts the low bits equal to [b]. *)
Definition counts_run (w : Z) (b : bool) (cnt : Z -> Z) : Prop :=
  forall x,
    0 <= cnt x <= w /\
    (forall j, 0 <= j < cnt x -> Z.testbit x j = b) /\
    (cnt x < w -> Z.testbit x (cnt x) = negb b).

(** ** The repository's constexpr tests, run on the embedding *)

Module ConstexprTests.

Definition a : Storage_t := [53].
Definition b : Storage_t := [255].
Definition c : Storage_t := [18446744073709551615; 1].
Definition d : Storage_t := BitSet_default 70.
Definition e : Storage_t := [0; 0; 1].

Example test_a :
  BitSet_of_word Debug 8 53 = Ok a /\
  index Debug 8 a 0 = Ok true /\ index Debug 8 a 1 = Ok false /\
  test Debug 8 a 1 = Ok false /\
  all 8 a = false /\ any a = true /\ none a = false /\ count a = 4 /\
  first_one 8 a = 0 /\ first_zero 8 a = 1.
Proof. repeat split; vm_compute; reflexivity. Qed.

Example test_b :
  BitSet_of_word Debug 8 255 = Ok b /\
  all 8 b = true /\ any b = true /\ none b = false /\ count b = 8 /\
  first_zero 8 b = 8.
Proof. repeat split; vm_compute; reflexivity. Qed.

Example test_c :
  BitSet_of_array Debug 65 c = Ok c /\
  all 65 c = true /\ any c = true /\ none c = false /\ count c = 65 /\
  first_zero 65 c = 65.
Proof. repeat split; vm_compute; reflexivity. Qed.

Example test_d :
  d = [0; 0] /\
  all 70 d = false /\ any d = false /\ none d = true /\ count d = 0 /\
  first_one 70 d = 70 /\ first_zero 70 d = 0.
Proof. repeat split; vm_compute; reflexivity. Qed.

Example test_e :
  BitSet_of_array Debug 129 e = Ok e /\
  all 129 e = false /\ any e = true /\ none e = false /\ count e = 1 /\
  first_one 129 e = 128 /\ first_zero 129 e = 0.
Proof. repeat split; vm_compute; reflexivity. Qed.

End ConstexprTests.

(** ** Calls outside the contract, in the two builds *)

Module ContractViolations.

Example index_out_of_range :
  index Debug 8 [53] 8 = AssertionFailed /\
  index Release 8 [53] 8 = Ok false /\
  index Release 8 [53] 40 = Undefined /\
  index Release 70 [0; 0] 128 = Undefined.
Proof. repeat split; vm_compute; reflexivity. Qed.

Example set_out_of_range :
  set Debug 5 [0] 6 true = AssertionFailed /\
  set Release 5 [0] 6 true = Ok [64] /\
  canonical 5 [64] = false.
Proof. repeat split; vm_compute; reflexivity. Qed.

Example reset_out_of_range :
  reset Debug 70 [5; 33] 70 = AssertionFailed /\
  reset Release 70 [5; 255] 70 = Ok [5; 63].
Proof. repeat split; vm_compute; reflexivity. Qed.

Example raw_word_with_padding :
  BitSet_of_word Debug 5 255 = AssertionFailed /\
  BitSet_of_word Release 5 255 = Ok [255] /\
  canonical 5 [255] = false.
Proof. repeat split; vm_compute; reflexivity. Qed.

End ContractViolations.

(** ** Arithmetic of the compile-time constants *)

Lemma pow2_64 : 2 ^ 64 = 18446744073709551616.
Proof. reflexivity. Qed.

(** [size_ok] at a literal [N]. *)
Ltac size_ok_lit := unfold size_ok; rewrite pow2_64; lia.

Lemma size_t_small x : 0 <= x < 2 ^ 64 -> size_t x = x.
Proof. intros H. unfold size_t, wrap. now apply Z.mod_small. Qed.

Lemma wrap_range w x : 0 <= w -> 0 <= wrap w x < 2 ^ w.
Proof. intros Hw. unfold wrap. apply Z.mod_pos_bound. now apply Z.pow_pos_nonneg. Qed.

Lemma wrap_small w x : 0 <= x < 2 ^ w -> wrap w x = x.
Proof. intros H. unfold wrap. now apply Z.mod_small. Qed.

Lemma wrap_testbit w x j :
  0 <= w -> Z.testbit (wrap w x) j = (j <? w) && Z.testbit x j.
Proof.
  intros Hw. unfold wrap. destruct (Z.ltb_spec j w).
  - destruct (Z.ltb_spec j 0).
    + now rewrite !Z.testbit_neg_r.
    + now rewrite Z.mod_pow2_bits_low.
  - now rewrite Z.mod_pow2_bits_high.
Qed.

Lemma testbit_above w x j : 0 <= x < 2 ^ w -> w <= j -> Z.testbit x j = false.
Proof.
  intros Hx Hj. destruct (Z.ltb_spec w 0).
  - rewrite Z.pow_neg_r in Hx; lia.
  - rewrite <- (wrap_small w x Hx), wrap_testbit by lia.
    destruct (Z.ltb_spec j w); [lia | reflexivity].
Qed.

Lemma live_bits_range N : 1 <= live_bits N <= 64.
Proof. unfold live_bits. pose proof (Z.mod_pos_bound (N - 1) 64). lia. Qed.

Lemma NUM_CHUNKS_eq N : size_ok N -> NUM_CHUNKS N = (N + 63) / 64.
Proof.
  intros [H1 H2]. unfold NUM_CHUNKS. rewrite size_t_small; [reflexivity | lia].
Qed.

Lemma chunks_live N :
  size_ok N -> 1 <= NUM_CHUNKS N /\ 64 * (NUM_CHUNKS N - 1) + live_bits N = N.
Proof.
  intros H. rewrite (NUM_CHUNKS_eq N H). destruct H as [H1 H2].
  unfold live_bits. split.
  - apply Z.div_le_lower_bound; lia.
  - pose proof (Z.div_mod (N - 1) 64 ltac:(lia)) as E.
    replace (N + 63) with ((N - 1) + 1 * 64) by lia.
    rewrite Z.div_add by lia. lia.
Qed.

Lemma chunks_but_last_eq N :
  size_ok N -> size_t (NUM_CHUNKS N - 1) = NUM_CHUNKS N - 1.
Proof.
  intros H. destruct (chunks_live N H) as [H1 H2].
  pose proof (live_bits_range N). destruct H as [H3 H4].
  apply size_t_small. rewrite pow2_64 in *. lia.
Qed.

Lemma LAST_MASK_ones N : size_ok N -> LAST_MASK N = Z.ones (live_bits N).
Proof.
  intros [H1 H2]. unfold LAST_MASK, live_bits.
  rewrite (size_t_small (N - 1)) by lia.
  pose proof (Z.mod_pos_bound (N - 1) 64 ltac:(lia)) as Hk.
  set (k := (N - 1) mod 64) in *. clearbody k.
  unfold size_t, wrap. apply Z.bits_inj'. intros j Hj.
  rewrite !Z.testbit_mod_pow2, Z.testbit_ones_nonneg by lia.
  destruct (Z.ltb_spec j 64); cbn [andb].
  - rewrite Z.lnot_spec, Z.testbit_mod_pow2 by lia.
    destruct (Z.ltb_spec j 64); [cbn [andb] | lia].
    destruct (Z.ltb_spec j (k + 1)).
    + rewrite Z.shiftl_spec, Z.testbit_mod_pow2 by lia.
      destruct (Z.ltb_spec (j - k) 64); [cbn [andb] | reflexivity].
      destruct (Z.ltb_spec (j - k) 0).
      * now rewrite Z.testbit_neg_r.
      * replace (j - k) with 0 by lia. reflexivity.
    + rewrite Z.shiftl_spec, Z.testbit_mod_pow2 by lia.
      destruct (Z.ltb_spec (j - k) 64); [cbn [andb] | lia].
      rewrite Z.lnot_spec by lia.
      replace (Z.testbit 1 (j - k)) with false; [reflexivity |].
      symmetry. apply (testbit_above 1); lia.
  - destruct (Z.ltb_spec j (k + 1)); [lia | reflexivity].
Qed.

Lemma LAST_MASK_pos N : 1 <= LAST_MASK N.
Proof.
  unfold LAST_MASK.
  pose proof (Z.mod_pos_bound (size_t (N - 1)) 64 ltac:(lia)) as Hk.
  set (k := size_t (N - 1) mod 64) in *. clearbody k.
  assert (Z.testbit (size_t (Z.lnot (size_t (Z.shiftl (size_t (Z.lnot 1)) k)))) 0 = true) as Hb.
  { unfold size_t. rewrite wrap_testbit, Z.lnot_spec, wrap_testbit by lia.
    rewrite Z.shiftl_spec, wrap_testbit by lia.
    destruct (Z.eq_dec k 0) as [-> | Hne].
    - reflexivity.
    - rewrite (Z.testbit_neg_r _ (0 - k)) by lia.
      destruct (0 - k <? 64); reflexivity. }
  pose proof (wrap_range 64 (Z.lnot (size_t (Z.shiftl (size_t (Z.lnot 1)) k))) ltac:(lia)) as Hr.
  fold (size_t (Z.lnot (size_t (Z.shiftl (size_t (Z.lnot 1)) k)))) in Hr.
  destruct (Z.eq_dec (size_t (Z.lnot (size_t (Z.shiftl (size_t (Z.lnot 1)) k)))) 0) as [E | E].
  - rewrite E in Hb. discriminate.
  - lia.
Qed.

Lemma Inner_bits_cases N :
  Inner_bits N = 8 \/ Inner_bits N = 16 \/ Inner_bits N = 32 \/ Inner_bits N = 64.
Proof.
  unfold Inner_bits.
  destruct (32 <? N); [tauto |]. destruct (16 <? N); [tauto |].
  destruct (8 <? N); tauto.
Qed.

Lemma Inner_bits_multi N : 32 < N -> Inner_bits N = 64.
Proof. intros H. unfold Inner_bits. destruct (Z.ltb_spec 32 N); [reflexivity | lia]. Qed.

Lemma Inner_bits_ge N : N <= 64 -> N <= Inner_bits N.
Proof.
  intros H. unfold Inner_bits.
  destruct (Z.ltb_spec 32 N); [lia |]. destruct (Z.ltb_spec 16 N); [lia |].
  destruct (Z.ltb_spec 8 N); lia.
Qed.

Lemma single_word N :
  size_ok N -> N <= 64 -> NUM_CHUNKS N = 1 /\ live_bits N = N.
Proof.
  intros H Hle. destruct (chunks_live N H) as [H1 H2].
  pose proof (live_bits_range N). destruct H as [H3 H4]. 
  assert (NUM_CHUNKS N = 1) by nia. split; [assumption | lia].
Qed.

Lemma multi_word N :
  size_ok N -> 64 < N -> 2 <= NUM_CHUNKS N /\ Inner_bits N = 64.
Proof.
  intros H Hlt. destruct (chunks_live N H) as [H1 H2].
  pose proof (live_bits_range N). split; [nia | apply Inner_bits_multi; lia].
Qed.

(** ** Well-formed states *)

Lemma word_ok_iff N w : word_ok N w = true <-> 0 <= w < 2 ^ Inner_bits N.
Proof. unfold word_ok. rewrite andb_true_iff, Z.leb_le, Z.ltb_lt. tauto. Qed.

Lemma wf_iff N s :
  wf N s = true <->
  Z.of_nat (length s) = NUM_CHUNKS N /\ Forall (fun w => word_ok N w = true) s.
Proof.
  unfold wf. rewrite andb_true_iff, Z.eqb_eq, List.forallb_forall, List.Forall_forall.
  tauto.
Qed.

(** A well-formed state is its leading full words followed by the final word. *)
Lemma wf_snoc N s :
  size_ok N -> wf N s = true ->
  exists init w,
    s = init ++ [w] /\ Z.of_nat (length init) = NUM_CHUNKS N - 1 /\
    Forall (fun w => word_ok N w = true) init /\ word_ok N w = true.
Proof.
  intros HN Hwf. apply wf_iff in Hwf. destruct Hwf as [Hlen Hall].
  destruct (chunks_live N HN) as [H1 _].
  destruct (@exists_last _ s) as (init & w & ->).
  { intros ->. cbn in Hlen. lia. }
  exists init, w. rewrite length_app in Hlen. cbn in Hlen.
  apply Forall_app in Hall. destruct Hall as [Hi Hw].
  repeat split; [lia | assumption | now inversion Hw].
Qed.

Lemma wf_of_snoc N init w :
  Z.of_nat (length init) = NUM_CHUNKS N - 1 ->
  Forall (fun w => word_ok N w = true) init -> word_ok N w = true ->
  wf N (init ++ [w]) = true.
Proof.
  intros Hlen Hi Hw. apply wf_iff. split.
  - rewrite length_app. cbn. lia.
  - apply Forall_app. split; [assumption | now constructor].
Qed.

Lemma Inner_t_ok N x : word_ok N (Inner_t N x) = true.
Proof.
  apply word_ok_iff. apply wrap_range.
  destruct (Inner_bits_cases N) as [-> | [-> | [-> | ->]]]; lia.
Qed.

Lemma Inner_bits_nonneg N : 0 <= Inner_bits N.
Proof. destruct (Inner_bits_cases N) as [-> | [-> | [-> | ->]]]; lia. Qed.

Lemma Inner_bits_le N : Inner_bits N <= 64.
Proof. destruct (Inner_bits_cases N) as [-> | [-> | [-> | ->]]]; lia. Qed.

Lemma Inner_max_ok N : word_ok N (Inner_max N) = true.
Proof.
  apply word_ok_iff. unfold Inner_max.
  pose proof (Z.pow_pos_nonneg 2 (Inner_bits N) ltac:(lia) (Inner_bits_nonneg N)). lia.
Qed.

(** ** Array accesses and the index loops *)

Lemma load_middle (l1 : list Z) x l2 :
  load (l1 ++ x :: l2) (Z.of_nat (length l1)) = Ok x.
Proof.
  unfold load. destruct (Z.ltb_spec (Z.of_nat (length l1)) 0); [lia |].
  rewrite Nat2Z.id, list_lookup_middle by reflexivity. reflexivity.
Qed.

Lemma store_middle (l1 : list Z) x l2 v :
  store (l1 ++ x :: l2) (Z.of_nat (length l1)) v = Ok (l1 ++ v :: l2).
Proof.
  unfold store. rewrite length_app. cbn [length].
  destruct (Z.leb_spec 0 (Z.of_nat (length l1))); [| lia].
  destruct (Z.ltb_spec (Z.of_nat (length l1)) (Z.of_nat (length l1 + S (length l2)))); [| lia].
  cbn [andb]. rewrite Nat2Z.id.
  replace (length l1) with (length l1 + 0)%nat at 1 by lia.
  now rewrite insert_app_r.
Qed.

Lemma for_loop_map (f : Z -> Z) body :
  (forall (l1 : list Z) x l2,
      body (Z.of_nat (length l1)) (l1 ++ x :: l2) = Ok (l1 ++ f x :: l2)) ->
  forall (n : nat) (l1 l2 : list Z),
    (n <= length l2)%nat ->
    for_loop n (Z.of_nat (length l1)) body (l1 ++ l2)
    = Ok (l1 ++ map f (take n l2) ++ drop n l2).
Proof.
  intros Hbody. induction n as [| n IH]; intros l1 l2 Hn.
  - cbn. now rewrite drop_0.
  - destruct l2 as [| x l2]; [cbn in Hn; lia |].
    cbn [for_loop]. rewrite Hbody. cbn [bind].
    replace (Z.of_nat (length l1) + 1) with (Z.of_nat (length (l1 ++ [f x])))
      by (rewrite length_app; cbn; lia).
    replace (l1 ++ f x :: l2) with ((l1 ++ [f x]) ++ l2)
      by now rewrite <- app_assoc.
    rewrite IH by (cbn in Hn; lia).
    cbn. now rewrite <- app_assoc.
Qed.

Lemma for_loop_init (f : Z -> Z) body (init rest : list Z) :
  (forall (l1 : list Z) x l2,
      body (Z.of_nat (length l1)) (l1 ++ x :: l2) = Ok (l1 ++ f x :: l2)) ->
  for_loop (length init) 0 body (init ++ rest) = Ok (map f init ++ rest).
Proof.
  intros Hbody.
  pose proof (for_loop_map f body Hbody (length init) [] (init ++ rest)) as H.
  cbn [length app] in H. change (Z.of_nat 0) with 0 in H.
  rewrite H by (rewrite length_app; lia).
  now rewrite take_app_length, drop_app_length.
Qed.

(** Closed forms of the bulk modifiers on a well-formed state. *)

Lemma chunks_but_last_length N (init : list Z) :
  size_ok N -> Z.of_nat (length init) = NUM_CHUNKS N - 1 ->
  chunks_but_last N = length init /\
  size_t (NUM_CHUNKS N - 1) = Z.of_nat (length init).
Proof.
  intros HN Hlen. unfold chunks_but_last.
  rewrite (chunks_but_last_eq N HN), <- Hlen, Nat2Z.id. split; reflexivity.
Qed.

Lemma set_all_snoc N init w :
  size_ok N -> Z.of_nat (length init) = NUM_CHUNKS N - 1 ->
  set_all N (init ++ [w])
  = Ok (map (fun _ => Inner_max N) init ++ [Inner_t N (LAST_MASK N)]).
Proof.
  intros HN Hlen. unfold set_all.
  destruct (chunks_but_last_length N init HN Hlen) as [-> ->].
  rewrite (for_loop_init (fun _ => Inner_max N)) by (intros; apply store_middle).
  cbn [bind].
  replace (Z.of_nat (length init))
    with (Z.of_nat (length (map (fun _ : Z => Inner_max N) init)))
    by now rewrite length_map.
  apply store_middle.
Qed.

Lemma flip_snoc N init w :
  size_ok N -> Z.of_nat (length init) = NUM_CHUNKS N - 1 ->
  flip N (init ++ [w])
  = Ok (map (fun x => Inner_t N (bit_not (Inner_bits N) x)) init
        ++ [Inner_t N (Z.land (size_t (bit_not (Inner_bits N) w)) (LAST_MASK N))]).
Proof.
  intros HN Hlen. unfold flip.
  destruct (chunks_but_last_length N init HN Hlen) as [-> ->].
  rewrite (for_loop_init (fun x => Inner_t N (bit_not (Inner_bits N) x))).
  2:{ intros l1 x l2. rewrite load_middle. cbn [bind]. apply store_middle. }
  cbn [bind].
  replace (Z.of_nat (length init))
    with (Z.of_nat (length (map (fun x => Inner_t N (bit_not (Inner_bits N) x)) init)))
    by now rewrite length_map.
  rewrite load_middle. cbn [bind]. apply store_middle.
Qed.

(** ** Bit-level facts about words *)

Lemma land_lnot_within x m : Z.land x (Z.lnot m) = 0 <-> within x m.
Proof.
  split.
  - intros H j Hj Hx.
    assert (Z.testbit (Z.land x (Z.lnot m)) j = false) as E
        by (rewrite H; apply Z.testbit_0_l).
    rewrite Z.land_spec, Z.lnot_spec, Hx in E by lia.
    destruct (Z.testbit m j); [reflexivity | discriminate].
  - intros H. apply Z.bits_inj'. intros j Hj.
    rewrite Z.land_spec, Z.lnot_spec, Z.testbit_0_l by lia.
    destruct (Z.testbit x j) eqn:Hx; [| reflexivity].
    now rewrite (H j Hj Hx).
Qed.

Lemma canonical_within N s :
  canonical N s = true <-> within (List.last s 0) (LAST_MASK N).
Proof. unfold canonical. rewrite Z.eqb_eq. apply land_lnot_within. Qed.

Lemma within_wrap w x m : 0 <= w -> within x m -> within (wrap w x) m.
Proof.
  intros Hw H j Hj. rewrite wrap_testbit by lia.
  intros E. apply andb_true_iff in E. apply H; tauto.
Qed.

Lemma within_refl m : within m m.
Proof. intros j _ H. exact H. Qed.

Lemma within_0 m : within 0 m.
Proof. intros j _. rewrite Z.testbit_0_l. discriminate. Qed.

Lemma last_map_zero (s : list Z) : List.last (map (fun _ => 0) s) 0 = 0.
Proof.
  induction s as [| x s IH]; [reflexivity |].
  destruct s; [reflexivity | exact IH].
Qed.

Lemma length_snoc_of N (s : list Z) :
  size_ok N -> Z.of_nat (length s) = NUM_CHUNKS N ->
  exists init w, s = init ++ [w] /\ Z.of_nat (length init) = NUM_CHUNKS N - 1.
Proof.
  intros HN Hlen. destruct (chunks_live N HN) as [H1 _].
  destruct (@exists_last _ s) as (init & w & ->).
  { intros ->. cbn in Hlen. lia. }
  exists init, w. rewrite length_app in Hlen. cbn in Hlen. split; [reflexivity | lia].
Qed.

Lemma testbit_flip_word N y j :
  0 <= j ->
  Z.testbit (Inner_t N (bit_not (Inner_bits N) y)) j
  = (j <? Inner_bits N) && negb (Z.testbit y j).
Proof.
  intros Hj. pose proof (Inner_bits_nonneg N) as HW.
  unfold Inner_t, bit_not. destruct (Inner_bits N <? 32).
  - now rewrite wrap_testbit, Z.lnot_spec by lia.
  - rewrite !wrap_testbit, Z.lnot_spec by lia.
    destruct (j <? Inner_bits N); reflexivity.
Qed.

Lemma live_le_Inner N : size_ok N -> live_bits N <= Inner_bits N.
Proof.
  intros HN. destruct (Z.le_gt_cases N 64) as [Hle | Hgt].
  - destruct (single_word N HN Hle) as [_ ->]. now apply Inner_bits_ge.
  - destruct (multi_word N HN ltac:(lia)) as [_ ->]. apply live_bits_range.
Qed.

Lemma testbit_LAST_MASK N j :
  size_ok N -> 0 <= j -> Z.testbit (LAST_MASK N) j = (j <? live_bits N).
Proof.
  intros HN Hj. rewrite (LAST_MASK_ones N HN).
  pose proof (live_bits_range N). apply Z.testbit_ones_nonneg; lia.
Qed.

Lemma testbit_flip_last N y j :
  size_ok N -> 0 <= j ->
  Z.testbit (Inner_t N (Z.land (size_t (bit_not (Inner_bits N) y)) (LAST_MASK N))) j
  = (j <? live_bits N) && negb (Z.testbit y j).
Proof.
  intros HN Hj. pose proof (Inner_bits_nonneg N) as HW.
  pose proof (live_le_Inner N HN) as Hlive. pose proof (Inner_bits_le N) as H64.
  unfold Inner_t at 1. rewrite wrap_testbit, Z.land_spec, (testbit_LAST_MASK N j HN) by lia.
  unfold size_t. rewrite wrap_testbit by lia.
  assert (Z.testbit (bit_not (Inner_bits N) y) j
          = (if Inner_bits N <? 32 then true else (j <? Inner_bits N))
            && negb (Z.testbit y j)) as E.
  { unfold bit_not. destruct (Inner_bits N <? 32).
    - now rewrite Z.lnot_spec by lia.
    - now rewrite wrap_testbit, Z.lnot_spec by lia. }
  rewrite E.
  destruct (Z.ltb_spec j (live_bits N)).
  - destruct (Z.ltb_spec j (Inner_bits N)); [| lia].
    destruct (Z.ltb_spec j 64); [| lia].
    destruct (Inner_bits N <? 32); destruct (Z.testbit y j); reflexivity.
  - now rewrite !andb_false_r.
Qed.

(** Double complement of a word, as [flip] computes it. *)
Lemma flip_word_involutive N x :
  word_ok N x = true ->
  Inner_t N (bit_not (Inner_bits N) (Inner_t N (bit_not (Inner_bits N) x))) = x.
Proof.
  intros Hx. apply word_ok_iff in Hx.
  apply Z.bits_inj'. intros j Hj. rewrite !testbit_flip_word by lia.
  destruct (Z.ltb_spec j (Inner_bits N)); cbn [andb negb].
  - now rewrite negb_involutive.
  - symmetry. now apply (testbit_above (Inner_bits N)).
Qed.

Lemma flip_last_involutive N w :
  size_ok N -> within w (LAST_MASK N) ->
  Inner_t N (Z.land (size_t (bit_not (Inner_bits N)
     (Inner_t N (Z.land (size_t (bit_not (Inner_bits N) w)) (LAST_MASK N)))))
     (LAST_MASK N)) = w.
Proof.
  intros HN Hw. apply Z.bits_inj'. intros j Hj.
  rewrite !(testbit_flip_last N _ j HN) by lia.
  destruct (Z.ltb_spec j (live_bits N)); cbn [andb negb].
  - now rewrite negb_involutive.
  - destruct (Z.testbit w j) eqn:E; [| reflexivity].
    apply Hw in E; [| lia]. rewrite (testbit_LAST_MASK N j HN) in E by lia.
    destruct (Z.ltb_spec j (live_bits N)); [lia | discriminate].
Qed.

Lemma within_flip_last N y :
  size_ok N ->
  within (Inner_t N (Z.land (size_t (bit_not (Inner_bits N) y)) (LAST_MASK N)))
         (LAST_MASK N).
Proof.
  intros HN j Hj.
  rewrite (testbit_flip_last N y j HN), (testbit_LAST_MASK N j HN) by lia.
  intros E. apply andb_true_iff in E. tauto.
Qed.

(** ** Logical bits and the padding of the final word *)

Lemma bit_snoc_last (init : list Z) w j :
  0 <= j < 64 -> bit (init ++ [w]) (64 * Z.of_nat (length init) + j) = Z.testbit w j.
Proof.
  intros Hj. unfold bit.
  replace (64 * Z.of_nat (length init) + j) with (j + Z.of_nat (length init) * 64) by lia.
  rewrite Z.div_add, Z.mod_add, Z.div_small, Z.mod_small by lia.
  rewrite Z.add_0_l, Nat2Z.id, List.nth_middle. reflexivity.
Qed.

Lemma bit_beyond (s : list Z) p : 64 * Z.of_nat (length s) <= p -> bit s p = false.
Proof.
  intros Hp. unfold bit. rewrite List.nth_overflow; [apply Z.testbit_0_l |].
  assert (Z.of_nat (length s) <= p / 64) by (apply Z.div_le_lower_bound; lia).
  lia.
Qed.

Lemma bit_app_l (init rest : list Z) p :
  0 <= p < 64 * Z.of_nat (length init) -> bit (init ++ rest) p = bit init p.
Proof.
  intros Hp. unfold bit. rewrite List.app_nth1; [reflexivity |].
  assert (p / 64 < Z.of_nat (length init)) by (apply Z.div_lt_upper_bound; lia).
  assert (0 <= p / 64) by (apply Z.div_pos; lia).
  lia.
Qed.

(** Canonical form says that every bit at a position [>= N] reads 0. *)
Lemma canonical_padding N (s : list Z) :
  size_ok N -> Z.of_nat (length s) = NUM_CHUNKS N -> canonical N s = true ->
  forall p, N <= p -> bit s p = false.
Proof.
  intros HN Hlen Hc p Hp.
  destruct (length_snoc_of N s HN Hlen) as (init & w & -> & Hinit).
  destruct (chunks_live N HN) as [_ HNeq].
  pose proof (live_bits_range N) as Hlive.
  apply canonical_within in Hc. rewrite List.last_last in Hc.
  destruct (Z.lt_ge_cases p (64 * NUM_CHUNKS N)) as [Hlt | Hge].
  - replace p with (64 * Z.of_nat (length init) + (p - 64 * (NUM_CHUNKS N - 1))) by lia.
    rewrite bit_snoc_last by lia.
    destruct (Z.testbit w (p - 64 * (NUM_CHUNKS N - 1))) eqn:E; [| reflexivity].
    apply Hc in E; [| lia]. rewrite (testbit_LAST_MASK N _ HN) in E by lia.
    destruct (Z.ltb_spec (p - 64 * (NUM_CHUNKS N - 1)) (live_bits N)); [lia | discriminate].
  - apply bit_beyond. rewrite length_app. cbn [length]. lia.
Qed.

Lemma padding_canonical N (s : list Z) :
  size_ok N -> wf N s = true -> (forall p, N <= p -> bit s p = false) ->
  canonical N s = true.
Proof.
  intros HN Hwf Hpad.
  destruct (wf_snoc N s HN Hwf) as (init & w & -> & Hinit & _ & Hw).
  destruct (chunks_live N HN) as [_ HNeq].
  pose proof (live_bits_range N) as Hlive.
  apply word_ok_iff in Hw. pose proof (Inner_bits_le N) as H64.
  apply canonical_within. rewrite List.last_last. intros j Hj E.
  rewrite (testbit_LAST_MASK N j HN) by lia.
  destruct (Z.ltb_spec j (live_bits N)); [reflexivity |].
  destruct (Z.lt_ge_cases j 64) as [Hlt | Hge].
  - rewrite <- (bit_snoc_last init w j), Hpad in E by lia. discriminate.
  - rewrite (testbit_above (Inner_bits N) w j) in E by lia. discriminate.
Qed.

(** ** The bulk modifiers *)

Lemma set_all_canonical N (s : list Z) :
  size_ok N -> Z.of_nat (length s) = NUM_CHUNKS N ->
  exists s', set_all N s = Ok s' /\ length s' = length s /\ canonical N s' = true.
Proof.
  intros HN Hlen. destruct (length_snoc_of N s HN Hlen) as (init & w & -> & Hinit).
  eexists. split; [now apply set_all_snoc |]. split.
  - now rewrite !length_app, length_map.
  - apply canonical_within. rewrite List.last_last.
    apply within_wrap; [apply Inner_bits_nonneg | apply within_refl].
Qed.

Lemma flip_canonical N (s : list Z) :
  size_ok N -> Z.of_nat (length s) = NUM_CHUNKS N ->
  exists s', flip N s = Ok s' /\ length s' = length s /\ canonical N s' = true.
Proof.
  intros HN Hlen. destruct (length_snoc_of N s HN Hlen) as (init & w & -> & Hinit).
  eexists. split; [now apply flip_snoc |]. split.
  - now rewrite !length_app, length_map.
  - apply canonical_within. rewrite List.last_last. now apply within_flip_last.
Qed.

Lemma reset_all_canonical N (s : list Z) : canonical N (reset_all s) = true.
Proof.
  apply canonical_within. unfold reset_all. rewrite last_map_zero. apply within_0.
Qed.

Lemma wf_set_all N (s s' : list Z) :
  size_ok N -> Z.of_nat (length s) = NUM_CHUNKS N -> set_all N s = Ok s' ->
  wf N s' = true.
Proof.
  intros HN Hlen. destruct (length_snoc_of N s HN Hlen) as (init & w & -> & Hinit).
  rewrite set_all_snoc by assumption. intros [= <-].
  apply wf_of_snoc.
  - now rewrite length_map.
  - apply Forall_map. apply Forall_forall. intros x _. apply Inner_max_ok.
  - apply Inner_t_ok.
Qed.

Lemma wf_flip N (s s' : list Z) :
  size_ok N -> Z.of_nat (length s) = NUM_CHUNKS N -> flip N s = Ok s' ->
  wf N s' = true.
Proof.
  intros HN Hlen. destruct (length_snoc_of N s HN Hlen) as (init & w & -> & Hinit).
  rewrite flip_snoc by assumption. intros [= <-].
  apply wf_of_snoc.
  - now rewrite length_map.
  - apply Forall_map. apply Forall_forall. intros x _. apply Inner_t_ok.
  - apply Inner_t_ok.
Qed.

Lemma wf_reset_all N (s : list Z) :
  Z.of_nat (length s) = NUM_CHUNKS N -> wf N (reset_all s) = true.
Proof.
  intros Hlen. apply wf_iff. unfold reset_all. split.
  - now rewrite length_map.
  - apply Forall_map. apply Forall_forall. intros x _. apply word_ok_iff.
    pose proof (Z.pow_pos_nonneg 2 (Inner_bits N) ltac:(lia) (Inner_bits_nonneg N)). 
    cbn beta. lia.
Qed.

(** C8. [flip()] is self-inverse: on a state in canonical form, two calls of
    [flip()] return, and the storage after the second is word for word the
    storage before the first. *)
Theorem flip_flip N (s : list Z) :
  size_ok N -> wf N s = true -> canonical N s = true ->
  exists s', flip N s = Ok s' /\ flip N s' = Ok s.
Proof.
  intros HN Hwf Hc.
  destruct (wf_snoc N s HN Hwf) as (init & w & -> & Hinit & Hall & Hw).
  apply canonical_within in Hc. rewrite List.last_last in Hc.
  eexists. split; [now apply flip_snoc |].
  rewrite flip_snoc by (try assumption; now rewrite length_map).
  f_equal. f_equal.
  - rewrite List.map_map. rewrite <- (List.map_id init) at 2.
    apply List.map_ext_in. intros x Hx.
    apply flip_word_involutive. rewrite List.Forall_forall in Hall. now apply Hall.
  - f_equal. now apply flip_last_involutive.
Qed.

Lemma flip_flip_witness :
  size_ok 70 /\ wf 70 [5; 33] = true /\ canonical 70 [5; 33] = true /\
  exists s', flip 70 [5; 33] = Ok s' /\ flip 70 s' = Ok [5; 33].
Proof.
  assert (size_ok 70) as HN by size_ok_lit.
  assert (wf 70 [5; 33] = true) as Hwf by reflexivity.
  assert (canonical 70 [5; 33] = true) as Hc by reflexivity.
  repeat (split; [assumption |]).
  exact (flip_flip 70 [5; 33] HN Hwf Hc).
Defined.

(** ** The whole-container predicates *)

Lemma any_negb_none (s : list Z) : any s = negb (none s).
Proof.
  unfold any, none. induction s as [| x s IH]; [reflexivity |].
  cbn [existsb forallb]. rewrite IH, negb_andb. reflexivity.
Qed.

Lemma last_nonzero_any (s : list Z) : List.last s 0 <> 0 -> any s = true.
Proof.
  unfold any. induction s as [| x s IH]; intros H.
  - now contradiction H.
  - cbn [existsb]. destruct s as [| y s].
    + cbn in H. destruct (Z.eqb_spec x 0); [contradiction | reflexivity].
    + rewrite IH by exact H. apply orb_true_r.
Qed.

Lemma all_any N (s : list Z) : all N s = true -> any s = true.
Proof.
  unfold all. intros H. apply andb_true_iff in H. destruct H as [_ H].
  apply Z.eqb_eq in H. apply last_nonzero_any.
  pose proof (LAST_MASK_pos N). lia.
Qed.

(** C9. In every state of the container (an array of [NUM_CHUNKS] words,
    for a bit count whose chunk count does not wrap, so that the array is
    not empty and [all()] is defined): [any()] is the negation of [none()],
    [all()] implies [any()], and [all()] and [none()] are never both true. *)
Theorem any_none_all N (s : list Z) :
  size_ok N -> Z.of_nat (length s) = NUM_CHUNKS N ->
  s <> [] /\
  any s = negb (none s) /\
  implb (all N s) (any s) = true /\
  all N s && none s = false.
Proof.
  intros HN Hlen. split.
  { destruct (chunks_live N HN) as [HNC _]. intros ->. cbn [length] in Hlen. lia. }
  pose proof (any_negb_none s) as E.
  destruct (all N s) eqn:Ha; cbn [implb andb].
  - pose proof (all_any N s Ha) as Hany. rewrite Hany in *.
    destruct (none s); [discriminate | repeat split].
  - repeat split. exact E.
Qed.

Lemma any_none_all_witness :
  size_ok 65 /\ Z.of_nat (length [18446744073709551615; 1]) = NUM_CHUNKS 65 /\
  [18446744073709551615; 1] <> [] /\
  any [18446744073709551615; 1] = negb (none [18446744073709551615; 1]) /\
  implb (all 65 [18446744073709551615; 1]) (any [18446744073709551615; 1]) = true /\
  all 65 [18446744073709551615; 1] && none [18446744073709551615; 1] = false.
Proof.
  assert (size_ok 65) as HN by size_ok_lit.
  assert (Z.of_nat (length [18446744073709551615; 1]) = NUM_CHUNKS 65) as Hlen
      by reflexivity.
  split; [exact HN |]. split; [exact Hlen |].
  exact (any_none_all 65 [18446744073709551615; 1] HN Hlen).
Defined.

Lemma ones_64_all x :
  0 <= x < 2 ^ 64 -> (forall j, 0 <= j < 64 -> Z.testbit x j = true) ->
  x = 2 ^ 64 - 1.
Proof.
  intros Hx H. change (2 ^ 64 - 1) with (Z.ones 64).
  apply Z.bits_inj'. intros j Hj. rewrite Z.testbit_ones_nonneg by lia.
  destruct (Z.ltb_spec j 64).
  - apply H. lia.
  - now apply (testbit_above 64).
Qed.

Lemma bit_nth (s : list Z) c j :
  0 <= c -> 0 <= j < 64 -> bit s (64 * c + j) = Z.testbit (nth (Z.to_nat c) s 0) j.
Proof.
  intros Hc Hj. unfold bit.
  replace (64 * c + j) with (j + c * 64) by lia.
  now rewrite Z.div_add, Z.mod_add, Z.div_small, Z.mod_small, Z.add_0_l by lia.
Qed.

Lemma bit_split p : 0 <= p -> p = 64 * (p / 64) + p mod 64 /\ 0 <= p / 64 /\ 0 <= p mod 64 < 64.
Proof.
  intros Hp. pose proof (Z.div_mod p 64 ltac:(lia)).
  pose proof (Z.mod_pos_bound p 64 ltac:(lia)).
  assert (0 <= p / 64) by (apply Z.div_pos; lia). lia.
Qed.

(** The leading words are all-ones exactly when their logical bits are. *)
Lemma full_words_bits (init : list Z) :
  Forall (fun w => 0 <= w < 2 ^ 64) init ->
  (Forall (fun w => w = 2 ^ 64 - 1) init <->
   forall i, 0 <= i < 64 * Z.of_nat (length init) -> bit init i = true).
Proof.
  intros Hr. split.
  - intros Hall i Hi. destruct (bit_split i ltac:(lia)) as (E & Hc & Hj).
    rewrite E, bit_nth by lia.
    assert (Z.to_nat (i / 64) < length init)%nat as Hlt.
    { assert (i / 64 < Z.of_nat (length init)) by (apply Z.div_lt_upper_bound; lia). lia. }
    rewrite List.Forall_forall in Hall.
    rewrite (Hall (nth (Z.to_nat (i / 64)) init 0)) by now apply List.nth_In.
    change (2 ^ 64 - 1) with (Z.ones 64). rewrite Z.testbit_ones_nonneg by lia.
    destruct (Z.ltb_spec (i mod 64) 64); [reflexivity | lia].
  - intros Hbits. apply List.Forall_forall. intros x Hx.
    destruct (List.In_nth init x 0 Hx) as (c & Hc & <-).
    rewrite List.Forall_forall in Hr.
    apply ones_64_all; [apply Hr; now apply List.nth_In |].
    intros j Hj. rewrite <- (Nat2Z.id c), <- bit_nth by lia.
    apply Hbits. lia.
Qed.

Lemma forallb_eqb_Forall v (l : list Z) :
  forallb (fun val => val =? v) l = true <-> Forall (fun w => w = v) l.
Proof.
  rewrite List.forallb_forall, List.Forall_forall.
  split; intros H x Hx; [apply Z.eqb_eq | apply Z.eqb_eq]; now apply H.
Qed.

Lemma all_iff_words N (s : list Z) :
  all N s = true <->
  Forall (fun w => w = Inner_max N) (removelast s) /\ List.last s 0 = LAST_MASK N.
Proof. unfold all. now rewrite andb_true_iff, forallb_eqb_Forall, Z.eqb_eq. Qed.

Lemma last_word_eq_mask N w :
  size_ok N -> word_ok N w = true -> within w (LAST_MASK N) ->
  (w = LAST_MASK N <-> forall j, 0 <= j < live_bits N -> Z.testbit w j = true).
Proof.
  intros HN Hw Hc. split.
  - intros -> j Hj. rewrite (testbit_LAST_MASK N j HN) by lia.
    destruct (Z.ltb_spec j (live_bits N)); [reflexivity | lia].
  - intros H. apply Z.bits_inj'. intros j Hj.
    rewrite (testbit_LAST_MASK N j HN) by lia.
    destruct (Z.ltb_spec j (live_bits N)).
    + apply H. lia.
    + destruct (Z.testbit w j) eqn:E; [| reflexivity].
      apply Hc in E; [| lia]. rewrite (testbit_LAST_MASK N j HN) in E by lia.
      destruct (Z.ltb_spec j (live_bits N)); [lia | discriminate].
Qed.

(** Leading words exist only in a multi-word container, whose words are 64
    bits wide. *)
Lemma init_words_64 N (init : list Z) :
  size_ok N -> Z.of_nat (length init) = NUM_CHUNKS N - 1 ->
  Forall (fun w => word_ok N w = true) init ->
  Forall (fun w => 0 <= w < 2 ^ 64) init /\
  (init <> [] -> Inner_max N = 2 ^ 64 - 1).
Proof.
  intros HN Hlen Hall. destruct init as [| x init].
  - split; [constructor | congruence].
  - assert (64 < N) as Hgt.
    { destruct (chunks_live N HN) as [_ E]. pose proof (live_bits_range N).
      cbn [length] in Hlen. lia. }
    destruct (multi_word N HN Hgt) as [_ HW]. split.
    + eapply Forall_impl; [exact Hall |]. intros w Hw. cbn beta in Hw.
      apply word_ok_iff in Hw. now rewrite HW in Hw.
    + intros _. unfold Inner_max. now rewrite HW.
Qed.

(** On a state in canonical form, [all()] says that every live bit is 1. *)
Lemma all_iff_bits N (s : list Z) :
  size_ok N -> wf N s = true -> canonical N s = true ->
  (all N s = true <-> forall i, 0 <= i < N -> bit s i = true).
Proof.
  intros HN Hwf Hc. rewrite all_iff_words.
  destruct (wf_snoc N s HN Hwf) as (init & w & -> & Hinit & Hall & Hw).
  apply canonical_within in Hc. rewrite List.last_last in *.
  rewrite List.removelast_last.
  destruct (chunks_live N HN) as [_ HNeq]. pose proof (live_bits_range N) as Hlive.
  destruct (init_words_64 N init HN Hinit Hall) as [Hr Hmax].
  rewrite (last_word_eq_mask N w HN Hw Hc).
  assert (Forall (fun w => w = Inner_max N) init
          <-> Forall (fun w => w = 2 ^ 64 - 1) init) as ->.
  { destruct init as [| x init]; [split; constructor |].
    now rewrite Hmax by discriminate. }
  rewrite (full_words_bits init Hr). split.
  - intros [H1 H2] i Hi.
    destruct (Z.lt_ge_cases i (64 * Z.of_nat (length init))) as [Hlt | Hge].
    + rewrite bit_app_l by lia. apply H1. lia.
    + replace i with (64 * Z.of_nat (length init) + (i - 64 * Z.of_nat (length init))) by lia.
      rewrite bit_snoc_last by lia. apply H2. lia.
  - intros H. split.
    + intros i Hi. rewrite <- (bit_app_l init [w]) by lia. apply H. lia.
    + intros j Hj. rewrite <- (bit_snoc_last init w j) by lia. apply H. lia.
Qed.

(** C3. On a state in canonical form, [all()] is true if and only if every
    bit in [0, N) is 1; and [all()] is true exactly when every storage word
    except the last equals the maximum of its type and the last word equals
    [LAST_MASK]. *)
Theorem all_iff N (s : list Z) :
  size_ok N -> wf N s = true -> canonical N s = true ->
  (all N s = true <-> forall i, 0 <= i < N -> bit s i = true) /\
  (all N s = true <->
   Forall (fun w => w = Inner_max N) (removelast s) /\ List.last s 0 = LAST_MASK N).
Proof.
  intros HN Hwf Hc. split.
  - now apply all_iff_bits.
  - apply all_iff_words.
Qed.

Lemma all_iff_witness :
  size_ok 65 /\ wf 65 [18446744073709551615; 1] = true /\
  canonical 65 [18446744073709551615; 1] = true /\
  (all 65 [18446744073709551615; 1] = true
   <-> forall i, 0 <= i < 65 -> bit [18446744073709551615; 1] i = true) /\
  (all 65 [18446744073709551615; 1] = true <->
   Forall (fun w => w = Inner_max 65) (removelast [18446744073709551615; 1])
   /\ List.last [18446744073709551615; 1] 0 = LAST_MASK 65).
Proof.
  assert (size_ok 65) as HN by size_ok_lit.
  assert (wf 65 [18446744073709551615; 1] = true) as Hwf by reflexivity.
  assert (canonical 65 [18446744073709551615; 1] = true) as Hc by reflexivity.
  repeat (split; [assumption |]).
  exact (all_iff 65 [18446744073709551615; 1] HN Hwf Hc).
Defined.

(** ** The single-bit modifiers *)

Lemma last_insert (s : list Z) (c : nat) v :
  (c < length s)%nat ->
  List.last (<[c := v]> s) 0 = if (c =? length s - 1)%nat then v else List.last s 0.
Proof.
  intros Hc. destruct (@exists_last _ s) as (init & w & ->).
  { intros ->. cbn in Hc. lia. }
  rewrite length_app in *. cbn [length] in *.
  rewrite insert_app. destruct (decide (c < length init)%nat) as [Hlt | Hge].
  - rewrite !List.last_last. destruct (Nat.eqb_spec c (length init + 1 - 1)); [lia | reflexivity].
  - replace (c - length init)%nat with 0%nat by lia. cbn [insert list_insert].
    rewrite !List.last_last.
    destruct (Nat.eqb_spec c (length init + 1 - 1)); [reflexivity | lia].
Qed.

Lemma load_ok N (s : list Z) c :
  wf N s = true -> 0 <= c < NUM_CHUNKS N ->
  exists x, load s c = Ok x /\ word_ok N x = true /\
            (c = NUM_CHUNKS N - 1 -> x = List.last s 0).
Proof.
  intros Hwf Hc. apply wf_iff in Hwf. destruct Hwf as [Hlen Hall].
  unfold load. destruct (Z.ltb_spec c 0); [lia |].
  destruct (s !! Z.to_nat c) as [x |] eqn:E.
  - exists x. split; [reflexivity |]. split.
    + rewrite Forall_lookup in Hall. exact (Hall _ _ E).
    + intros Hk. destruct (@exists_last _ s) as (init & w & ->).
      { intros ->. cbn in Hlen. lia. }
      rewrite List.last_last. rewrite length_app in Hlen. cbn [length] in Hlen.
      replace (Z.to_nat c) with (length init) in E by lia.
      rewrite list_lookup_middle in E by reflexivity. congruence.
  - apply lookup_ge_None in E. lia.
Qed.

Lemma store_canonical N (s : list Z) c v :
  wf N s = true -> canonical N s = true -> 0 <= c < NUM_CHUNKS N ->
  word_ok N v = true -> (c = NUM_CHUNKS N - 1 -> within v (LAST_MASK N)) ->
  exists s', store s c v = Ok s' /\ wf N s' = true /\ canonical N s' = true.
Proof.
  intros Hwf Hcan Hc Hv Hlast. apply wf_iff in Hwf. destruct Hwf as [Hlen Hall].
  exists (<[Z.to_nat c := v]> s). unfold store.
  destruct (Z.leb_spec 0 c); [| lia].
  destruct (Z.ltb_spec c (Z.of_nat (length s))); [| lia]. cbn [andb].
  split; [reflexivity |]. split.
  - apply wf_iff. rewrite length_insert. split; [assumption |].
    now apply Forall_insert.
  - apply canonical_within. rewrite last_insert by lia.
    destruct (Nat.eqb_spec (Z.to_nat c) (length s - 1)).
    + apply Hlast. lia.
    + now apply canonical_within.
Qed.

Lemma BITSET_ASSERT_true b : BITSET_ASSERT b true = Ok tt.
Proof. now destruct b. Qed.

Lemma shl_64_one n :
  0 <= n < 64 ->
  exists one, shl 64 1 n = Ok one /\ 0 <= one < 2 ^ 64 /\
              forall j, 0 <= j -> Z.testbit one j = (j =? n).
Proof.
  intros Hn. exists (wrap 64 (Z.shiftl 1 n)). unfold shl.
  destruct (Z.ltb_spec n 64); [| lia]. split; [reflexivity |].
  split; [apply wrap_range; lia |].
  intros j Hj. rewrite wrap_testbit, Z.shiftl_spec by lia.
  destruct (Z.eqb_spec j n) as [-> | Hne].
  - rewrite Z.sub_diag. destruct (Z.ltb_spec n 64); [reflexivity | lia].
  - destruct (Z.lt_ge_cases j n).
    + rewrite Z.testbit_neg_r by lia. apply andb_false_r.
    + rewrite (testbit_above 1 1 (j - n)) by lia. apply andb_false_r.
Qed.

(** Where the bit at [pos < N] lives: chunk and shift are in range, and in
    the final chunk the shift is a live position. *)
Lemma chunk_shift N pos :
  size_ok N -> 0 <= pos < N ->
  0 <= pos / 64 < NUM_CHUNKS N /\ 0 <= pos mod 64 < 64 /\
  (pos / 64 = NUM_CHUNKS N - 1 -> pos mod 64 < live_bits N).
Proof.
  intros HN Hpos. destruct (chunks_live N HN) as [_ E].
  pose proof (live_bits_range N). destruct (bit_split pos ltac:(lia)) as (Ep & Hc & Hs).
  repeat split; lia.
Qed.

Lemma within_reset_last N w one :
  within (Inner_t N (Z.land w (Z.land (size_t (Z.lnot one)) (LAST_MASK N))))
         (LAST_MASK N).
Proof.
  apply within_wrap; [apply Inner_bits_nonneg |].
  intros j Hj. rewrite !Z.land_spec. intros E.
  apply andb_true_iff in E. destruct E as [_ E].
  apply andb_true_iff in E. tauto.
Qed.

Lemma reset_preserves b N (s : list Z) pos :
  size_ok N -> wf N s = true -> canonical N s = true -> 0 <= pos < N ->
  exists s', reset b N s pos = Ok s' /\ wf N s' = true /\ canonical N s' = true.
Proof.
  intros HN Hwf Hc Hpos. unfold reset.
  destruct (Z.ltb_spec pos N); [| lia]. rewrite BITSET_ASSERT_true. cbn [bind].
  destruct (Z.ltb_spec 64 N) as [Hgt | Hle].
  - destruct (chunk_shift N pos HN Hpos) as (Hchunk & Hshift & Hlive).
    destruct (shl_64_one (pos mod 64) Hshift) as (one & -> & _ & Hone). cbn [bind].
    destruct (load_ok N s (pos / 64) Hwf Hchunk) as (x & -> & Hx & Hlast). cbn [bind].
    rewrite (chunks_but_last_eq N HN).
    destruct (Z.eqb_spec (pos / 64) (NUM_CHUNKS N - 1)) as [Ek | Ek].
    + apply store_canonical; try assumption; [apply Inner_t_ok |].
      intros _. apply within_reset_last.
    + apply store_canonical; try assumption; [apply Inner_t_ok | lia].
  - destruct (single_word N HN Hle) as [Hk Hl].
    destruct (shl_64_one pos ltac:(lia)) as (one & -> & _ & Hone). cbn [bind].
    destruct (load_ok N s 0 Hwf ltac:(lia)) as (x & -> & Hx & Hlast). cbn [bind].
    apply store_canonical; try assumption; [lia | apply Inner_t_ok |].
    intros _. apply within_reset_last.
Qed.

Lemma set_preserves b N (s : list Z) pos value :
  size_ok N -> wf N s = true -> canonical N s = true -> 0 <= pos < N ->
  exists s', set b N s pos value = Ok s' /\ wf N s' = true /\ canonical N s' = true.
Proof.
  intros HN Hwf Hc Hpos. unfold set.
  destruct (Z.ltb_spec pos N); [| lia]. rewrite BITSET_ASSERT_true. cbn [bind].
  destruct value; cbn [negb]; [| now apply reset_preserves].
  pose proof (Inner_bits_nonneg N) as HW.
  destruct (Z.ltb_spec 64 N) as [Hgt | Hle].
  - destruct (chunk_shift N pos HN Hpos) as (Hchunk & Hshift & Hlive).
    destruct (shl_64_one (pos mod 64) Hshift) as (one & -> & _ & Hone). cbn [bind].
    destruct (load_ok N s (pos / 64) Hwf Hchunk) as (x & -> & Hx & Hlast). cbn [bind].
    apply store_canonical; try assumption; [apply Inner_t_ok |].
    intros Ek. apply within_wrap; [assumption |].
    intros j Hj. rewrite Z.lor_spec, Hone by lia. intros E.
    apply orb_true_iff in E. destruct E as [E | E].
    + rewrite (Hlast Ek) in E. apply canonical_within in Hc. now apply Hc.
    + apply Z.eqb_eq in E. subst j. rewrite (testbit_LAST_MASK N _ HN) by lia.
      destruct (Z.ltb_spec (pos mod 64) (live_bits N)); [reflexivity | lia].
  - destruct (single_word N HN Hle) as [Hk Hl].
    destruct (shl_64_one pos ltac:(lia)) as (one & -> & _ & Hone). cbn [bind].
    destruct (load_ok N s 0 Hwf ltac:(lia)) as (x & -> & Hx & Hlast). cbn [bind].
    apply store_canonical; try assumption; [lia | apply Inner_t_ok |].
    intros Ek. apply within_wrap; [assumption |].
    intros j Hj. unfold Inner_t. rewrite Z.lor_spec, wrap_testbit, Hone by lia.
    intros E. apply orb_true_iff in E. destruct E as [E | E].
    + rewrite (Hlast ltac:(lia)) in E. apply canonical_within in Hc. now apply Hc.
    + apply andb_true_iff in E. destruct E as [_ E].
      apply Z.eqb_eq in E. subst j. rewrite (testbit_LAST_MASK N _ HN) by lia.
      destruct (Z.ltb_spec pos (live_bits N)); [reflexivity | lia].
Qed.

(** C6. Every mutating operation preserves canonical form: from a state whose
    padding bits are 0, bulk [set()], [set(pos, value)] with [pos < N],
    [flip()], bulk [reset()] and [reset(pos)] with [pos < N] each return, in
    either build, and leave a state whose padding bits are 0. *)
Theorem modifiers_preserve_canonical N (s : list Z) :
  size_ok N -> wf N s = true -> canonical N s = true ->
  (exists s', set_all N s = Ok s' /\ wf N s' = true /\ canonical N s' = true) /\
  (forall b pos value, 0 <= pos < N ->
     exists s', set b N s pos value = Ok s' /\ wf N s' = true /\ canonical N s' = true) /\
  (exists s', flip N s = Ok s' /\ wf N s' = true /\ canonical N s' = true) /\
  (wf N (reset_all s) = true /\ canonical N (reset_all s) = true) /\
  (forall b pos, 0 <= pos < N ->
     exists s', reset b N s pos = Ok s' /\ wf N s' = true /\ canonical N s' = true).
Proof.
  intros HN Hwf Hc.
  assert (Z.of_nat (length s) = NUM_CHUNKS N) as Hlen by (apply wf_iff in Hwf; tauto).
  repeat split.
  - destruct (set_all_canonical N s HN Hlen) as (s' & E & _ & Hc').
    exists s'. repeat split; try assumption. now apply (wf_set_all N s).
  - intros b pos value Hpos. now apply set_preserves.
  - destruct (flip_canonical N s HN Hlen) as (s' & E & _ & Hc').
    exists s'. repeat split; try assumption. now apply (wf_flip N s).
  - now apply wf_reset_all.
  - apply reset_all_canonical.
  - intros b pos Hpos. now apply reset_preserves.
Qed.

Lemma modifiers_preserve_canonical_witness :
  size_ok 70 /\ wf 70 [5; 33] = true /\ canonical 70 [5; 33] = true /\
  (exists s', set_all 70 [5; 33] = Ok s' /\ wf 70 s' = true /\ canonical 70 s' = true) /\
  (exists s', set Debug 70 [5; 33] 69 true = Ok s' /\ wf 70 s' = true
              /\ canonical 70 s' = true) /\
  (exists s', flip 70 [5; 33] = Ok s' /\ wf 70 s' = true /\ canonical 70 s' = true) /\
  (wf 70 (reset_all [5; 33]) = true /\ canonical 70 (reset_all [5; 33]) = true) /\
  (exists s', reset Release 70 [5; 33] 69 = Ok s' /\ wf 70 s' = true
              /\ canonical 70 s' = true).
Proof.
  assert (size_ok 70) as HN by size_ok_lit.
  assert (wf 70 [5; 33] = true) as Hwf by reflexivity.
  assert (canonical 70 [5; 33] = true) as Hc by reflexivity.
  repeat (split; [assumption |]).
  destruct (modifiers_preserve_canonical 70 [5; 33] HN Hwf Hc)
    as (H1 & H2 & H3 & H4 & H5).
  split; [exact H1 |]. split; [apply H2; lia |]. split; [exact H3 |].
  split; [exact H4 |]. apply H5; lia.
Defined.

(** ** The functions of <bit> *)

Lemma countr_zero_aux_spec fuel x :
  0 <= Std.countr_zero_aux fuel x <= Z.of_nat fuel /\
  (forall j, 0 <= j < Std.countr_zero_aux fuel x -> Z.testbit x j = false) /\
  (Std.countr_zero_aux fuel x < Z.of_nat fuel ->
   Z.testbit x (Std.countr_zero_aux fuel x) = true).
Proof.
  revert x. induction fuel as [| fuel IH]; intros x.
  - cbn [Std.countr_zero_aux]. repeat split; lia.
  - cbn [Std.countr_zero_aux]. destruct (Z.odd x) eqn:Hodd.
    + repeat split; try lia. intros _. now rewrite Z.bit0_odd.
    + destruct (IH (Z.div2 x)) as (Hr & Hlow & Hhit). repeat split; try lia.
      * intros j Hj. destruct (Z.eq_dec j 0) as [-> | Hne].
        -- now rewrite Z.bit0_odd.
        -- replace j with (Z.succ (j - 1)) by lia.
           rewrite <- Z.div2_bits, <- Z.div2_div by lia. apply Hlow. lia.
      * intros Hlt.
        replace (1 + Std.countr_zero_aux fuel (Z.div2 x))
          with (Z.succ (Std.countr_zero_aux fuel (Z.div2 x))) by lia.
        rewrite <- Z.div2_bits, <- Z.div2_div by lia. apply Hhit. lia.
Qed.

Lemma countr_one_aux_spec fuel x :
  0 <= Std.countr_one_aux fuel x <= Z.of_nat fuel /\
  (forall j, 0 <= j < Std.countr_one_aux fuel x -> Z.testbit x j = true) /\
  (Std.countr_one_aux fuel x < Z.of_nat fuel ->
   Z.testbit x (Std.countr_one_aux fuel x) = false).
Proof.
  revert x. induction fuel as [| fuel IH]; intros x.
  - cbn [Std.countr_one_aux]. repeat split; lia.
  - cbn [Std.countr_one_aux]. destruct (Z.odd x) eqn:Hodd.
    + destruct (IH (Z.div2 x)) as (Hr & Hlow & Hhit). repeat split; try lia.
      * intros j Hj. destruct (Z.eq_dec j 0) as [-> | Hne].
        -- now rewrite Z.bit0_odd.
        -- replace j with (Z.succ (j - 1)) by lia.
           rewrite <- Z.div2_bits, <- Z.div2_div by lia. apply Hlow. lia.
      * intros Hlt.
        replace (1 + Std.countr_one_aux fuel (Z.div2 x))
          with (Z.succ (Std.countr_one_aux fuel (Z.div2 x))) by lia.
        rewrite <- Z.div2_bits, <- Z.div2_div by lia. apply Hhit. lia.
    + repeat split; try lia. intros _. now rewrite Z.bit0_odd.
Qed.

Lemma countr_zero_counts w : 0 <= w -> counts_run w false (Std.countr_zero w).
Proof.
  intros Hw x. unfold Std.countr_zero.
  pose proof (countr_zero_aux_spec (Z.to_nat w) x) as H.
  rewrite Z2Nat.id in H by lia. exact H.
Qed.

Lemma countr_one_counts w : 0 <= w -> counts_run w true (Std.countr_one w).
Proof.
  intros Hw x. unfold Std.countr_one.
  pose proof (countr_one_aux_spec (Z.to_nat w) x) as H.
  rewrite Z2Nat.id in H by lia. exact H.
Qed.

(** ** The scan [first_func_impl] *)

Lemma bit_cons w (l : list Z) j :
  0 <= j -> bit (w :: l) j = if j <? 64 then Z.testbit w j else bit l (j - 64).
Proof.
  intros Hj. unfold bit. destruct (Z.ltb_spec j 64).
  - now rewrite Z.div_small, Z.mod_small by lia.
  - replace j with ((j - 64) + 1 * 64) at 1 2 by lia.
    rewrite Z.div_add, Z.mod_add by lia.
    assert (0 <= (j - 64) / 64) by (apply Z.div_pos; lia).
    replace (Z.to_nat ((j - 64) / 64 + 1)) with (S (Z.to_nat ((j - 64) / 64))) by lia.
    reflexivity.
Qed.

Lemma none_bits (s : list Z) : none s = true -> forall j, bit s j = false.
Proof.
  unfold none. intros H j. unfold bit.
  rewrite List.forallb_forall in H.
  destruct (List.nth_in_or_default (Z.to_nat (j / 64)) s 0) as [Hin | ->].
  - apply H in Hin. apply Z.eqb_eq in Hin. rewrite Hin. apply Z.testbit_0_l.
  - apply Z.testbit_0_l.
Qed.

Section Scan.

Variable N : Z.
Variable b : bool.
Variable cnt : Z -> Z.
Hypothesis cnt_run : counts_run (Inner_bits N) b cnt.

Lemma cnt_size_t x : size_t (cnt x) = cnt x.
Proof.
  destruct (cnt_run x) as (Hr & _). pose proof (Inner_bits_le N).
  apply size_t_small. rewrite pow2_64. lia.
Qed.

(** The loop on words of 64 bits, entered at position [p]. *)
Lemma scan_loop_64 (l : list Z) :
  Inner_bits N = 64 ->
  forall p, 0 <= p -> p + 64 * Z.of_nat (length l) < 2 ^ 64 ->
  (first_func_loop cnt N l p = N /\
   forall j, 0 <= j < 64 * Z.of_nat (length l) -> bit l j = b) \/
  (exists k, first_func_loop cnt N l p = p + k /\
             0 <= k < 64 * Z.of_nat (length l) /\ bit l k = negb b /\
             forall j, 0 <= j < k -> bit l j = b).
Proof.
  intros HW. induction l as [| w l IH]; intros p Hp Hbound.
  - left. cbn. split; [reflexivity | intros j Hj; lia].
  - cbn [first_func_loop length]. rewrite cnt_size_t.
    destruct (cnt_run w) as (Hr & Hlow & Hhit). rewrite HW in Hr, Hhit |- *.
    cbn [length] in Hbound. rewrite Nat2Z.inj_succ in Hbound |- *.
    rewrite (size_t_small (p + cnt w)) by lia.
    destruct (Z.eqb_spec (cnt w) 64) as [E | E]; cbn [negb].
    + destruct (IH (p + cnt w) ltac:(lia) ltac:(lia)) as [[Hres Hall] | (k & Hres & Hk & Hbit & Hbelow)].
      * left. split; [exact Hres |]. intros j Hj. rewrite bit_cons by lia.
        destruct (Z.ltb_spec j 64); [apply Hlow; lia | apply Hall; lia].
      * right. exists (64 + k). split; [lia |]. split; [lia |]. split.
        -- rewrite bit_cons by lia. destruct (Z.ltb_spec (64 + k) 64); [lia |].
           now replace (64 + k - 64) with k by lia.
        -- intros j Hj. rewrite bit_cons by lia.
           destruct (Z.ltb_spec j 64); [apply Hlow; lia | apply Hbelow; lia].
    + right. exists (cnt w). split; [reflexivity |]. split; [lia |]. split.
      * rewrite bit_cons by lia. destruct (Z.ltb_spec (cnt w) 64); [| lia].
        apply Hhit. lia.
      * intros j Hj. rewrite bit_cons by lia.
        destruct (Z.ltb_spec j 64); [apply Hlow; lia | lia].
Qed.

(** The scan on a well-formed state: either every word is one full run,
    and the result is [N], or the result is the position of the first bit
    that differs from [b]. *)
Lemma scan_spec (s : list Z) :
  size_ok N -> Z.of_nat (length s) = NUM_CHUNKS N ->
  (first_func_impl cnt N s = N /\
   forall j, 0 <= j < Inner_bits N * NUM_CHUNKS N -> bit s j = b) \/
  (exists k, first_func_impl cnt N s = k /\
             0 <= k < Inner_bits N * NUM_CHUNKS N /\ bit s k = negb b /\
             forall j, 0 <= j < k -> bit s j = b).
Proof.
  intros HN Hlen. unfold first_func_impl.
  destruct (chunks_live N HN) as [HNC HNeq]. pose proof (live_bits_range N) as Hlive.
  destruct (Z.le_gt_cases N 64) as [Hle | Hgt].
  - destruct (single_word N HN Hle) as [Hk _]. rewrite Hk in *.
    destruct s as [| w [| w' s]]; cbn [length] in Hlen; try lia.
    cbn [first_func_loop]. rewrite cnt_size_t.
    destruct (cnt_run w) as (Hr & Hlow & Hhit). pose proof (Inner_bits_le N) as H64.
    rewrite (size_t_small (0 + cnt w)) by (rewrite pow2_64; lia).
    destruct (Z.eqb_spec (cnt w) (Inner_bits N)) as [E | E]; cbn [negb].
    + left. split; [reflexivity |]. intros j Hj. rewrite bit_cons by lia.
      destruct (Z.ltb_spec j 64); [apply Hlow; lia | lia].
    + right. exists (cnt w). split; [lia |]. split; [lia |]. split.
      * rewrite bit_cons by lia. destruct (Z.ltb_spec (cnt w) 64); [| lia].
        apply Hhit. lia.
      * intros j Hj. rewrite bit_cons by lia.
        destruct (Z.ltb_spec j 64); [apply Hlow; lia | lia].
  - destruct (multi_word N HN ltac:(lia)) as [_ HW]. rewrite HW.
    destruct HN as [HN0 HN1].
    destruct (scan_loop_64 s HW 0 ltac:(lia) ltac:(lia)) as [H | H].
    + left. now rewrite <- Hlen.
    + right. now rewrite <- Hlen.
Qed.

(** The loop as the specification tells it: words that are one full run
    are passed over, their run lengths accumulated, and the first word with
    a shorter run ends the scan at the accumulated position. *)
Lemma scan_loop_accumulates (pre : list Z) w rest :
  Forall (fun x => cnt x = Inner_bits N) pre -> cnt w <> Inner_bits N ->
  forall p, 0 <= p -> p + 64 * (Z.of_nat (length pre) + 1) < 2 ^ 64 ->
  first_func_loop cnt N (pre ++ w :: rest) p = p + run_sum cnt (pre ++ [w]).
Proof.
  intros Hpre Hw. pose proof (Inner_bits_le N) as H64.
  induction Hpre as [| x pre Hx Hpre IH]; intros p Hp Hbound.
  - cbn [app first_func_loop run_sum fold_right]. rewrite cnt_size_t.
    destruct (cnt_run w) as (Hr & _).
    cbn [length] in Hbound.
    rewrite size_t_small by lia.
    destruct (Z.eqb_spec (cnt w) (Inner_bits N)); [contradiction |]. cbn [negb]. lia.
  - cbn [app first_func_loop]. rewrite cnt_size_t.
    destruct (cnt_run x) as (Hr & _).
    cbn [length] in Hbound. rewrite Nat2Z.inj_succ in Hbound.
    rewrite size_t_small by lia.
    destruct (Z.eqb_spec (cnt x) (Inner_bits N)); [| contradiction]. cbn [negb].
    rewrite IH by lia. cbn [app run_sum fold_right]. unfold run_sum. lia.
Qed.

Lemma scan_loop_exhausted (l : list Z) :
  Forall (fun x => cnt x = Inner_bits N) l ->
  forall p, first_func_loop cnt N l p = N.
Proof.
  induction 1 as [| x l Hx Hl IH]; intros p; [reflexivity |].
  cbn [first_func_loop]. rewrite cnt_size_t.
  destruct (Z.eqb_spec (cnt x) (Inner_bits N)); [| contradiction]. apply IH.
Qed.

Lemma scan_accumulates (s : list Z) :
  size_ok N -> Z.of_nat (length s) = NUM_CHUNKS N ->
  (forall pre w rest,
      s = pre ++ w :: rest ->
      Forall (fun x => cnt x = Inner_bits N) pre -> cnt w <> Inner_bits N ->
      first_func_impl cnt N s = run_sum cnt (pre ++ [w])) /\
  (Forall (fun x => cnt x = Inner_bits N) s -> first_func_impl cnt N s = N).
Proof.
  intros HN Hlen. split.
  - intros pre w rest -> Hpre Hw. unfold first_func_impl.
    rewrite scan_loop_accumulates; try assumption; [lia | lia |].
    rewrite length_app in Hlen. cbn [length] in Hlen.
    rewrite (NUM_CHUNKS_eq N HN) in Hlen. destruct HN as [HN0 HN1].
    pose proof (Z.mul_div_le (N + 63) 64 ltac:(lia)). lia.
  - intros Hall. now apply scan_loop_exhausted.
Qed.

End Scan.

Lemma capacity_ge N : size_ok N -> N <= Inner_bits N * NUM_CHUNKS N.
Proof.
  intros HN. destruct (Z.le_gt_cases N 64) as [Hle | Hgt].
  - destruct (single_word N HN Hle) as [-> _]. pose proof (Inner_bits_ge N Hle). lia.
  - destruct (multi_word N HN ltac:(lia)) as [_ ->].
    destruct (chunks_live N HN) as [_ E]. pose proof (live_bits_range N). lia.
Qed.

Lemma bits_none N (s : list Z) :
  wf N s = true -> (forall j, 0 <= j -> bit s j = false) -> none s = true.
Proof.
  intros Hwf H. apply wf_iff in Hwf. destruct Hwf as [_ Hall].
  unfold none. apply List.forallb_forall. intros x Hx. apply Z.eqb_eq.
  rewrite List.Forall_forall in Hall. pose proof (Hall x Hx) as Hr.
  apply word_ok_iff in Hr. pose proof (Inner_bits_le N) as H64.
  destruct (List.In_nth s x 0 Hx) as (c & Hc & <-).
  apply Z.bits_inj'. intros j Hj. rewrite Z.testbit_0_l.
  destruct (Z.lt_ge_cases j 64).
  - rewrite <- (Nat2Z.id c), <- bit_nth by lia. apply H. lia.
  - apply (testbit_above (Inner_bits N)); lia.
Qed.

(** C4. On a state in canonical form, [first_one()] returns the lowest index
    in [0, N) whose bit is 1: the result [r] is at most [N], every bit below
    [r] is 0, and when [r < N] the bit at [r] is 1; it returns the sentinel
    [N] when [none()] holds (and only then).  The result is the scan of the
    storage words from the least significant: when the words before some
    word all have a trailing-zero run of the full word width and that word
    has a shorter one, the result is the sum of these run lengths; when
    every word has a full run the result is [N]. *)
Theorem first_one_spec N (s : list Z) :
  size_ok N -> wf N s = true -> canonical N s = true ->
  0 <= first_one N s <= N /\
  (forall j, 0 <= j < first_one N s -> bit s j = false) /\
  (first_one N s < N -> bit s (first_one N s) = true) /\
  (none s = true <-> first_one N s = N) /\
  (forall pre w rest,
      s = pre ++ w :: rest ->
      Forall (fun x => Std.countr_zero (Inner_bits N) x = Inner_bits N) pre ->
      Std.countr_zero (Inner_bits N) w <> Inner_bits N ->
      first_one N s = run_sum (Std.countr_zero (Inner_bits N)) (pre ++ [w])) /\
  (Forall (fun x => Std.countr_zero (Inner_bits N) x = Inner_bits N) s ->
   first_one N s = N).
Proof.
  intros HN Hwf Hc.
  assert (Z.of_nat (length s) = NUM_CHUNKS N) as Hlen by (apply wf_iff in Hwf; tauto).
  pose proof (countr_zero_counts (Inner_bits N) (Inner_bits_nonneg N)) as Hrun.
  pose proof (capacity_ge N HN) as Hcap.
  pose proof (canonical_padding N s HN Hlen Hc) as Hpad.
  assert (0 <= first_one N s <= N /\
          (forall j, 0 <= j < first_one N s -> bit s j = false) /\
          (first_one N s < N -> bit s (first_one N s) = true)) as (Hr & Hlow & Hhit).
  { unfold first_one.
    destruct (scan_spec N false _ Hrun s HN Hlen)
      as [[-> Hall] | (k & -> & Hk & Hbit & Hbelow)].
    - destruct HN as [HN0 _]. repeat split; try lia. intros j Hj. apply Hall. lia.
    - assert (k < N) as HkN.
      { destruct (Z.lt_ge_cases k N) as [Hlt | Hge]; [assumption |].
        rewrite (Hpad k Hge) in Hbit. discriminate. }
      repeat split; try lia; [exact Hbelow | intros _; exact Hbit]. }
  split; [exact Hr |]. split; [exact Hlow |]. split; [exact Hhit |]. split.
  - split.
    + intros Hnone. destruct (Z.eq_dec (first_one N s) N) as [E | E]; [exact E |].
      rewrite (none_bits s Hnone) in Hhit. specialize (Hhit ltac:(lia)). discriminate.
    + intros E. apply (bits_none N s Hwf). intros j Hj.
      destruct (Z.lt_ge_cases j N); [apply Hlow; lia | now apply Hpad].
  - unfold first_one. exact (scan_accumulates N false _ Hrun s HN Hlen).
Qed.

Lemma first_one_spec_witness :
  size_ok 129 /\ wf 129 [0; 0; 1] = true /\ canonical 129 [0; 0; 1] = true /\
  0 <= first_one 129 [0; 0; 1] <= 129 /\
  (forall j, 0 <= j < first_one 129 [0; 0; 1] -> bit [0; 0; 1] j = false) /\
  (first_one 129 [0; 0; 1] < 129 -> bit [0; 0; 1] (first_one 129 [0; 0; 1]) = true) /\
  first_one 129 [0; 0; 1] = run_sum (Std.countr_zero (Inner_bits 129)) ([0; 0] ++ [1]).
Proof.
  assert (size_ok 129) as HN by size_ok_lit.
  assert (wf 129 [0; 0; 1] = true) as Hwf by reflexivity.
  assert (canonical 129 [0; 0; 1] = true) as Hc by reflexivity.
  repeat (split; [assumption |]).
  destruct (first_one_spec 129 [0; 0; 1] HN Hwf Hc) as (H1 & H2 & H3 & _ & H5 & _).
  split; [exact H1 |]. split; [exact H2 |]. split; [exact H3 |].
  apply (H5 [0; 0] 1 []).
  - reflexivity.
  - repeat constructor.
  - vm_compute. discriminate.
Defined.

(** C5. On a state in canonical form, [first_zero()] returns the lowest index
    in [0, N) whose bit is 0: the result [r] is at most [N], every bit below
    [r] is 1, and when [r < N] the bit at [r] is 0; it returns exactly [N]
    when all live bits are 1, so on an all-one container it returns [N], and
    on an all-zero container it returns 0. *)
Theorem first_zero_spec N (s : list Z) :
  size_ok N -> wf N s = true -> canonical N s = true ->
  0 <= first_zero N s <= N /\
  (forall j, 0 <= j < first_zero N s -> bit s j = true) /\
  (first_zero N s < N -> bit s (first_zero N s) = false) /\
  ((forall i, 0 <= i < N -> bit s i = true) <-> first_zero N s = N) /\
  (all N s = true -> first_zero N s = N) /\
  (none s = true -> first_zero N s = 0).
Proof.
  intros HN Hwf Hc.
  assert (Z.of_nat (length s) = NUM_CHUNKS N) as Hlen by (apply wf_iff in Hwf; tauto).
  pose proof (countr_one_counts (Inner_bits N) (Inner_bits_nonneg N)) as Hrun.
  pose proof (capacity_ge N HN) as Hcap.
  pose proof (canonical_padding N s HN Hlen Hc) as Hpad.
  assert (0 <= first_zero N s <= N /\
          (forall j, 0 <= j < first_zero N s -> bit s j = true) /\
          (first_zero N s < N -> bit s (first_zero N s) = false)) as (Hr & Hlow & Hhit).
  { unfold first_zero.
    destruct (scan_spec N true _ Hrun s HN Hlen)
      as [[-> Hall] | (k & -> & Hk & Hbit & Hbelow)].
    - destruct HN as [HN0 _]. repeat split; try lia. intros j Hj. apply Hall. lia.
    - assert (k <= N) as HkN.
      { destruct (Z.le_gt_cases k N) as [Hle | Hgt]; [assumption |].
        destruct HN as [HN0 _].
        specialize (Hbelow N ltac:(lia)). rewrite (Hpad N ltac:(lia)) in Hbelow.
        discriminate. }
      repeat split; try lia; [exact Hbelow | intros _; exact Hbit]. }
  assert ((forall i, 0 <= i < N -> bit s i = true) -> first_zero N s = N) as Hfull.
  { intros Hall. destruct (Z.eq_dec (first_zero N s) N) as [E | E]; [exact E |].
    specialize (Hhit ltac:(lia)). rewrite Hall in Hhit by lia. discriminate. }
  split; [exact Hr |]. split; [exact Hlow |]. split; [exact Hhit |]. split; [| split].
  - split; [exact Hfull |]. intros E i Hi. apply Hlow. lia.
  - intros Hall. apply Hfull. now apply (all_iff_bits N s HN Hwf Hc).
  - intros Hnone. destruct (Z.eq_dec (first_zero N s) 0) as [E | E]; [exact E |].
    specialize (Hlow 0 ltac:(lia)). rewrite (none_bits s Hnone) in Hlow. discriminate.
Qed.

Lemma first_zero_spec_witness :
  size_ok 65 /\ wf 65 [18446744073709551615; 1] = true /\
  canonical 65 [18446744073709551615; 1] = true /\
  0 <= first_zero 65 [18446744073709551615; 1] <= 65 /\
  (forall j, 0 <= j < first_zero 65 [18446744073709551615; 1] ->
             bit [18446744073709551615; 1] j = true) /\
  first_zero 65 [18446744073709551615; 1] = 65.
Proof.
  assert (size_ok 65) as HN by size_ok_lit.
  assert (wf 65 [18446744073709551615; 1] = true) as Hwf by reflexivity.
  assert (canonical 65 [18446744073709551615; 1] = true) as Hc by reflexivity.
  repeat (split; [assumption |]).
  destruct (first_zero_spec 65 [18446744073709551615; 1] HN Hwf Hc)
    as (H1 & H2 & _ & _ & H5 & _).
  split; [exact H1 |]. split; [exact H2 |]. apply H5. reflexivity.
Defined.

(** ** Indexed access *)

Lemma to_bool_land_1 v : to_bool (Z.land v 1) = Z.testbit v 0.
Proof.
  unfold to_bool. change 1 with (Z.ones 1) at 1. rewrite Z.land_ones by lia.
  rewrite Z.bit0_eqb. change (2 ^ 1) with 2.
  pose proof (Z.mod_pos_bound v 2 ltac:(lia)).
  destruct (Z.eqb_spec (v mod 2) 0), (Z.eqb_spec (v mod 2) 1); cbn; lia || reflexivity.
Qed.

Lemma to_bool_shiftr w n :
  0 <= w -> 0 <= n ->
  (to_bool (Z.shiftr w n) = true <-> exists j, n <= j /\ Z.testbit w j = true).
Proof.
  intros Hw Hn. unfold to_bool. rewrite negb_true_iff, Z.eqb_neq. split.
  - intros Hne. pose proof (proj2 (Z.shiftr_nonneg w n) Hw) as Hge.
    exists (Z.log2 (Z.shiftr w n) + n). split; [pose proof (Z.log2_nonneg (Z.shiftr w n)); lia |].
    rewrite <- Z.shiftr_spec by apply Z.log2_nonneg. apply Z.bit_log2. lia.
  - intros (j & Hj & Hbit) E.
    assert (Z.testbit (Z.shiftr w n) (j - n) = true) as Hb.
    { rewrite Z.shiftr_spec by lia. now replace (j - n + n) with j by lia. }
    rewrite E, Z.testbit_0_l in Hb. discriminate.
Qed.

(** In a single-word container, [operator[]] and [test] return the bit at
    [pos]. *)
Lemma index_single_word b N (s : list Z) pos :
  size_ok N -> N <= 64 -> wf N s = true -> 0 <= pos < N ->
  index b N s pos = Ok (bit s pos) /\ test b N s pos = Ok (bit s pos).
Proof.
  intros HN Hle Hwf Hpos. unfold test.
  assert (index b N s pos = Ok (bit s pos)) as E; [| now split].
  unfold index.
  destruct (Z.ltb_spec pos N); [| lia]. rewrite BITSET_ASSERT_true. cbn [bind].
  destruct (Z.ltb_spec 64 N); [lia |].
  destruct (single_word N HN Hle) as [Hk _].
  destruct (load_ok N s 0 Hwf ltac:(lia)) as (x & Hload & Hx & _).
  rewrite Hload. cbn [bind]. unfold shr, promoted_bits.
  pose proof (Inner_bits_ge N Hle).
  destruct (Z.ltb_spec pos (if Inner_bits N <? 32 then 32 else Inner_bits N)) as [_ | Hbad].
  2:{ destruct (Z.ltb_spec (Inner_bits N) 32); lia. }
  cbn [bind]. rewrite to_bool_land_1, Z.shiftr_spec by lia.
  unfold bit. rewrite Z.div_small, Z.mod_small, Z.add_0_l by lia.
  unfold load in Hload. destruct s as [| y s]; cbn in Hload; [discriminate |].
  injection Hload as ->. reflexivity.
Qed.

(** In a multi-word container, [operator[]] converts the whole shifted chunk
    to [bool]: it returns true exactly when the chunk of [pos] has a 1 bit at
    the shift of [pos] or above it. *)
Lemma index_multi_word b N (s : list Z) pos :
  size_ok N -> 64 < N -> wf N s = true -> 0 <= pos < N ->
  exists r, index b N s pos = Ok r /\
    (r = true <-> exists q, pos <= q < 64 * (pos / 64 + 1) /\ bit s q = true).
Proof.
  intros HN Hgt Hwf Hpos. unfold index.
  destruct (Z.ltb_spec pos N); [| lia]. rewrite BITSET_ASSERT_true. cbn [bind].
  destruct (Z.ltb_spec 64 N); [| lia].
  destruct (chunk_shift N pos HN Hpos) as (Hchunk & Hshift & _).
  destruct (load_ok N s (pos / 64) Hwf Hchunk) as (x & Hload & Hx & _).
  rewrite Hload. cbn [bind]. unfold shr. destruct (Z.ltb_spec (pos mod 64) 64); [| lia].
  cbn [bind]. eexists. split; [reflexivity |].
  apply word_ok_iff in Hx. destruct (multi_word N HN Hgt) as [_ HW]. rewrite HW in Hx.
  assert (x = nth (Z.to_nat (pos / 64)) s 0) as Ex.
  { unfold load in Hload. destruct (Z.ltb_spec (pos / 64) 0); [lia |].
    destruct (s !! Z.to_nat (pos / 64)) as [y |] eqn:E; [| discriminate].
    injection Hload as ->. symmetry. now apply nth_lookup_Some with (d := 0) in E. }
  destruct (bit_split pos ltac:(lia)) as (Ep & _ & _).
  rewrite to_bool_shiftr by lia. split.
  - intros (j & Hj & Hbit).
    assert (j < 64).
    { destruct (Z.lt_ge_cases j 64); [assumption |].
      rewrite (testbit_above 64 x j) in Hbit by lia. discriminate. }
    exists (64 * (pos / 64) + j). split; [lia |].
    rewrite bit_nth by lia. now rewrite <- Ex.
  - intros (q & Hq & Hbit). exists (q - 64 * (pos / 64)). split; [lia |].
    replace q with (64 * (pos / 64) + (q - 64 * (pos / 64))) in Hbit by lia.
    rewrite bit_nth in Hbit by lia. now rewrite Ex.
Qed.

(** C1 (the code departs from it when [N > 64]). [test(pos)] and
    [operator[](pos)] are to return the single bit at index [pos].  In a
    [BitSet<65>] that was default-constructed and then had bit 1 set, the
    storage is [{2, 0}] and bit 0 is clear, yet both accessors return true at
    [pos = 0], in either build: the multi-word branch converts
    [m_storage[chunk] >> shift] to [bool] without masking it with [1]. *)
Theorem index_multi_word_reads_higher_bit (b : build) :
  set b 65 (BitSet_default 65) 1 true = Ok [2; 0] /\
  wf 65 [2; 0] = true /\ canonical 65 [2; 0] = true /\
  bit [2; 0] 0 = false /\
  index b 65 [2; 0] 0 = Ok true /\ test b 65 [2; 0] 0 = Ok true.
Proof. destruct b; repeat split; vm_compute; reflexivity. Qed.

(** C2 (the code departs from it when [N > 64]). After [reset()] and
    [set(pos)], [test(pos)] is to be true, [count()] 1 and every other index
    is to test false.  In a [BitSet<65>], after [reset()] and [set(1)],
    [test(1)] is true and [count()] is 1, but [test(0)] is true as well. *)
Theorem reset_set_test_lower_index (b : build) :
  exists s',
    set b 65 (reset_all [7; 1]) 1 true = Ok s' /\
    test b 65 s' 1 = Ok true /\ count s' = 1 /\
    bit s' 0 = false /\ test b 65 s' 0 = Ok true.
Proof. exists [2; 0]. destruct b; repeat split; vm_compute; reflexivity. Qed.

(** ** Construction from raw storage *)

Lemma lt_pow2_iff_bits x n :
  0 <= x -> 0 <= n ->
  (x < 2 ^ n <-> forall j, n <= j -> Z.testbit x j = false).
Proof.
  intros Hx Hn. split.
  - intros Hlt j Hj. apply (testbit_above n); lia.
  - intros H. destruct (Z.lt_ge_cases x (2 ^ n)) as [Hlt | Hge]; [assumption |].
    assert (0 < x) as Hpos by (pose proof (Z.pow_pos_nonneg 2 n ltac:(lia) Hn); lia).
    assert (n <= Z.log2 x) as Hlog by (apply Z.log2_le_pow2; assumption).
    pose proof (Z.bit_log2 x Hpos) as Hb. rewrite (H (Z.log2 x) Hlog) in Hb. discriminate.
Qed.

Lemma bit_width_le x n :
  0 <= x -> 0 <= n -> (Std.bit_width x <= n <-> x < 2 ^ n).
Proof.
  intros Hx Hn. destruct x as [| p | p]; cbn [Std.bit_width].
  - pose proof (Z.pow_pos_nonneg 2 n ltac:(lia) Hn). lia.
  - rewrite (Z.log2_lt_pow2 (Z.pos p) n) by lia. lia.
  - lia.
Qed.

Lemma bit_width_range N x :
  word_ok N x = true -> 0 <= Std.bit_width x <= 64.
Proof.
  intros Hx. apply word_ok_iff in Hx. pose proof (Inner_bits_le N) as H64.
  assert (x < 2 ^ 64).
  { pose proof (Z.pow_le_mono_r 2 (Inner_bits N) 64 ltac:(lia) H64). lia. }
  split.
  - destruct x; cbn [Std.bit_width]; try lia. pose proof (Z.log2_nonneg (Z.pos p)). lia.
  - apply bit_width_le; lia.
Qed.

(** The single-word constructor checks its contract exactly. *)
Lemma BitSet_of_word_assert N x :
  size_ok N -> N <= 64 -> word_ok N x = true ->
  (BitSet_of_word Debug N x = AssertionFailed
   <-> exists j, N <= j /\ Z.testbit x j = true) /\
  ((forall j, N <= j -> Z.testbit x j = false) ->
   BitSet_of_word Debug N x = Ok [x]).
Proof.
  intros HN Hle Hx. pose proof (bit_width_range N x Hx) as Hbw.
  apply word_ok_iff in Hx. destruct HN as [HN0 HN1].
  unfold BitSet_of_word, BITSET_ASSERT.
  rewrite size_t_small by (rewrite pow2_64; lia).
  pose proof (bit_width_le x N ltac:(lia) ltac:(lia)) as Hw.
  pose proof (lt_pow2_iff_bits x N ltac:(lia) ltac:(lia)) as Hb.
  destruct (Z.leb_spec (Std.bit_width x) N) as [H | H]; cbn [bind].
  - split; [| reflexivity]. split; [discriminate |].
    intros (j & Hj & E). apply Hw in H. rewrite (proj1 Hb H j Hj) in E. discriminate.
  - split.
    + split; [| reflexivity]. intros _.
      assert (2 ^ N <= x) as Hge by lia.
      assert (0 < x) as Hpos by (pose proof (Z.pow_pos_nonneg 2 N ltac:(lia) ltac:(lia)); lia).
      exists (Z.log2 x). split; [now apply Z.log2_le_pow2 | now apply Z.bit_log2].
    + intros Hno. apply Hb in Hno. lia.
Qed.

(** The array constructor accepts every storage in canonical form. *)
Lemma BitSet_of_array_canonical b N (s : list Z) :
  size_ok N -> wf N s = true -> canonical N s = true ->
  BitSet_of_array b N s = Ok s.
Proof.
  intros HN Hwf Hc. unfold BitSet_of_array.
  destruct (chunks_live N HN) as [HNC _]. rewrite (chunks_but_last_eq N HN).
  destruct (load_ok N s (NUM_CHUNKS N - 1) Hwf ltac:(lia)) as (w & -> & Hw & Hlast).
  cbn [bind]. specialize (Hlast eq_refl). subst w.
  pose proof (bit_width_range N _ Hw) as Hbw. apply word_ok_iff in Hw.
  apply canonical_within in Hc. pose proof (live_bits_range N) as Hlive.
  assert (List.last s 0 < 2 ^ live_bits N) as Hlt.
  { apply lt_pow2_iff_bits; try lia. intros j Hj.
    destruct (Z.testbit (List.last s 0) j) eqn:E; [| reflexivity].
    apply Hc in E; [| lia]. rewrite (testbit_LAST_MASK N j HN) in E by lia.
    destruct (Z.ltb_spec j (live_bits N)); [lia | discriminate]. }
  apply bit_width_le in Hlt; try lia.
  rewrite size_t_small by (rewrite pow2_64; lia).
  rewrite (LAST_MASK_ones N HN), Z.ones_equiv.
  pose proof (Z.pow_gt_lin_r 2 (live_bits N) ltac:(lia) ltac:(lia)).
  destruct (Z.leb_spec (Std.bit_width (List.last s 0)) (Z.pred (2 ^ live_bits N))); [| lia].
  now rewrite BITSET_ASSERT_true.
Qed.

(** C7 (the code departs from it when [N > 64]). In a debug build the
    constructor from raw storage is to fail its assertion exactly when the
    supplied value has a 1 bit at a position [>= N].  For [BitSet<66>] and
    the words [{0, 4}], bit 66 is set, yet the assertion passes and the
    object is constructed: the array constructor compares the bit width of
    the final word ([3]) with [LAST_MASK] ([3]) instead of with the number of
    live bits ([2]). *)
Theorem BitSet_of_array_assert_misses :
  bit [0; 4] 66 = true /\ canonical 66 [0; 4] = false /\
  Std.bit_width 4 = 3 /\ LAST_MASK 66 = 3 /\ live_bits 66 = 2 /\
  BitSet_of_array Debug 66 [0; 4] = Ok [0; 4].
Proof. repeat split; vm_compute; reflexivity. Qed.

(** ** [reset()] followed by [set(pos)] *)

Lemma popcount_pow2 k : 0 <= k -> Std.popcount (2 ^ k) = 1.
Proof.
  intros Hk. pattern k. apply natlike_ind; [reflexivity | | exact Hk].
  intros n Hn IH. rewrite Z.pow_succ_r by lia.
  pose proof (Z.pow_pos_nonneg 2 n ltac:(lia) Hn) as Hpos.
  destruct (2 ^ n) as [| p | p]; try lia. exact IH.
Qed.

Lemma popcount_nonneg x : 0 <= Std.popcount x.
Proof.
  destruct x as [| p | p]; cbn; try lia.
  induction p; cbn [Std.popcount_pos]; lia.
Qed.

Lemma int_small x : 0 <= x < 2 ^ 31 -> int x = x.
Proof.
  intros H. unfold int. rewrite wrap_small by lia.
  destruct (Z.ltb_spec x (2 ^ 31)); lia.
Qed.

(** While the running total stays below [2^31], the [int] accumulator of
    [count()] holds the sum of the population counts. *)
Lemma count_fold (l : list Z) acc :
  0 <= acc -> acc + run_sum Std.popcount l < 2 ^ 31 ->
  fold_left (fun acc val => int (size_t (size_t acc + Std.popcount val))) l acc
  = acc + run_sum Std.popcount l.
Proof.
  revert acc. induction l as [| x l IH]; intros acc Hacc Hsum.
  - cbn. lia.
  - cbn [fold_left run_sum fold_right] in *.
    pose proof (popcount_nonneg x) as Hx.
    assert (0 <= run_sum Std.popcount l) as Hl.
    { clear. induction l as [| y l IH]; cbn; [lia |]. pose proof (popcount_nonneg y).
      unfold run_sum in IH. lia. }
    unfold run_sum in Hl, Hsum.
    rewrite (size_t_small acc) by lia.
    rewrite (size_t_small (acc + Std.popcount x)) by lia.
    rewrite int_small by lia. rewrite IH; unfold run_sum; lia.
Qed.

Lemma run_sum_zeros (l : list Z) : run_sum Std.popcount (map (fun _ => 0) l) = 0.
Proof. induction l as [| x l IH]; cbn; [reflexivity |]. exact IH. Qed.

Lemma run_sum_app cnt (l1 l2 : list Z) :
  run_sum cnt (l1 ++ l2) = run_sum cnt l1 + run_sum cnt l2.
Proof.
  unfold run_sum. induction l1 as [| x l1 IH]; cbn [app fold_right]; [lia |].
  rewrite IH. lia.
Qed.

Lemma nth_zeros (l : list Z) c : nth c (map (fun _ => 0) l) 0 = 0.
Proof.
  revert c. induction l as [| x l IH]; intros [| c]; cbn; try reflexivity. apply IH.
Qed.

(** The state [reset()] then [set(pos)] leaves: one word, that of [pos],
    holds the single bit of [pos]. *)
Lemma reset_set_state b N (s : list Z) pos :
  size_ok N -> Z.of_nat (length s) = NUM_CHUNKS N -> 0 <= pos < N ->
  exists l1 y l2,
    s = l1 ++ y :: l2 /\ Z.of_nat (length l1) = pos / 64 /\
    set b N (reset_all s) pos true
    = Ok (map (fun _ => 0) l1 ++ 2 ^ (pos mod 64) :: map (fun _ => 0) l2).
Proof.
  intros HN Hlen Hpos.
  destruct (chunk_shift N pos HN Hpos) as (Hchunk & Hshift & _).
  assert (Z.to_nat (pos / 64) < length s)%nat as Hlt by lia.
  destruct (lookup_lt_is_Some_2 s _ Hlt) as [y Hy].
  destruct (list_elem_of_split_length s _ y Hy) as (l1 & l2 & -> & Hl1).
  exists l1, y, l2. split; [reflexivity |]. split; [lia |].
  assert (forall v, Inner_t N (Z.lor 0 v) = Inner_t N v) as Hlor by (intros v; reflexivity).
  assert (Z.shiftl 1 (pos mod 64) = 2 ^ (pos mod 64)) as Hsh
      by (rewrite Z.shiftl_mul_pow2 by lia; lia).
  assert (0 < 2 ^ (pos mod 64)) as Hpos2 by (apply Z.pow_pos_nonneg; lia).
  unfold set. destruct (Z.ltb_spec pos N); [| lia].
  rewrite BITSET_ASSERT_true. cbn [bind negb].
  unfold reset_all. rewrite map_app. cbn [map].
  destruct (Z.ltb_spec 64 N) as [Hgt | Hle].
  - destruct (multi_word N HN Hgt) as [_ HW].
    unfold shl. destruct (Z.ltb_spec (pos mod 64) 64); [| lia]. cbn [bind].
    replace (pos / 64) with (Z.of_nat (length (map (fun _ : Z => 0) l1)))
      by (rewrite length_map; lia).
    rewrite load_middle. cbn [bind]. rewrite store_middle. do 3 f_equal.
    rewrite Hlor, Hsh. unfold Inner_t. rewrite HW.
    assert (2 ^ (pos mod 64) < 2 ^ 64) by (apply Z.pow_lt_mono_r; lia).
    rewrite !(wrap_small 64 (2 ^ (pos mod 64))) by lia. reflexivity.
  - assert (pos / 64 = 0) as E0 by (apply Z.div_small; lia).
    assert (pos mod 64 = pos) as E1 by (apply Z.mod_small; lia).
    rewrite E1 in *. rewrite E0 in *.
    destruct l1; [| cbn [length] in Hl1; lia]. cbn [map app].
    unfold shl. destruct (Z.ltb_spec pos 64); [| lia]. cbn [bind].
    change (load (0 :: map (fun _ : Z => 0) l2) 0) with (@Ok Z 0). cbn [bind].
    unfold store. cbn [length]. destruct (Z.ltb_spec 0 (Z.of_nat (S (length (map (fun _ : Z => 0) l2))))); [| lia].
    cbn [Z.leb andb Z.to_nat insert list_insert]. do 2 f_equal.
    rewrite Hlor, Hsh. unfold Inner_t.
    pose proof (Inner_bits_ge N Hle). pose proof (Inner_bits_le N).
    assert (2 ^ pos < 2 ^ Inner_bits N) by (apply Z.pow_lt_mono_r; lia).
    assert (2 ^ Inner_bits N <= 2 ^ 64) by (apply Z.pow_le_mono_r; lia).
    rewrite (wrap_small 64 (2 ^ pos)) by lia.
    rewrite !(wrap_small (Inner_bits N) (2 ^ pos)) by lia. reflexivity.
Qed.

Lemma bit_single_word_set (l1 l2 : list Z) k q :
  0 <= k < 64 -> 0 <= q ->
  bit (map (fun _ => 0) l1 ++ 2 ^ k :: map (fun _ => 0) l2) q
  = (q =? 64 * Z.of_nat (length l1) + k).
Proof.
  intros Hk Hq. destruct (bit_split q Hq) as (Eq & Hc & Hj).
  unfold bit.
  destruct (Z.eq_dec (q / 64) (Z.of_nat (length l1))) as [E | E].
  - replace (Z.to_nat (q / 64)) with (length (map (fun _ : Z => 0) l1))
      by (rewrite length_map; lia).
    rewrite List.nth_middle, Z.pow2_bits_eqb by lia.
    destruct (Z.eqb_spec k (q mod 64)), (Z.eqb_spec q (64 * Z.of_nat (length l1) + k));
      lia || reflexivity.
  - replace (nth (Z.to_nat (q / 64)) (map (fun _ => 0) l1 ++ 2 ^ k :: map (fun _ => 0) l2) 0)
      with 0.
    + rewrite Z.testbit_0_l.
      destruct (Z.eqb_spec q (64 * Z.of_nat (length l1) + k)); [| reflexivity].
      exfalso. apply E. subst q.
      replace (64 * Z.of_nat (length l1) + k) with (k + Z.of_nat (length l1) * 64) by lia.
      rewrite Z.div_add, Z.div_small by lia. lia.
    + destruct (Z.lt_ge_cases (q / 64) (Z.of_nat (length l1))).
      * rewrite List.app_nth1 by (rewrite length_map; lia). now rewrite nth_zeros.
      * rewrite List.app_nth2 by (rewrite length_map; lia). rewrite length_map.
        destruct (Z.to_nat (q / 64) - length l1)%nat as [| c] eqn:Ec; [lia |].
        cbn [nth]. now rewrite nth_zeros.
Qed.

(** What holds of the claim about [reset()] then [set(pos)], for every [N]:
    the state has exactly the bit [pos] set, [test(pos)] is true and
    [count()] is 1.  In a single-word container every other index tests
    false; in a multi-word container [test(q)] is true exactly for the [q]
    of the chunk of [pos] that are not above [pos]. *)
Lemma reset_set_spec b N (s : list Z) pos :
  size_ok N -> Z.of_nat (length s) = NUM_CHUNKS N -> 0 <= pos < N ->
  exists s',
    set b N (reset_all s) pos true = Ok s' /\
    (forall q, 0 <= q -> bit s' q = (q =? pos)) /\
    test b N s' pos = Ok true /\ count s' = 1 /\
    (N <= 64 -> forall q, 0 <= q < N -> q <> pos -> test b N s' q = Ok false) /\
    (64 < N -> forall q, 0 <= q < N ->
       test b N s' q = Ok ((q <=? pos) && (pos <? 64 * (q / 64 + 1)))).
Proof.
  intros HN Hlen Hpos.
  destruct (reset_set_state b N s pos HN Hlen Hpos) as (l1 & y & l2 & -> & Hl1 & Hset).
  destruct (bit_split pos ltac:(lia)) as (Epos & _ & Hk).
  set (s' := map (fun _ => 0) l1 ++ 2 ^ (pos mod 64) :: map (fun _ => 0) l2) in *.
  assert (forall q, 0 <= q -> bit s' q = (q =? pos)) as Hbit.
  { intros q Hq. unfold s'. rewrite bit_single_word_set by lia. f_equal. lia. }
  assert (wf N s' = true) as Hwf.
  { destruct (set_preserves b N (reset_all (l1 ++ y :: l2)) pos true HN
                (wf_reset_all N _ Hlen) (reset_all_canonical N _) Hpos)
      as (s'' & E & Hwf & _).
    rewrite Hset in E. now injection E as <-. }
  exists s'. split; [exact Hset |]. split; [exact Hbit |].
  assert (N <= 64 -> forall q, 0 <= q < N -> test b N s' q = Ok (q =? pos)) as Hsingle.
  { intros Hle q Hq.
    destruct (index_single_word b N s' q HN Hle Hwf Hq) as [_ ->].
    now rewrite Hbit by lia. }
  assert (64 < N -> forall q, 0 <= q < N ->
            test b N s' q = Ok ((q <=? pos) && (pos <? 64 * (q / 64 + 1)))) as Hmulti.
  { intros Hgt q Hq. unfold test.
    destruct (index_multi_word b N s' q HN Hgt Hwf Hq) as (r & -> & Hr). f_equal.
    destruct (Z.leb_spec q pos) as [H1 | H1]; cbn [andb].
    - destruct (Z.ltb_spec pos (64 * (q / 64 + 1))) as [H2 | H2].
      + apply Hr. exists pos. split; [lia |]. rewrite Hbit by lia. apply Z.eqb_refl.
      + destruct r; [| reflexivity]. destruct (proj1 Hr eq_refl) as (q' & Hq' & E).
        rewrite Hbit in E by lia. apply Z.eqb_eq in E. lia.
    - destruct r; [| reflexivity]. destruct (proj1 Hr eq_refl) as (q' & Hq' & E).
      rewrite Hbit in E by lia. apply Z.eqb_eq in E. lia. }
  split; [| split; [| split; [| exact Hmulti]]].
  - destruct (Z.le_gt_cases N 64) as [Hle | Hgt].
    + rewrite (Hsingle Hle pos Hpos). now rewrite Z.eqb_refl.
    + rewrite (Hmulti ltac:(lia) pos Hpos).
      destruct (Z.leb_spec pos pos); [| lia].
      destruct (Z.ltb_spec pos (64 * (pos / 64 + 1))); [reflexivity | lia].
  - unfold count. rewrite count_fold.
    + unfold s'. rewrite run_sum_app. cbn [run_sum fold_right].
      fold (run_sum Std.popcount (map (fun _ : Z => 0) l2)).
      rewrite !run_sum_zeros, popcount_pow2 by lia. reflexivity.
    + lia.
    + unfold s'. rewrite run_sum_app. cbn [run_sum fold_right].
      fold (run_sum Std.popcount (map (fun _ : Z => 0) l2)).
      rewrite !run_sum_zeros, popcount_pow2 by lia. reflexivity.
  - intros Hle q Hq Hne. rewrite (Hsingle Hle q Hq).
    destruct (Z.eqb_spec q pos); [contradiction | reflexivity].
Qed.

(** * Further properties of the class *)

(** ** States as bit sequences *)

Lemma bit_insert (s : list Z) (c : nat) v q :
  (c < length s)%nat -> 0 <= q ->
  bit (<[c := v]> s) q
  = if q / 64 =? Z.of_nat c then Z.testbit v (q mod 64) else bit s q.
Proof.
  intros Hc Hq. unfold bit. destruct (bit_split q Hq) as (_ & Hd & _).
  destruct (Z.eqb_spec (q / 64) (Z.of_nat c)) as [E | E].
  - rewrite E, Nat2Z.id.
    rewrite (nth_lookup_Some _ c 0 v); [reflexivity |].
    now apply list_lookup_insert_eq.
  - rewrite !nth_lookup, list_lookup_insert_ne by lia. reflexivity.
Qed.

Lemma bit_word_high N (s : list Z) q :
  wf N s = true -> 0 <= q -> Inner_bits N <= q mod 64 -> bit s q = false.
Proof.
  intros Hwf Hq Hj. apply wf_iff in Hwf. destruct Hwf as [_ Hall]. unfold bit.
  destruct (List.nth_in_or_default (Z.to_nat (q / 64)) s 0) as [Hin | ->].
  - rewrite List.Forall_forall in Hall. apply Hall in Hin. apply word_ok_iff in Hin.
    now apply (testbit_above (Inner_bits N)).
  - apply Z.testbit_0_l.
Qed.

(** Two arrays of words of type [Inner_t] with the same logical bits are the
    same array. *)
Lemma bits_ext N (s1 s2 : list Z) :
  wf N s1 = true -> wf N s2 = true ->
  (forall q, 0 <= q -> bit s1 q = bit s2 q) -> s1 = s2.
Proof.
  intros H1 H2 Hbits. pose proof H1 as Hw1. pose proof H2 as Hw2.
  apply wf_iff in H1, H2. destruct H1 as [Hl1 Hr1], H2 as [Hl2 Hr2].
  apply (List.nth_ext s1 s2 0 0); [lia |]. intros c Hc.
  rewrite List.Forall_forall in Hr1, Hr2.
  assert (0 <= nth c s1 0 < 2 ^ Inner_bits N) as Hx1
      by (apply word_ok_iff, Hr1, List.nth_In; lia).
  assert (0 <= nth c s2 0 < 2 ^ Inner_bits N) as Hx2
      by (apply word_ok_iff, Hr2, List.nth_In; lia).
  pose proof (Inner_bits_le N) as H64.
  apply Z.bits_inj'. intros j Hj. destruct (Z.lt_ge_cases j 64).
  - rewrite <- (Nat2Z.id c), <- !bit_nth by lia. apply Hbits. lia.
  - rewrite (testbit_above (Inner_bits N) _ j Hx1), (testbit_above (Inner_bits N) _ j Hx2) by lia.
    reflexivity.
Qed.

Lemma bits_ext_canonical N (s1 s2 : list Z) :
  size_ok N -> wf N s1 = true -> wf N s2 = true ->
  canonical N s1 = true -> canonical N s2 = true ->
  (forall q, 0 <= q < N -> bit s1 q = bit s2 q) -> s1 = s2.
Proof.
  intros HN H1 H2 Hc1 Hc2 Hbits. apply (bits_ext N); try assumption.
  intros q Hq. destruct (Z.lt_ge_cases q N) as [Hlt | Hge]; [apply Hbits; lia |].
  rewrite !(canonical_padding N) by (try assumption; apply wf_iff; assumption).
  reflexivity.
Qed.

(** ** What the single-bit modifiers do to the bits *)

Lemma load_nth N (s : list Z) c :
  wf N s = true -> 0 <= c < NUM_CHUNKS N ->
  load s c = Ok (nth (Z.to_nat c) s 0) /\ word_ok N (nth (Z.to_nat c) s 0) = true.
Proof.
  intros Hwf Hc. destruct (load_ok N s c Hwf Hc) as (x & Hload & Hx & _).
  assert (x = nth (Z.to_nat c) s 0) as <-; [| now split].
  unfold load in Hload. destruct (Z.ltb_spec c 0); [lia |].
  destruct (s !! Z.to_nat c) as [y |] eqn:E; [| discriminate].
  injection Hload as ->. symmetry. now apply nth_lookup_Some with (d := 0) in E.
Qed.

Lemma store_insert N (s : list Z) c v :
  wf N s = true -> 0 <= c < NUM_CHUNKS N -> word_ok N v = true ->
  store s c v = Ok (<[Z.to_nat c := v]> s) /\ wf N (<[Z.to_nat c := v]> s) = true.
Proof.
  intros Hwf Hc Hv. apply wf_iff in Hwf. destruct Hwf as [Hlen Hall]. split.
  - unfold store. destruct (Z.leb_spec 0 c); [| lia].
    destruct (Z.ltb_spec c (Z.of_nat (length s))); [reflexivity | lia].
  - apply wf_iff. rewrite length_insert. split; [assumption | now apply Forall_insert].
Qed.

Lemma testbit_cleared one shift j :
  (forall i, 0 <= i -> Z.testbit one i = (i =? shift)) -> 0 <= j ->
  Z.testbit (size_t (Z.lnot one)) j = (j <? 64) && negb (j =? shift).
Proof.
  intros Hone Hj. unfold size_t. now rewrite wrap_testbit, Z.lnot_spec, Hone by lia.
Qed.

Ltac bool_norm :=
  cbn [negb andb orb];
  rewrite ?andb_true_r, ?andb_false_r, ?orb_false_r, ?orb_true_r;
  try reflexivity.

(** One assignment [m_storage[c] = (Inner_t) v] on a well-formed state. *)
Ltac store_step N Hwf Hwf' :=
  match goal with
  | |- context [store ?s ?c (Inner_t N ?v)] =>
      destruct (store_insert N s c (Inner_t N v) Hwf ltac:(lia) (Inner_t_ok N v))
        as [-> Hwf']
  end.

(** The assertion [BITSET_ASSERT(pos < N)] of the single-bit members. *)
Lemma assert_in_contract b N pos :
  (b = Debug -> pos < N) -> BITSET_ASSERT b (pos <? N) = Ok tt.
Proof.
  intros H. destruct b; [| reflexivity]. cbn.
  destruct (Z.ltb_spec pos N); [reflexivity | specialize (H eq_refl); lia].
Qed.

(** The stores of [set(pos)], for every [pos] inside the storage; a debug
    build gets that far only when [pos < N]. *)
Lemma set_bits_gen b N (s : list Z) pos :
  size_ok N -> wf N s = true -> 0 <= pos < Inner_bits N * NUM_CHUNKS N ->
  (b = Debug -> pos < N) ->
  exists s', set b N s pos true = Ok s' /\ wf N s' = true /\
             forall q, 0 <= q -> bit s' q = bit s q || (q =? pos).
Proof.
  intros HN Hwf Hpos Hdbg. unfold set.
  rewrite (assert_in_contract b N pos Hdbg). cbn [bind negb].
  pose proof (Inner_bits_nonneg N) as HW.
  assert (Z.of_nat (length s) = NUM_CHUNKS N) as Hlen by (apply wf_iff in Hwf; tauto).
  destruct (bit_split pos ltac:(lia)) as (Epos & Hposc & Hposj).
  destruct (Z.ltb_spec 64 N) as [Hgt | Hle].
  - destruct (multi_word N HN Hgt) as [_ H64]. rewrite H64 in Hpos.
    assert (0 <= pos / 64 < NUM_CHUNKS N) as Hchunk by lia.
    assert (0 <= pos mod 64 < 64) as Hshift by lia.
    destruct (shl_64_one (pos mod 64) Hshift) as (one & -> & _ & Hone). cbn [bind].
    destruct (load_nth N s (pos / 64) Hwf Hchunk) as [-> Hx]. cbn [bind].
    store_step N Hwf Hwf'.
    eexists. split; [reflexivity |]. split; [exact Hwf' |].
    intros q Hq. destruct (bit_split q Hq) as (Eq & Hqc & Hqj).
    rewrite bit_insert by lia. rewrite Z2Nat.id by lia.
    destruct (Z.eqb_spec (q / 64) (pos / 64)) as [E | E].
    + unfold Inner_t. rewrite wrap_testbit, Z.lor_spec, Hone, H64 by lia.
      destruct (Z.ltb_spec (q mod 64) 64); [cbn [andb] | lia].
      unfold bit. rewrite E. f_equal.
      destruct (Z.eqb_spec (q mod 64) (pos mod 64)), (Z.eqb_spec q pos); lia || reflexivity.
    + destruct (Z.eqb_spec q pos); [subst q; contradiction | now rewrite orb_false_r].
  - destruct (single_word N HN Hle) as [Hk _]. rewrite Hk in Hpos.
    pose proof (Inner_bits_le N) as HW64.
    destruct (shl_64_one pos ltac:(lia)) as (one & -> & _ & Hone). cbn [bind].
    destruct (load_nth N s 0 Hwf ltac:(lia)) as [-> Hx]. cbn [bind].
    store_step N Hwf Hwf'.
    eexists. split; [reflexivity |]. split; [exact Hwf' |].
    intros q Hq. destruct (bit_split q Hq) as (Eq & Hqc & Hqj).
    rewrite bit_insert by (cbn; lia). change (Z.of_nat (Z.to_nat 0)) with 0.
    change (Z.to_nat 0) with 0%nat in *.
    pose proof (Inner_bits_ge N Hle) as HWN.
    destruct (Z.eqb_spec (q / 64) 0) as [E | E].
    + unfold Inner_t. rewrite wrap_testbit, Z.lor_spec, wrap_testbit, Hone by lia.
      assert (q mod 64 = q) as Ej by lia. rewrite Ej.
      assert (bit s q = Z.testbit (nth 0 s 0) q) as -> by (unfold bit; now rewrite E, Ej).
      destruct (Z.ltb_spec q (Inner_bits N)); cbn [andb]; [reflexivity |].
      apply word_ok_iff in Hx. rewrite (testbit_above (Inner_bits N) _ q Hx) by lia.
      destruct (Z.eqb_spec q pos); [lia | reflexivity].
    + destruct (Z.eqb_spec q pos); [| now rewrite orb_false_r].
      subst q. exfalso. apply E. apply Z.div_small. lia.
Qed.

(** [set(pos)] with [pos < N] returns in both builds; it sets the bit at
    [pos] and leaves every other bit as it was. *)
Lemma set_bits b N (s : list Z) pos :
  size_ok N -> wf N s = true -> 0 <= pos < N ->
  exists s', set b N s pos true = Ok s' /\ wf N s' = true /\
             forall q, 0 <= q -> bit s' q = bit s q || (q =? pos).
Proof.
  intros HN Hwf Hpos. pose proof (capacity_ge N HN).
  apply set_bits_gen; try assumption; lia.
Qed.

(** The stores of [reset(pos)], for every [pos] inside the storage. *)
Lemma reset_bits_gen b N (s : list Z) pos :
  size_ok N -> wf N s = true -> 0 <= pos < 64 * NUM_CHUNKS N ->
  (b = Debug -> pos < N) ->
  exists s', reset b N s pos = Ok s' /\ wf N s' = true /\
             (forall q, 0 <= q < N -> bit s' q = bit s q && negb (q =? pos)) /\
             (forall q, N <= q ->
                bit s' q = if pos / 64 =? NUM_CHUNKS N - 1 then false else bit s q).
Proof.
  intros HN Hwf Hpos Hdbg. unfold reset.
  rewrite (assert_in_contract b N pos Hdbg). cbn [bind].
  pose proof (Inner_bits_nonneg N) as HW. pose proof (live_bits_range N) as Hlive.
  assert (Z.of_nat (length s) = NUM_CHUNKS N) as Hlen by (apply wf_iff in Hwf; tauto).
  destruct (chunks_live N HN) as [HNC HNeq].
  destruct (bit_split pos ltac:(lia)) as (Epos & Hposc & Hposj).
  assert (0 <= pos / 64 < NUM_CHUNKS N) as Hchunk by lia.
  assert (0 <= pos mod 64 < 64) as Hshift by lia.
  assert (forall s' q, length s' = length s -> N <= q -> q / 64 <> NUM_CHUNKS N - 1 ->
                       bit s' q = false) as Hfar.
  { intros s' q Hl Hq Hne. apply bit_beyond. rewrite Hl.
    destruct (bit_split q ltac:(lia)) as (Eq & Hqc & Hqj). lia. }
  destruct (Z.ltb_spec 64 N) as [Hgt | Hle].
  - destruct (multi_word N HN Hgt) as [_ H64].
    destruct (shl_64_one (pos mod 64) Hshift) as (one & -> & _ & Hone). cbn [bind].
    destruct (load_nth N s (pos / 64) Hwf Hchunk) as [-> Hx]. cbn [bind].
    rewrite (chunks_but_last_eq N HN).
    destruct (Z.eqb_spec (pos / 64) (NUM_CHUNKS N - 1)) as [Ek | Ek].
    + store_step N Hwf Hwf'.
      eexists. split; [reflexivity |]. split; [exact Hwf' |].
      assert (forall q, 0 <= q -> q / 64 = pos / 64 ->
                bit (<[Z.to_nat (pos / 64) := Inner_t N
                        (Z.land (nth (Z.to_nat (pos / 64)) s 0)
                           (Z.land (size_t (Z.lnot one)) (LAST_MASK N)))]> s) q
                = bit s q && negb (q =? pos) && (q <? N)) as Hin.
      { intros q Hq E. destruct (bit_split q Hq) as (Eq & Hqc & Hqj).
        rewrite bit_insert by lia. rewrite Z2Nat.id by lia.
        destruct (Z.eqb_spec (q / 64) (pos / 64)); [| contradiction].
        unfold Inner_t. rewrite wrap_testbit, !Z.land_spec by lia.
        rewrite (testbit_cleared one (pos mod 64)), (testbit_LAST_MASK N _ HN), H64 by (assumption || lia).
        unfold bit. rewrite E.
        destruct (Z.ltb_spec (q mod 64) 64); [cbn [andb] | lia].
        destruct (Z.eqb_spec (q mod 64) (pos mod 64)), (Z.eqb_spec q pos); try lia;
          destruct (Z.ltb_spec (q mod 64) (live_bits N)), (Z.ltb_spec q N); try lia;
          bool_norm. }
      split.
      * intros q Hq. destruct (Z.eq_dec (q / 64) (pos / 64)) as [E | E].
        -- rewrite Hin by lia. destruct (Z.ltb_spec q N); [apply andb_true_r | lia].
        -- rewrite bit_insert by lia. rewrite Z2Nat.id by lia.
           destruct (Z.eqb_spec (q / 64) (pos / 64)); [contradiction |].
           destruct (Z.eqb_spec q pos); [subst q; contradiction | now rewrite andb_true_r].
      * intros q Hq. destruct (Z.eq_dec (q / 64) (pos / 64)) as [E | E].
        -- rewrite Hin by lia. destruct (Z.ltb_spec q N); [lia | apply andb_false_r].
        -- apply Hfar; [apply length_insert | lia | lia].
    + store_step N Hwf Hwf'.
      eexists. split; [reflexivity |]. split; [exact Hwf' |].
      split.
      * intros q Hq. destruct (bit_split q ltac:(lia)) as (Eq & Hqc & Hqj).
        rewrite bit_insert by lia. rewrite Z2Nat.id by lia.
        destruct (Z.eqb_spec (q / 64) (pos / 64)) as [E | E].
        -- unfold Inner_t. rewrite wrap_testbit, Z.land_spec by lia.
           rewrite (testbit_cleared one (pos mod 64)), H64 by (assumption || lia).
           unfold bit. rewrite E.
           destruct (Z.ltb_spec (q mod 64) 64); [cbn [andb] | lia]. f_equal.
           destruct (Z.eqb_spec (q mod 64) (pos mod 64)), (Z.eqb_spec q pos); lia || reflexivity.
        -- destruct (Z.eqb_spec q pos); [subst q; contradiction | now rewrite andb_true_r].
      * intros q Hq. destruct (bit_split q ltac:(lia)) as (Eq & Hqc & Hqj).
        rewrite bit_insert by lia. rewrite Z2Nat.id by lia.
        destruct (Z.eqb_spec (q / 64) (pos / 64)) as [E | E]; [lia | reflexivity].
  - destruct (single_word N HN Hle) as [Hk Hl].
    assert (pos / 64 = 0) as E0 by (apply Z.div_small; lia).
    rewrite E0, Hk. cbn [Z.sub Z.eqb Z.opp Z.add Z.pos_sub].
    destruct (shl_64_one pos ltac:(lia)) as (one & -> & _ & Hone). cbn [bind].
    destruct (load_nth N s 0 Hwf ltac:(lia)) as [-> Hx]. cbn [bind].
    store_step N Hwf Hwf'.
    eexists. split; [reflexivity |]. split; [exact Hwf' |].
    pose proof (Inner_bits_ge N Hle) as HWN.
    assert (forall q, 0 <= q ->
              bit (<[Z.to_nat 0 := Inner_t N
                      (Z.land (nth (Z.to_nat 0) s 0)
                         (Z.land (size_t (Z.lnot one)) (LAST_MASK N)))]> s) q
              = (q <? N) && bit s q && negb (q =? pos)) as Hin.
    { intros q Hq. destruct (bit_split q Hq) as (Eq & Hqc & Hqj).
      destruct (Z.lt_ge_cases q 64) as [Hlt | Hge].
      - assert (q / 64 = 0) as Eq0 by (apply Z.div_small; lia).
        assert (q mod 64 = q) as Ej by lia.
        rewrite bit_insert by (cbn; lia). change (Z.of_nat (Z.to_nat 0)) with 0.
        change (Z.to_nat 0) with 0%nat. rewrite Eq0, Ej.
        cbn [Z.eqb]. unfold Inner_t. rewrite wrap_testbit, !Z.land_spec by lia.
        rewrite (testbit_cleared one pos), (testbit_LAST_MASK N _ HN), Hl by (assumption || lia).
        assert (bit s q = Z.testbit (nth 0 s 0) q) as -> by (unfold bit; now rewrite Eq0, Ej).
        destruct (Z.ltb_spec q (Inner_bits N)), (Z.ltb_spec q 64), (Z.ltb_spec q N);
          try lia; cbn [andb]; try reflexivity;
          destruct (Z.testbit (nth 0 s 0) q), (q =? pos); reflexivity.
      - rewrite bit_beyond by (rewrite length_insert; lia).
        destruct (Z.ltb_spec q N); [lia | reflexivity]. }
    split.
    + intros q Hq. rewrite Hin by lia. destruct (Z.ltb_spec q N); [reflexivity | lia].
    + intros q Hq. rewrite Hin by lia. destruct (Z.ltb_spec q N); [lia | reflexivity].
Qed.

(** [reset(pos)] with [pos < N] returns in both builds; it clears the bit at
    [pos] and leaves every other bit below [N] as it was.  At the positions
    [>= N] it leaves the bits alone unless [pos] lies in the final word, whose
    padding it then clears. *)
Lemma reset_bits b N (s : list Z) pos :
  size_ok N -> wf N s = true -> 0 <= pos < N ->
  exists s', reset b N s pos = Ok s' /\ wf N s' = true /\
             (forall q, 0 <= q < N -> bit s' q = bit s q && negb (q =? pos)) /\
             (forall q, N <= q ->
                bit s' q = if pos / 64 =? NUM_CHUNKS N - 1 then false else bit s q).
Proof.
  intros HN Hwf Hpos. destruct (chunks_live N HN) as [_ E].
  pose proof (live_bits_range N).
  apply reset_bits_gen; try assumption; lia.
Qed.

(** ** What the bulk modifiers do to the bits *)

Lemma bit_map_init (f : Z -> Z) (init rest : list Z) q :
  0 <= q < 64 * Z.of_nat (length init) ->
  bit (map f init ++ rest) q = Z.testbit (f (nth (Z.to_nat (q / 64)) init 0)) (q mod 64).
Proof.
  intros Hq. destruct (bit_split q ltac:(lia)) as (Eq & Hqc & Hqj).
  rewrite bit_app_l by (rewrite length_map; lia). unfold bit.
  assert (Z.to_nat (q / 64) < length init)%nat as Hlt by lia.
  rewrite (List.nth_indep _ 0 (f 0)) by (rewrite length_map; lia).
  now rewrite List.map_nth.
Qed.

Lemma bit_snoc_at (l : list Z) w q :
  64 * Z.of_nat (length l) <= q < 64 * Z.of_nat (length l) + 64 ->
  bit (l ++ [w]) q = Z.testbit w (q - 64 * Z.of_nat (length l)).
Proof.
  intros Hq. rewrite <- (bit_snoc_last l w (q - 64 * Z.of_nat (length l))) by lia.
  f_equal. lia.
Qed.

Lemma init_nonempty_64 N (init : list Z) q :
  size_ok N -> Z.of_nat (length init) = NUM_CHUNKS N - 1 ->
  0 <= q < 64 * Z.of_nat (length init) -> Inner_bits N = 64 /\ q < N.
Proof.
  intros HN Hlen Hq. destruct (chunks_live N HN) as [_ E].
  pose proof (live_bits_range N). split; [| lia].
  apply (multi_word N HN). lia.
Qed.

(** [flip()] complements every bit below [N] and leaves 0 at every position
    [>= N], whatever the storage held. *)
Lemma flip_bits N (s : list Z) :
  size_ok N -> Z.of_nat (length s) = NUM_CHUNKS N ->
  exists s', flip N s = Ok s' /\ wf N s' = true /\ canonical N s' = true /\
             forall q, 0 <= q -> bit s' q = (q <? N) && negb (bit s q).
Proof.
  intros HN Hlen.
  destruct (flip_canonical N s HN Hlen) as (s' & Hflip & Hl & Hc).
  pose proof (wf_flip N s s' HN Hlen Hflip) as Hwf.
  exists s'. repeat (split; [assumption |]).
  destruct (length_snoc_of N s HN Hlen) as (init & w & -> & Hinit).
  rewrite (flip_snoc N init w HN Hinit) in Hflip. injection Hflip as <-.
  destruct (chunks_live N HN) as [_ HNeq]. pose proof (live_bits_range N) as Hlive.
  intros q Hq.
  destruct (Z.lt_ge_cases q (64 * Z.of_nat (length init))) as [Hlow | Hhigh].
  - destruct (init_nonempty_64 N init q HN Hinit ltac:(lia)) as [H64 HqN].
    destruct (bit_split q Hq) as (Eq & Hqc & Hqj).
    rewrite bit_map_init, testbit_flip_word, H64, bit_app_l by lia.
    destruct (Z.ltb_spec (q mod 64) 64), (Z.ltb_spec q N); try lia. reflexivity.
  - destruct (Z.lt_ge_cases q (64 * Z.of_nat (length init) + 64)) as [Hin | Hout].
    + rewrite !bit_snoc_at by (rewrite ?length_map; lia).
      rewrite length_map, (testbit_flip_last N _ _ HN) by lia.
      destruct (Z.ltb_spec (q - 64 * Z.of_nat (length init)) (live_bits N)), (Z.ltb_spec q N);
        try lia; reflexivity.
    + rewrite bit_beyond by (rewrite length_app, length_map; cbn [length]; lia).
      destruct (Z.ltb_spec q N); [lia | reflexivity].
Qed.

Lemma LAST_MASK_Inner_t N : size_ok N -> Inner_t N (LAST_MASK N) = LAST_MASK N.
Proof.
  intros HN. unfold Inner_t. apply wrap_small.
  rewrite (LAST_MASK_ones N HN), Z.ones_equiv.
  pose proof (live_bits_range N). pose proof (live_le_Inner N HN).
  pose proof (Z.pow_le_mono_r 2 (live_bits N) (Inner_bits N) ltac:(lia) ltac:(lia)).
  pose proof (Z.pow_pos_nonneg 2 (live_bits N) ltac:(lia) ltac:(lia)). lia.
Qed.

(** [set()] leaves 1 at every position below [N] and 0 at every position
    [>= N], whatever the storage held. *)
Lemma set_all_bits N (s : list Z) :
  size_ok N -> Z.of_nat (length s) = NUM_CHUNKS N ->
  exists s', set_all N s = Ok s' /\ wf N s' = true /\ canonical N s' = true /\
             forall q, 0 <= q -> bit s' q = (q <? N).
Proof.
  intros HN Hlen.
  destruct (set_all_canonical N s HN Hlen) as (s' & Hset & Hl & Hc).
  pose proof (wf_set_all N s s' HN Hlen Hset) as Hwf.
  exists s'. repeat (split; [assumption |]).
  destruct (length_snoc_of N s HN Hlen) as (init & w & -> & Hinit).
  rewrite (set_all_snoc N init w HN Hinit) in Hset. injection Hset as <-.
  destruct (chunks_live N HN) as [_ HNeq]. pose proof (live_bits_range N) as Hlive.
  intros q Hq.
  destruct (Z.lt_ge_cases q (64 * Z.of_nat (length init))) as [Hlow | Hhigh].
  - destruct (init_nonempty_64 N init q HN Hinit ltac:(lia)) as [H64 HqN].
    destruct (bit_split q Hq) as (Eq & Hqc & Hqj).
    rewrite bit_map_init by lia. unfold Inner_max. rewrite H64.
    change (2 ^ 64 - 1) with (Z.ones 64). rewrite Z.testbit_ones_nonneg by lia.
    destruct (Z.ltb_spec (q mod 64) 64), (Z.ltb_spec q N); lia || reflexivity.
  - destruct (Z.lt_ge_cases q (64 * Z.of_nat (length init) + 64)) as [Hin | Hout].
    + rewrite bit_snoc_at by (rewrite ?length_map; lia).
      rewrite length_map, (LAST_MASK_Inner_t N HN), (testbit_LAST_MASK N _ HN) by lia.
      destruct (Z.ltb_spec (q - 64 * Z.of_nat (length init)) (live_bits N)), (Z.ltb_spec q N);
        try lia; reflexivity.
    + rewrite bit_beyond by (rewrite length_app, length_map; cbn [length]; lia).
      destruct (Z.ltb_spec q N); [lia | reflexivity].
Qed.

Lemma none_reset_all (s : list Z) : none (reset_all s) = true.
Proof.
  unfold none, reset_all. apply List.forallb_forall. intros x Hx.
  apply List.in_map_iff in Hx. destruct Hx as (y & <- & _). reflexivity.
Qed.

(** C10. The bulk modifiers [set()], [flip()] and [reset()] establish the
    canonical zero-padding invariant from any storage content whatsoever:
    whatever the words of the array hold before the call (padding bits
    included), each of the three calls returns, and the state it leaves is
    an array of the same [NUM_CHUNKS] words of type [Inner_t] whose final
    word has no bit outside [LAST_MASK], so every bit at a position [>= N]
    reads 0; below [N] the call has done its work: every bit is 1 after
    [set()], the complement of what it was after [flip()], and 0 after
    [reset()]. *)
Theorem bulk_modifiers_establish_canonical N (s : list Z) :
  size_ok N -> Z.of_nat (length s) = NUM_CHUNKS N ->
  (exists s', set_all N s = Ok s' /\
              length s' = length s /\ wf N s' = true /\ canonical N s' = true /\
              (forall p, N <= p -> bit s' p = false) /\
              (forall q, 0 <= q < N -> bit s' q = true)) /\
  (exists s', flip N s = Ok s' /\
              length s' = length s /\ wf N s' = true /\ canonical N s' = true /\
              (forall p, N <= p -> bit s' p = false) /\
              (forall q, 0 <= q < N -> bit s' q = negb (bit s q))) /\
  (length (reset_all s) = length s /\
   wf N (reset_all s) = true /\ canonical N (reset_all s) = true /\
   (forall p, N <= p -> bit (reset_all s) p = false) /\
   (forall q, 0 <= q < N -> bit (reset_all s) q = false)).
Proof.
  intros HN Hlen. pose proof HN as [HN0 HN1]. split; [| split].
  - destruct (set_all_bits N s HN Hlen) as (s' & E & Hwf & Hc & Hbits).
    exists s'. split; [exact E |]. split.
    { apply wf_iff in Hwf. destruct Hwf as [Hl _]. lia. }
    split; [exact Hwf |]. split; [exact Hc |]. split.
    + intros p Hp. rewrite Hbits by lia. destruct (Z.ltb_spec p N); [lia | reflexivity].
    + intros q Hq. rewrite Hbits by lia. destruct (Z.ltb_spec q N); [reflexivity | lia].
  - destruct (flip_bits N s HN Hlen) as (s' & E & Hwf & Hc & Hbits).
    exists s'. split; [exact E |]. split.
    { apply wf_iff in Hwf. destruct Hwf as [Hl _]. lia. }
    split; [exact Hwf |]. split; [exact Hc |]. split.
    + intros p Hp. rewrite Hbits by lia. destruct (Z.ltb_spec p N); [lia | reflexivity].
    + intros q Hq. rewrite Hbits by lia. destruct (Z.ltb_spec q N); [reflexivity | lia].
  - pose proof (none_bits _ (none_reset_all s)) as Hzero.
    split; [unfold reset_all; apply length_map |].
    split; [now apply wf_reset_all |]. split; [apply reset_all_canonical |].
    split; intros p _; apply Hzero.
Qed.

(** The state of a release-build [BitSet<5>] constructed from [0xff], whose
    three padding bits are set, is repaired by each bulk modifier. *)
Lemma bulk_modifiers_establish_canonical_witness :
  size_ok 5 /\ Z.of_nat (length [255]) = NUM_CHUNKS 5 /\
  canonical 5 [255] = false /\
  (exists s', set_all 5 [255] = Ok s' /\
              length s' = length [255] /\ wf 5 s' = true /\ canonical 5 s' = true /\
              (forall p, 5 <= p -> bit s' p = false) /\
              (forall q, 0 <= q < 5 -> bit s' q = true)) /\
  (exists s', flip 5 [255] = Ok s' /\
              length s' = length [255] /\ wf 5 s' = true /\ canonical 5 s' = true /\
              (forall p, 5 <= p -> bit s' p = false) /\
              (forall q, 0 <= q < 5 -> bit s' q = negb (bit [255] q))) /\
  (length (reset_all [255]) = length [255] /\
   wf 5 (reset_all [255]) = true /\ canonical 5 (reset_all [255]) = true /\
   (forall p, 5 <= p -> bit (reset_all [255]) p = false) /\
   (forall q, 0 <= q < 5 -> bit (reset_all [255]) q = false)).
Proof.
  assert (size_ok 5) as HN by size_ok_lit.
  assert (Z.of_nat (length [255]) = NUM_CHUNKS 5) as Hlen by reflexivity.
  split; [exact HN |]. split; [exact Hlen |]. split; [reflexivity |].
  exact (bulk_modifiers_establish_canonical 5 [255] HN Hlen).
Defined.

(** ** Counting bits *)

Lemma popcount_div2 x :
  0 <= x -> Std.popcount x = Z.b2z (Z.odd x) + Std.popcount (Z.div2 x).
Proof.
  intros Hx. destruct x as [| p | p]; [reflexivity | | lia].
  destruct p; cbn; lia.
Qed.

Lemma count_true_ext f g lo lo' n :
  (forall i, 0 <= i < Z.of_nat n -> f (lo + i) = g (lo' + i)) ->
  count_true f lo n = count_true g lo' n.
Proof.
  revert lo lo'. induction n as [| n IH]; intros lo lo' H; [reflexivity |].
  cbn [count_true]. rewrite (IH (lo + 1) (lo' + 1)).
  - specialize (H 0 ltac:(lia)). rewrite !Z.add_0_r in H. now rewrite H.
  - intros i Hi. specialize (H (1 + i) ltac:(lia)).
    now rewrite !Z.add_assoc in H.
Qed.

Lemma count_true_app f lo n m :
  count_true f lo (n + m) = count_true f lo n + count_true f (lo + Z.of_nat n) m.
Proof.
  revert lo. induction n as [| n IH]; intros lo.
  - cbn. now rewrite Z.add_0_r.
  - cbn [Nat.add count_true]. rewrite IH.
    replace (lo + 1 + Z.of_nat n) with (lo + Z.of_nat (S n)) by lia. lia.
Qed.

Lemma count_true_range f lo n : 0 <= count_true f lo n <= Z.of_nat n.
Proof.
  revert lo. induction n as [| n IH]; intros lo; [cbn; lia |].
  cbn [count_true]. specialize (IH (lo + 1)). destruct (f lo); cbn [Z.b2z]; lia.
Qed.

Lemma count_true_const f lo n (v : bool) :
  (forall i, 0 <= i < Z.of_nat n -> f (lo + i) = v) ->
  count_true f lo n = if v then Z.of_nat n else 0.
Proof.
  revert lo. induction n as [| n IH]; intros lo H; [now destruct v |].
  cbn [count_true]. rewrite (IH (lo + 1)).
  - specialize (H 0 ltac:(lia)). rewrite Z.add_0_r in H. rewrite H.
    destruct v; cbn [Z.b2z]; lia.
  - intros i Hi. specialize (H (1 + i) ltac:(lia)). now rewrite Z.add_assoc in H.
Qed.

Lemma count_true_negb f g lo n :
  (forall i, 0 <= i < Z.of_nat n -> g (lo + i) = negb (f (lo + i))) ->
  count_true g lo n = Z.of_nat n - count_true f lo n.
Proof.
  revert lo. induction n as [| n IH]; intros lo H; [reflexivity |].
  cbn [count_true]. rewrite (IH (lo + 1)).
  - specialize (H 0 ltac:(lia)). rewrite Z.add_0_r in H. rewrite H.
    destruct (f lo); cbn [Z.b2z negb]; lia.
  - intros i Hi. specialize (H (1 + i) ltac:(lia)). now rewrite !Z.add_assoc in H.
Qed.

(** [std::popcount] of an [n]-bit value counts its 1 bits. *)
Lemma popcount_count n w :
  0 <= w < 2 ^ Z.of_nat n -> Std.popcount w = count_true (Z.testbit w) 0 n.
Proof.
  revert w. induction n as [| n IH]; intros w Hw.
  - cbn in Hw. assert (w = 0) as -> by lia. reflexivity.
  - cbn [count_true]. rewrite popcount_div2, Z.bit0_odd by lia. f_equal.
    rewrite IH.
    + apply count_true_ext. intros i Hi.
      rewrite Z.add_0_l, Z.div2_div, Z.div2_bits by lia. f_equal. lia.
    + rewrite Nat2Z.inj_succ, Z.pow_succ_r in Hw by lia.
      rewrite Z.div2_div. split; [apply Z.div_pos; lia |].
      apply Z.div_lt_upper_bound; lia.
Qed.

Lemma run_sum_popcount (l : list Z) :
  Forall (fun w => 0 <= w < 2 ^ 64) l ->
  run_sum Std.popcount l = count_true (bit l) 0 (64 * length l).
Proof.
  induction 1 as [| w l Hw Hl IH]; [reflexivity |].
  cbn [run_sum fold_right length]. fold (run_sum Std.popcount l).
  replace (64 * S (length l))%nat with (64 + 64 * length l)%nat by lia.
  rewrite count_true_app, IH. f_equal.
  - rewrite (popcount_count 64 w Hw). apply count_true_ext. intros i Hi.
    rewrite Z.add_0_l, bit_cons by lia.
    destruct (Z.ltb_spec i 64); [reflexivity | lia].
  - apply count_true_ext. intros i Hi. change (Z.of_nat 64) with 64.
    rewrite bit_cons by lia.
    destruct (Z.ltb_spec (0 + 64 + i) 64); [lia |]. f_equal. lia.
Qed.

Lemma wf_words_64 N (s : list Z) :
  wf N s = true -> Forall (fun w => 0 <= w < 2 ^ 64) s.
Proof.
  intros Hwf. apply wf_iff in Hwf. destruct Hwf as [_ Hall].
  eapply Forall_impl; [exact Hall |]. intros w Hw. cbn beta in Hw.
  apply word_ok_iff in Hw. pose proof (Inner_bits_le N).
  pose proof (Z.pow_le_mono_r 2 (Inner_bits N) 64 ltac:(lia) ltac:(lia)). lia.
Qed.

(** In canonical form the population counts of the words add up to the
    number of 1 bits below [N]. *)
Lemma run_sum_ones_below N (s : list Z) :
  size_ok N -> wf N s = true -> canonical N s = true ->
  run_sum Std.popcount s = ones_below N s.
Proof.
  intros HN Hwf Hc.
  assert (Z.of_nat (length s) = NUM_CHUNKS N) as Hlen by (apply wf_iff in Hwf; tauto).
  destruct (chunks_live N HN) as [HNC HNeq]. pose proof (live_bits_range N) as Hlive.
  rewrite (run_sum_popcount s (wf_words_64 N s Hwf)). unfold ones_below.
  replace (64 * length s)%nat with (Z.to_nat N + (64 * length s - Z.to_nat N))%nat by lia.
  rewrite count_true_app.
  rewrite (count_true_const (bit s) (0 + Z.of_nat (Z.to_nat N)) _ false);
    [cbv iota; lia |].
  intros i Hi. apply (canonical_padding N s HN Hlen Hc). lia.
Qed.

Lemma count_run_sum (s : list Z) :
  run_sum Std.popcount s < 2 ^ 31 -> count s = run_sum Std.popcount s.
Proof.
  intros Hlt. unfold count. rewrite count_fold by lia.
  assert (0 <= run_sum Std.popcount s).
  { clear. induction s as [| y l IH]; cbn; [lia |]. pose proof (popcount_nonneg y).
    unfold run_sum in IH. lia. }
  apply size_t_small. rewrite pow2_64. lia.
Qed.

Lemma count_ones_below N (s : list Z) :
  size_ok N -> N < 2 ^ 31 -> wf N s = true -> canonical N s = true ->
  count s = ones_below N s.
Proof.
  intros HN Hsmall Hwf Hc. rewrite <- (run_sum_ones_below N s HN Hwf Hc).
  apply count_run_sum. rewrite (run_sum_ones_below N s HN Hwf Hc).
  unfold ones_below. pose proof (count_true_range (bit s) 0 (Z.to_nat N)).
  destruct HN. lia.
Qed.

(** ** The scans as functions of the bits *)

Lemma first_one_lowest N (s : list Z) :
  size_ok N -> wf N s = true -> canonical N s = true ->
  0 <= first_one N s <= N /\
  (forall j, 0 <= j < first_one N s -> bit s j = false) /\
  (first_one N s < N -> bit s (first_one N s) = true).
Proof.
  intros HN Hwf Hc.
  assert (Z.of_nat (length s) = NUM_CHUNKS N) as Hlen by (apply wf_iff in Hwf; tauto).
  pose proof (countr_zero_counts (Inner_bits N) (Inner_bits_nonneg N)) as Hrun.
  pose proof (capacity_ge N HN) as Hcap.
  pose proof (canonical_padding N s HN Hlen Hc) as Hpad.
  unfold first_one.
  destruct (scan_spec N false _ Hrun s HN Hlen)
    as [[-> Hall] | (k & -> & Hk & Hbit & Hbelow)].
  - destruct HN as [HN0 _]. repeat split; try lia. intros j Hj. apply Hall. lia.
  - assert (k < N) as HkN.
    { destruct (Z.lt_ge_cases k N) as [Hlt | Hge]; [assumption |].
      rewrite (Hpad k Hge) in Hbit. discriminate. }
    repeat split; try lia; [exact Hbelow | intros _; exact Hbit].
Qed.

Lemma first_zero_lowest N (s : list Z) :
  size_ok N -> wf N s = true -> canonical N s = true ->
  0 <= first_zero N s <= N /\
  (forall j, 0 <= j < first_zero N s -> bit s j = true) /\
  (first_zero N s < N -> bit s (first_zero N s) = false).
Proof.
  intros HN Hwf Hc.
  assert (Z.of_nat (length s) = NUM_CHUNKS N) as Hlen by (apply wf_iff in Hwf; tauto).
  pose proof (countr_one_counts (Inner_bits N) (Inner_bits_nonneg N)) as Hrun.
  pose proof (capacity_ge N HN) as Hcap.
  pose proof (canonical_padding N s HN Hlen Hc) as Hpad.
  unfold first_zero.
  destruct (scan_spec N true _ Hrun s HN Hlen)
    as [[-> Hall] | (k & -> & Hk & Hbit & Hbelow)].
  - destruct HN as [HN0 _]. repeat split; try lia. intros j Hj. apply Hall. lia.
  - assert (k <= N) as HkN.
    { destruct (Z.le_gt_cases k N) as [Hle | Hgt]; [assumption |].
      destruct HN as [HN0 _].
      specialize (Hbelow N ltac:(lia)). rewrite (Hpad N ltac:(lia)) in Hbelow.
      discriminate. }
    repeat split; try lia; [exact Hbelow | intros _; exact Hbit].
Qed.

(** The lowest position, up to [N], at which [f] is not [v] is unique. *)
Lemma lowest_unique (f : Z -> bool) (v : bool) N r p :
  0 <= r <= N -> 0 <= p <= N ->
  (forall j, 0 <= j < r -> f j = v) -> (r < N -> f r = negb v) ->
  (forall j, 0 <= j < p -> f j = v) -> (p < N -> f p = negb v) ->
  r = p.
Proof.
  intros Hr Hp Hr1 Hr2 Hp1 Hp2.
  destruct (Z.lt_trichotomy r p) as [Hlt | [E | Hgt]]; [| exact E |].
  - specialize (Hr2 ltac:(lia)). rewrite (Hp1 r ltac:(lia)) in Hr2. now destruct v.
  - specialize (Hp2 ltac:(lia)). rewrite (Hr1 p ltac:(lia)) in Hp2. now destruct v.
Qed.

Lemma first_one_unique N (s : list Z) p :
  size_ok N -> wf N s = true -> canonical N s = true ->
  0 <= p <= N -> (forall j, 0 <= j < p -> bit s j = false) ->
  (p < N -> bit s p = true) -> first_one N s = p.
Proof.
  intros HN Hwf Hc Hp Hlow Hhit.
  destruct (first_one_lowest N s HN Hwf Hc) as (Hr & Hr1 & Hr2).
  now apply (lowest_unique (bit s) false N).
Qed.

Lemma first_zero_unique N (s : list Z) p :
  size_ok N -> wf N s = true -> canonical N s = true ->
  0 <= p <= N -> (forall j, 0 <= j < p -> bit s j = true) ->
  (p < N -> bit s p = false) -> first_zero N s = p.
Proof.
  intros HN Hwf Hc Hp Hlow Hhit.
  destruct (first_zero_lowest N s HN Hwf Hc) as (Hr & Hr1 & Hr2).
  now apply (lowest_unique (bit s) true N).
Qed.

(** ** Accessors on a well-formed state *)

Lemma test_returns b N (s : list Z) pos :
  size_ok N -> wf N s = true -> 0 <= pos < N ->
  exists r, test b N s pos = Ok r /\
    (N <= 64 -> r = bit s pos) /\
    (64 < N -> (r = true <-> exists q, pos <= q < 64 * (pos / 64 + 1) /\ bit s q = true)).
Proof.
  intros HN Hwf Hpos. destruct (Z.le_gt_cases N 64) as [Hle | Hgt].
  - destruct (index_single_word b N s pos HN Hle Hwf Hpos) as [_ E].
    exists (bit s pos). split; [exact E |]. split; [reflexivity | lia].
  - destruct (index_multi_word b N s pos HN ltac:(lia) Hwf Hpos) as (r & E & Hr).
    exists r. split; [exact E |]. split; [lia | intros _; exact Hr].
Qed.

(** * Properties of the members, one by one *)

(** ** Modifiers *)

(** X1. [set(pos)] with [pos < N] returns in either build and leaves a
    well-formed state in which the bit at [pos] is 1 and every other bit,
    padding included, is what it was. *)
Theorem set_sets_one_bit b N (s : list Z) pos :
  size_ok N -> wf N s = true -> 0 <= pos < N ->
  exists s',
    set b N s pos true = Ok s' /\ wf N s' = true /\
    bit s' pos = true /\
    (forall q, 0 <= q -> q <> pos -> bit s' q = bit s q) /\
    (canonical N s = true -> canonical N s' = true).
Proof.
  intros HN Hwf Hpos.
  destruct (set_bits b N s pos HN Hwf Hpos) as (s' & E & Hwf' & Hbits).
  exists s'. split; [exact E |]. split; [exact Hwf' |]. repeat split.
  - rewrite Hbits, Z.eqb_refl by lia. apply orb_true_r.
  - intros q Hq Hne. rewrite Hbits by lia.
    destruct (Z.eqb_spec q pos); [contradiction | apply orb_false_r].
  - intros Hc. destruct (set_preserves b N s pos true HN Hwf Hc Hpos) as (s'' & E' & _ & Hc').
    rewrite E in E'. now injection E' as ->.
Qed.

Lemma set_sets_one_bit_witness :
  size_ok 70 /\ wf 70 [5; 33] = true /\ 0 <= 66 < 70 /\
  exists s',
    set Release 70 [5; 33] 66 true = Ok s' /\ wf 70 s' = true /\
    bit s' 66 = true /\
    (forall q, 0 <= q -> q <> 66 -> bit s' q = bit [5; 33] q) /\
    (canonical 70 [5; 33] = true -> canonical 70 s' = true).
Proof.
  assert (size_ok 70) as HN by size_ok_lit.
  assert (wf 70 [5; 33] = true) as Hwf by reflexivity.
  assert (0 <= 66 < 70) as Hpos by lia.
  repeat (split; [assumption |]).
  exact (set_sets_one_bit Release 70 [5; 33] 66 HN Hwf Hpos).
Defined.

(** X2. [reset(pos)] with [pos < N] returns in either build and leaves a
    well-formed state in which the bit at [pos] is 0 and every other bit
    below [N] is what it was; [set(pos, false)] is the same call.  On a state
    in canonical form no other bit changes at all. *)
Theorem reset_clears_one_bit b N (s : list Z) pos :
  size_ok N -> wf N s = true -> 0 <= pos < N ->
  exists s',
    reset b N s pos = Ok s' /\ set b N s pos false = Ok s' /\ wf N s' = true /\
    bit s' pos = false /\
    (forall q, 0 <= q < N -> q <> pos -> bit s' q = bit s q) /\
    (canonical N s = true ->
     canonical N s' = true /\ forall q, 0 <= q -> q <> pos -> bit s' q = bit s q).
Proof.
  intros HN Hwf Hpos.
  assert (Z.of_nat (length s) = NUM_CHUNKS N) as Hlen by (apply wf_iff in Hwf; tauto).
  destruct (reset_bits b N s pos HN Hwf Hpos) as (s' & E & Hwf' & Hlow & Hhigh).
  exists s'. split; [exact E |]. split.
  { unfold set. destruct (Z.ltb_spec pos N); [| lia].
    rewrite BITSET_ASSERT_true. exact E. }
  split; [exact Hwf' |].
  assert (forall q, 0 <= q < N -> q <> pos -> bit s' q = bit s q) as Hother.
  { intros q Hq Hne. rewrite Hlow by lia.
    destruct (Z.eqb_spec q pos); [contradiction | apply andb_true_r]. }
  repeat split.
  - rewrite Hlow, Z.eqb_refl by lia. apply andb_false_r.
  - exact Hother.
  - destruct (reset_preserves b N s pos HN Hwf H Hpos) as (s'' & E' & _ & Hc').
    rewrite E in E'. now injection E' as ->.
  - intros q Hq Hne. destruct (Z.lt_ge_cases q N) as [Hlt | Hge]; [apply Hother; lia |].
    rewrite Hhigh, (canonical_padding N s HN Hlen H q Hge) by lia.
    now destruct (pos / 64 =? NUM_CHUNKS N - 1).
Qed.

Lemma reset_clears_one_bit_witness :
  size_ok 70 /\ wf 70 [5; 33] = true /\ 0 <= 64 < 70 /\
  exists s',
    reset Debug 70 [5; 33] 64 = Ok s' /\ set Debug 70 [5; 33] 64 false = Ok s' /\
    wf 70 s' = true /\ bit s' 64 = false /\
    (forall q, 0 <= q < 70 -> q <> 64 -> bit s' q = bit [5; 33] q) /\
    (canonical 70 [5; 33] = true ->
     canonical 70 s' = true /\
     forall q, 0 <= q -> q <> 64 -> bit s' q = bit [5; 33] q).
Proof.
  assert (size_ok 70) as HN by size_ok_lit.
  assert (wf 70 [5; 33] = true) as Hwf by reflexivity.
  assert (0 <= 64 < 70) as Hpos by lia.
  repeat (split; [assumption |]).
  exact (reset_clears_one_bit Debug 70 [5; 33] 64 HN Hwf Hpos).
Defined.

(** X3. [flip()] returns from any storage content and complements exactly
    the bits below [N]: afterwards bit [q] is the negation of what it was for
    [q < N] and 0 for [q >= N]. *)
Theorem flip_complements N (s : list Z) :
  size_ok N -> Z.of_nat (length s) = NUM_CHUNKS N ->
  exists s',
    flip N s = Ok s' /\ wf N s' = true /\
    (forall q, 0 <= q < N -> bit s' q = negb (bit s q)) /\
    (forall q, N <= q -> bit s' q = false).
Proof.
  intros HN Hlen.
  destruct (flip_bits N s HN Hlen) as (s' & E & Hwf & _ & Hbits).
  destruct HN as [HN0 HN1].
  exists s'. repeat split; try assumption.
  - intros q Hq. rewrite Hbits by lia. destruct (Z.ltb_spec q N); [reflexivity | lia].
  - intros q Hq. rewrite Hbits by lia. destruct (Z.ltb_spec q N); [lia | reflexivity].
Qed.

Lemma flip_complements_witness :
  size_ok 5 /\ Z.of_nat (length [255]) = NUM_CHUNKS 5 /\
  exists s',
    flip 5 [255] = Ok s' /\ wf 5 s' = true /\
    (forall q, 0 <= q < 5 -> bit s' q = negb (bit [255] q)) /\
    (forall q, 5 <= q -> bit s' q = false).
Proof.
  assert (size_ok 5) as HN by size_ok_lit.
  assert (Z.of_nat (length [255]) = NUM_CHUNKS 5) as Hlen by reflexivity.
  repeat (split; [assumption |]).
  exact (flip_complements 5 [255] HN Hlen).
Defined.

(** ** [count()] *)

Lemma wrap32_wrap64 x : wrap 32 (wrap 64 x) = wrap 32 x.
Proof.
  unfold wrap. rewrite (Z.mod_eq x (2 ^ 64)) by lia.
  replace (x - 2 ^ 64 * (x / 2 ^ 64)) with (x + (- (2 ^ 32 * (x / 2 ^ 64))) * 2 ^ 32)
    by (change (2 ^ 64) with (2 ^ 32 * 2 ^ 32); lia).
  now rewrite Z.mod_add by lia.
Qed.

Lemma int_congr x y : wrap 32 x = wrap 32 y -> int x = int y.
Proof. intros H. unfold int. now rewrite H. Qed.

Lemma wrap32_int x : wrap 32 (int x) = wrap 32 x.
Proof.
  unfold int. pose proof (wrap_range 32 x ltac:(lia)) as Hr.
  destruct (Z.ltb_spec (wrap 32 x) (2 ^ 31)).
  - apply wrap_small. exact Hr.
  - unfold wrap at 1. replace (wrap 32 x - 2 ^ 32) with (wrap 32 x + (-1) * 2 ^ 32) by lia.
    rewrite Z.mod_add by lia. fold (wrap 32 (wrap 32 x)). apply wrap_small. exact Hr.
Qed.

Lemma wrap32_add x y p : wrap 32 x = wrap 32 y -> wrap 32 (x + p) = wrap 32 (y + p).
Proof.
  unfold wrap. intros H. rewrite (Z.add_mod x), (Z.add_mod y) by lia. now rewrite H.
Qed.

(** The accumulator of [count()] is the total population count, converted
    to [int] at every step. *)
Lemma count_fold_int (l : list Z) acc z :
  acc = int z ->
  fold_left (fun acc val => int (size_t (size_t acc + Std.popcount val))) l acc
  = int (z + run_sum Std.popcount l).
Proof.
  revert acc z. induction l as [| x l IH]; intros acc z ->.
  - cbn. now rewrite Z.add_0_r.
  - cbn [fold_left run_sum fold_right]. fold (run_sum Std.popcount l).
    rewrite (IH _ (z + Std.popcount x)).
    + f_equal. lia.
    + apply int_congr. unfold size_t. rewrite wrap32_wrap64.
      apply wrap32_add. rewrite wrap32_wrap64. apply wrap32_int.
Qed.

Lemma count_int (s : list Z) : count s = size_t (int (run_sum Std.popcount s)).
Proof. unfold count. now rewrite (count_fold_int s 0 0 eq_refl). Qed.

(** X4. [count()] is the number of 1 bits below [N], passed through the
    [int] accumulator of [std::accumulate]: on a state in canonical form it
    returns that number converted to [int] and back to [size_t].  It is the
    exact number whenever fewer than [2^31] bits are set, and it is off by
    [2^64 - 2^32] when between [2^31] and [2^32] bits are set. *)
Theorem count_counts_ones N (s : list Z) :
  size_ok N -> wf N s = true -> canonical N s = true ->
  count s = size_t (int (ones_below N s)) /\
  0 <= ones_below N s <= N /\
  (ones_below N s < 2 ^ 31 -> count s = ones_below N s) /\
  (2 ^ 31 <= ones_below N s < 2 ^ 32 ->
   count s = ones_below N s + (2 ^ 64 - 2 ^ 32)).
Proof.
  intros HN Hwf Hc. rewrite count_int, (run_sum_ones_below N s HN Hwf Hc).
  pose proof (count_true_range (bit s) 0 (Z.to_nat N)) as Hr.
  fold (ones_below N s) in Hr. destruct HN as [HN0 HN1].
  split; [reflexivity |]. split; [lia |]. split.
  - intros Hlt. rewrite int_small by lia. apply size_t_small. rewrite pow2_64. lia.
  - intros Hbig. unfold int. rewrite (wrap_small 32) by lia.
    destruct (Z.ltb_spec (ones_below N s) (2 ^ 31)); [lia |].
    unfold size_t, wrap.
    replace (ones_below N s - 2 ^ 32)
      with (ones_below N s + (2 ^ 64 - 2 ^ 32) + (-1) * 2 ^ 64) by lia.
    rewrite Z.mod_add by lia. apply Z.mod_small. lia.
Qed.

Lemma count_counts_ones_witness :
  size_ok 70 /\ wf 70 [5; 33] = true /\ canonical 70 [5; 33] = true /\
  count [5; 33] = size_t (int (ones_below 70 [5; 33])) /\
  0 <= ones_below 70 [5; 33] <= 70 /\
  (ones_below 70 [5; 33] < 2 ^ 31 -> count [5; 33] = ones_below 70 [5; 33]) /\
  (2 ^ 31 <= ones_below 70 [5; 33] < 2 ^ 32 ->
   count [5; 33] = ones_below 70 [5; 33] + (2 ^ 64 - 2 ^ 32)).
Proof.
  assert (size_ok 70) as HN by size_ok_lit.
  assert (wf 70 [5; 33] = true) as Hwf by reflexivity.
  assert (canonical 70 [5; 33] = true) as Hc by reflexivity.
  repeat (split; [assumption |]).
  exact (count_counts_ones 70 [5; 33] HN Hwf Hc).
Defined.

Lemma ones_below_const N (s : list Z) (v : bool) :
  0 <= N -> (forall q, 0 <= q < N -> bit s q = v) ->
  ones_below N s = if v then N else 0.
Proof.
  intros HN H. unfold ones_below. rewrite (count_true_const (bit s) 0 _ v).
  - destruct v; lia.
  - intros i Hi. apply H. lia.
Qed.

(** One position changes from [false] to [true]: the count grows by one. *)
Lemma count_true_set f g lo n pos :
  lo <= pos < lo + Z.of_nat n -> f pos = false ->
  (forall i, lo <= i < lo + Z.of_nat n -> g i = f i || (i =? pos)) ->
  count_true g lo n = count_true f lo n + 1.
Proof.
  revert lo. induction n as [| n IH]; intros lo Hpos Hf Hg; [lia |].
  cbn [count_true]. destruct (Z.eq_dec lo pos) as [-> | Hne].
  - rewrite (Hg pos ltac:(lia)), Hf, Z.eqb_refl. cbn [orb Z.b2z].
    rewrite (count_true_ext g f (pos + 1) (pos + 1) n); [lia |].
    intros i Hi. rewrite Hg by lia.
    destruct (Z.eqb_spec (pos + 1 + i) pos); [lia | apply orb_false_r].
  - rewrite (IH (lo + 1)) by (try assumption; try lia; intros i Hi; apply Hg; lia).
    rewrite (Hg lo ltac:(lia)).
    destruct (Z.eqb_spec lo pos); [contradiction |]. rewrite orb_false_r. lia.
Qed.

(** ** The bulk modifiers, observed through the accessors *)

(** X5. After [set()], from any storage content: every bit below [N] is 1
    and every bit from [N] on is 0, [all()] and [any()] are true, [none()] is
    false, [first_one()] is 0, [first_zero()] is [N], and [count()] is [N]
    when [N < 2^31]. *)
Theorem set_all_observed N (s : list Z) :
  size_ok N -> Z.of_nat (length s) = NUM_CHUNKS N ->
  exists s',
    set_all N s = Ok s' /\
    (forall q, 0 <= q -> bit s' q = (q <? N)) /\
    all N s' = true /\ any s' = true /\ none s' = false /\
    first_one N s' = 0 /\ first_zero N s' = N /\
    (N < 2 ^ 31 -> count s' = N).
Proof.
  intros HN Hlen.
  destruct (set_all_bits N s HN Hlen) as (s' & E & Hwf & Hc & Hbits).
  pose proof HN as [HN0 HN1].
  assert (forall q, 0 <= q < N -> bit s' q = true) as Hones.
  { intros q Hq. rewrite Hbits by lia. destruct (Z.ltb_spec q N); [reflexivity | lia]. }
  assert (all N s' = true) as Hall by (apply (all_iff_bits N s' HN Hwf Hc); exact Hones).
  pose proof (all_any N s' Hall) as Hany.
  exists s'. split; [exact E |]. split; [exact Hbits |]. split; [exact Hall |].
  split; [exact Hany |]. split; [| split; [| split]].
  - rewrite any_negb_none in Hany. now destruct (none s').
  - apply (first_one_unique N s' 0 HN Hwf Hc); [lia | intros j Hj; lia |].
    intros _. apply Hones. lia.
  - apply (first_zero_unique N s' N HN Hwf Hc); [lia | exact Hones | lia].
  - intros Hsmall. rewrite (count_ones_below N s' HN Hsmall Hwf Hc).
    now rewrite (ones_below_const N s' true) by (try lia; exact Hones).
Qed.

Lemma set_all_observed_witness :
  size_ok 70 /\ Z.of_nat (length [5; 33]) = NUM_CHUNKS 70 /\
  exists s',
    set_all 70 [5; 33] = Ok s' /\
    (forall q, 0 <= q -> bit s' q = (q <? 70)) /\
    all 70 s' = true /\ any s' = true /\ none s' = false /\
    first_one 70 s' = 0 /\ first_zero 70 s' = 70 /\
    (70 < 2 ^ 31 -> count s' = 70).
Proof.
  assert (size_ok 70) as HN by size_ok_lit.
  assert (Z.of_nat (length [5; 33]) = NUM_CHUNKS 70) as Hlen by reflexivity.
  repeat (split; [assumption |]).
  exact (set_all_observed 70 [5; 33] HN Hlen).
Defined.

(** X6. After [reset()], from any storage content, and likewise in a
    default-constructed object: the storage is [NUM_CHUNKS] zero words, every
    bit is 0, [none()] is true, [any()] and [all()] are false, [count()] is
    0, [first_one()] is [N] and [first_zero()] is 0. *)
Theorem reset_all_observed N (s : list Z) :
  size_ok N -> Z.of_nat (length s) = NUM_CHUNKS N ->
  reset_all s = BitSet_default N /\
  wf N (reset_all s) = true /\ canonical N (reset_all s) = true /\
  (forall q, bit (reset_all s) q = false) /\
  none (reset_all s) = true /\ any (reset_all s) = false /\
  all N (reset_all s) = false /\ count (reset_all s) = 0 /\
  first_one N (reset_all s) = N /\ first_zero N (reset_all s) = 0.
Proof.
  intros HN Hlen. pose proof HN as [HN0 HN1].
  pose proof (wf_reset_all N s Hlen) as Hwf.
  pose proof (reset_all_canonical N s) as Hc.
  pose proof (none_reset_all s) as Hnone.
  pose proof (none_bits _ Hnone) as Hbits.
  pose proof (any_negb_none (reset_all s)) as Hany. rewrite Hnone in Hany.
  split; [| repeat (split; [assumption |])].
  { unfold BitSet_default, reset_all. rewrite <- Hlen, Nat2Z.id.
    clear. induction s as [| x s IH]; cbn; [reflexivity | now rewrite IH]. }
  split; [| split; [| split]].
  - destruct (all N (reset_all s)) eqn:Hall; [| reflexivity].
    apply all_any in Hall. rewrite Hany in Hall. discriminate.
  - rewrite count_int. unfold reset_all. now rewrite run_sum_zeros.
  - apply (first_one_unique N _ N HN Hwf Hc); [lia | intros j _; apply Hbits | lia].
  - apply (first_zero_unique N _ 0 HN Hwf Hc); [lia | intros j Hj; lia |].
    intros _. apply Hbits.
Qed.

Lemma reset_all_observed_witness :
  size_ok 70 /\ Z.of_nat (length [5; 255]) = NUM_CHUNKS 70 /\
  reset_all [5; 255] = BitSet_default 70 /\
  wf 70 (reset_all [5; 255]) = true /\ canonical 70 (reset_all [5; 255]) = true /\
  (forall q, bit (reset_all [5; 255]) q = false) /\
  none (reset_all [5; 255]) = true /\ any (reset_all [5; 255]) = false /\
  all 70 (reset_all [5; 255]) = false /\ count (reset_all [5; 255]) = 0 /\
  first_one 70 (reset_all [5; 255]) = 70 /\ first_zero 70 (reset_all [5; 255]) = 0.
Proof.
  assert (size_ok 70) as HN by size_ok_lit.
  assert (Z.of_nat (length [5; 255]) = NUM_CHUNKS 70) as Hlen by reflexivity.
  repeat (split; [assumption |]).
  exact (reset_all_observed 70 [5; 255] HN Hlen).
Defined.

(** ** How the modifiers compose *)

(** X7. In canonical form and with [N < 2^31]: [flip()] turns a count of
    [c] into [N - c]; [set(pos)] on a clear bit adds one to the count and
    [reset(pos)] on a set bit takes one away. *)
Theorem count_after_modifiers b N (s : list Z) pos :
  size_ok N -> N < 2 ^ 31 -> wf N s = true -> canonical N s = true ->
  0 <= pos < N ->
  (exists s', flip N s = Ok s' /\ count s' = N - count s) /\
  (exists s', set b N s pos true = Ok s' /\
              count s' = if bit s pos then count s else count s + 1) /\
  (exists s', reset b N s pos = Ok s' /\
              count s' = if bit s pos then count s - 1 else count s).
Proof.
  intros HN Hsmall Hwf Hc Hpos. pose proof HN as [HN0 HN1].
  assert (Z.of_nat (length s) = NUM_CHUNKS N) as Hlen by (apply wf_iff in Hwf; tauto).
  rewrite !(count_ones_below N s HN Hsmall Hwf Hc).
  split; [| split].
  - destruct (flip_bits N s HN Hlen) as (s' & E & Hwf' & Hc' & Hbits).
    exists s'. split; [exact E |].
    rewrite (count_ones_below N s' HN Hsmall Hwf' Hc'). unfold ones_below.
    rewrite (count_true_negb (bit s) (bit s')); [lia |].
    intros i Hi. rewrite Hbits by lia.
    destruct (Z.ltb_spec (0 + i) N); [reflexivity | lia].
  - destruct (set_bits b N s pos HN Hwf Hpos) as (s' & E & Hwf' & Hbits).
    destruct (set_preserves b N s pos true HN Hwf Hc Hpos) as (s'' & E' & _ & Hc').
    rewrite E in E'. injection E' as <-.
    exists s'. split; [exact E |].
    rewrite (count_ones_below N s' HN Hsmall Hwf' Hc'). unfold ones_below.
    destruct (bit s pos) eqn:Hb.
    + apply count_true_ext. intros i Hi. rewrite Hbits by lia.
      destruct (Z.eqb_spec (0 + i) pos) as [-> | _]; [now rewrite Hb | apply orb_false_r].
    + apply (count_true_set (bit s) (bit s') 0 _ pos); [lia | exact Hb |].
      intros i Hi. apply Hbits. lia.
  - destruct (reset_bits b N s pos HN Hwf Hpos) as (s' & E & Hwf' & Hlow & _).
    destruct (reset_preserves b N s pos HN Hwf Hc Hpos) as (s'' & E' & _ & Hc').
    rewrite E in E'. injection E' as <-.
    exists s'. split; [exact E |].
    rewrite (count_ones_below N s' HN Hsmall Hwf' Hc'). unfold ones_below.
    destruct (bit s pos) eqn:Hb.
    + rewrite (count_true_set (bit s') (bit s) 0 _ pos); [lia | lia | |].
      * rewrite Hlow, Z.eqb_refl by lia. apply andb_false_r.
      * intros i Hi. rewrite Hlow by lia.
        destruct (Z.eqb_spec i pos) as [-> | _]; [now rewrite Hb | bool_norm].
    + apply count_true_ext. intros i Hi. rewrite Hlow by lia.
      destruct (Z.eqb_spec (0 + i) pos) as [-> | _]; [now rewrite Hb | bool_norm].
Qed.

Lemma count_after_modifiers_witness :
  size_ok 70 /\ 70 < 2 ^ 31 /\ wf 70 [5; 33] = true /\
  canonical 70 [5; 33] = true /\ 0 <= 1 < 70 /\
  (exists s', flip 70 [5; 33] = Ok s' /\ count s' = 70 - count [5; 33]) /\
  (exists s', set Debug 70 [5; 33] 1 true = Ok s' /\
              count s' = if bit [5; 33] 1 then count [5; 33] else count [5; 33] + 1) /\
  (exists s', reset Debug 70 [5; 33] 1 = Ok s' /\
              count s' = if bit [5; 33] 1 then count [5; 33] - 1 else count [5; 33]).
Proof.
  assert (size_ok 70) as HN by size_ok_lit.
  assert (70 < 2 ^ 31) as Hsmall by lia.
  assert (wf 70 [5; 33] = true) as Hwf by reflexivity.
  assert (canonical 70 [5; 33] = true) as Hc by reflexivity.
  assert (0 <= 1 < 70) as Hpos by lia.
  repeat (split; [assumption |]).
  exact (count_after_modifiers Debug 70 [5; 33] 1 HN Hsmall Hwf Hc Hpos).
Defined.

(** X8. On a state in canonical form, [set(pos)] and [reset(pos)] undo each
    other and are idempotent: [set(pos)] on a set bit and [reset(pos)] on a
    clear bit change nothing; [reset(pos)] after [set(pos)] gives back a state
    whose bit was clear, and [set(pos)] after [reset(pos)] one whose bit was
    set. *)
Theorem set_reset_round_trip b N (s : list Z) pos :
  size_ok N -> wf N s = true -> canonical N s = true -> 0 <= pos < N ->
  exists s1 s0,
    set b N s pos true = Ok s1 /\ reset b N s pos = Ok s0 /\
    set b N s1 pos true = Ok s1 /\ reset b N s0 pos = Ok s0 /\
    reset b N s1 pos = Ok s0 /\ set b N s0 pos true = Ok s1 /\
    (if bit s pos then s1 = s else s0 = s).
Proof.
  intros HN Hwf Hc Hpos.
  destruct (set_bits b N s pos HN Hwf Hpos) as (s1 & E1 & Hwf1 & Hb1).
  destruct (set_preserves b N s pos true HN Hwf Hc Hpos) as (x & Ex & _ & Hc1).
  rewrite E1 in Ex. injection Ex as <-.
  destruct (reset_bits b N s pos HN Hwf Hpos) as (s0 & E0 & Hwf0 & Hb0 & _).
  destruct (reset_preserves b N s pos HN Hwf Hc Hpos) as (x & Ex & _ & Hc0).
  rewrite E0 in Ex. injection Ex as <-.
  destruct (set_bits b N s1 pos HN Hwf1 Hpos) as (s11 & E11 & Hwf11 & Hb11).
  destruct (set_preserves b N s1 pos true HN Hwf1 Hc1 Hpos) as (x & Ex & _ & Hc11).
  rewrite E11 in Ex. injection Ex as <-.
  destruct (set_bits b N s0 pos HN Hwf0 Hpos) as (s01 & E01 & Hwf01 & Hb01).
  destruct (set_preserves b N s0 pos true HN Hwf0 Hc0 Hpos) as (x & Ex & _ & Hc01).
  rewrite E01 in Ex. injection Ex as <-.
  destruct (reset_bits b N s0 pos HN Hwf0 Hpos) as (s00 & E00 & Hwf00 & Hb00 & _).
  destruct (reset_preserves b N s0 pos HN Hwf0 Hc0 Hpos) as (x & Ex & _ & Hc00).
  rewrite E00 in Ex. injection Ex as <-.
  destruct (reset_bits b N s1 pos HN Hwf1 Hpos) as (s10 & E10 & Hwf10 & Hb10 & _).
  destruct (reset_preserves b N s1 pos HN Hwf1 Hc1 Hpos) as (x & Ex & _ & Hc10).
  rewrite E10 in Ex. injection Ex as <-.
  assert (s11 = s1) as ->.
  { apply (bits_ext_canonical N); try assumption. intros q Hq.
    rewrite Hb11, Hb1 by lia. now destruct (bit s q), (q =? pos). }
  assert (s00 = s0) as ->.
  { apply (bits_ext_canonical N); try assumption. intros q Hq.
    rewrite Hb00, Hb0 by lia. now destruct (bit s q), (q =? pos). }
  assert (s10 = s0) as ->.
  { apply (bits_ext_canonical N); try assumption. intros q Hq.
    rewrite Hb10, Hb1, Hb0 by lia. now destruct (bit s q), (q =? pos). }
  assert (s01 = s1) as ->.
  { apply (bits_ext_canonical N); try assumption. intros q Hq.
    rewrite Hb01, Hb0, Hb1 by lia. now destruct (bit s q), (q =? pos). }
  exists s1, s0. repeat (split; [assumption |]).
  destruct (bit s pos) eqn:Hb.
  - apply (bits_ext_canonical N); try assumption. intros q Hq. rewrite Hb1 by lia.
    destruct (Z.eqb_spec q pos) as [-> | _]; [now rewrite Hb | apply orb_false_r].
  - apply (bits_ext_canonical N); try assumption. intros q Hq. rewrite Hb0 by lia.
    destruct (Z.eqb_spec q pos) as [-> | _]; [now rewrite Hb | apply andb_true_r].
Qed.

Lemma set_reset_round_trip_witness :
  size_ok 70 /\ wf 70 [5; 33] = true /\ canonical 70 [5; 33] = true /\
  0 <= 69 < 70 /\
  exists s1 s0,
    set Release 70 [5; 33] 69 true = Ok s1 /\ reset Release 70 [5; 33] 69 = Ok s0 /\
    set Release 70 s1 69 true = Ok s1 /\ reset Release 70 s0 69 = Ok s0 /\
    reset Release 70 s1 69 = Ok s0 /\ set Release 70 s0 69 true = Ok s1 /\
    (if bit [5; 33] 69 then s1 = [5; 33] else s0 = [5; 33]).
Proof.
  assert (size_ok 70) as HN by size_ok_lit.
  assert (wf 70 [5; 33] = true) as Hwf by reflexivity.
  assert (canonical 70 [5; 33] = true) as Hc by reflexivity.
  assert (0 <= 69 < 70) as Hpos by lia.
  repeat (split; [assumption |]).
  exact (set_reset_round_trip Release 70 [5; 33] 69 HN Hwf Hc Hpos).
Defined.

(** X9. On a state in canonical form, setting a bit can only lower
    [first_one()] and clearing a bit can only lower [first_zero()]: after
    [set(pos)], [first_one()] is the smaller of its old value and [pos]; after
    [reset(pos)], [first_zero()] is the smaller of its old value and [pos]. *)
Theorem scans_after_single_bit b N (s : list Z) pos :
  size_ok N -> wf N s = true -> canonical N s = true -> 0 <= pos < N ->
  (exists s', set b N s pos true = Ok s' /\
              first_one N s' = Z.min (first_one N s) pos) /\
  (exists s', reset b N s pos = Ok s' /\
              first_zero N s' = Z.min (first_zero N s) pos).
Proof.
  intros HN Hwf Hc Hpos. split.
  - destruct (set_bits b N s pos HN Hwf Hpos) as (s' & E & Hwf' & Hbits).
    destruct (set_preserves b N s pos true HN Hwf Hc Hpos) as (x & Ex & _ & Hc').
    rewrite E in Ex. injection Ex as <-.
    destruct (first_one_lowest N s HN Hwf Hc) as (Hr & Hlow & Hhit).
    exists s'. split; [exact E |].
    apply (first_one_unique N s' _ HN Hwf' Hc'); [lia | |].
    + intros j Hj. rewrite Hbits, Hlow by lia.
      destruct (Z.eqb_spec j pos); [lia | reflexivity].
    + intros _. rewrite Hbits by lia.
      destruct (Z.le_gt_cases (first_one N s) pos) as [Hle | Hgt].
      * rewrite Z.min_l by lia. rewrite Hhit by lia. reflexivity.
      * rewrite Z.min_r by lia. rewrite Z.eqb_refl. apply orb_true_r.
  - destruct (reset_bits b N s pos HN Hwf Hpos) as (s' & E & Hwf' & Hbits & _).
    destruct (reset_preserves b N s pos HN Hwf Hc Hpos) as (x & Ex & _ & Hc').
    rewrite E in Ex. injection Ex as <-.
    destruct (first_zero_lowest N s HN Hwf Hc) as (Hr & Hlow & Hhit).
    exists s'. split; [exact E |].
    apply (first_zero_unique N s' _ HN Hwf' Hc'); [lia | |].
    + intros j Hj. rewrite Hbits, Hlow by lia.
      destruct (Z.eqb_spec j pos); [lia | reflexivity].
    + intros _. rewrite Hbits by lia.
      destruct (Z.le_gt_cases (first_zero N s) pos) as [Hle | Hgt].
      * rewrite Z.min_l by lia. rewrite Hhit by lia. reflexivity.
      * rewrite Z.min_r by lia. rewrite Z.eqb_refl. apply andb_false_r.
Qed.

Lemma scans_after_single_bit_witness :
  size_ok 129 /\ wf 129 [0; 0; 1] = true /\ canonical 129 [0; 0; 1] = true /\
  0 <= 70 < 129 /\
  (exists s', set Debug 129 [0; 0; 1] 70 true = Ok s' /\
              first_one 129 s' = Z.min (first_one 129 [0; 0; 1]) 70) /\
  (exists s', reset Debug 129 [0; 0; 1] 70 = Ok s' /\
              first_zero 129 s' = Z.min (first_zero 129 [0; 0; 1]) 70).
Proof.
  assert (size_ok 129) as HN by size_ok_lit.
  assert (wf 129 [0; 0; 1] = true) as Hwf by reflexivity.
  assert (canonical 129 [0; 0; 1] = true) as Hc by reflexivity.
  assert (0 <= 70 < 129) as Hpos by lia.
  repeat (split; [assumption |]).
  exact (scans_after_single_bit Debug 129 [0; 0; 1] 70 HN Hwf Hc Hpos).
Defined.

(** X10. [flip()] exchanges the two scans and the two extreme predicates:
    on a state in canonical form, after [flip()] the value of [first_one()]
    is the old [first_zero()] and conversely, [none()] is the old [all()] and
    [all()] is the old [none()]. *)
Theorem flip_exchanges N (s : list Z) :
  size_ok N -> wf N s = true -> canonical N s = true ->
  exists s',
    flip N s = Ok s' /\
    first_one N s' = first_zero N s /\ first_zero N s' = first_one N s /\
    none s' = all N s /\ all N s' = none s.
Proof.
  intros HN Hwf Hc. pose proof HN as [HN0 HN1].
  assert (Z.of_nat (length s) = NUM_CHUNKS N) as Hlen by (apply wf_iff in Hwf; tauto).
  destruct (flip_bits N s HN Hlen) as (s' & E & Hwf' & Hc' & Hbits).
  assert (forall q, 0 <= q < N -> bit s' q = negb (bit s q)) as Hneg.
  { intros q Hq. rewrite Hbits by lia. destruct (Z.ltb_spec q N); [reflexivity | lia]. }
  destruct (first_one_lowest N s HN Hwf Hc) as (Hr1 & Hlow1 & Hhit1).
  destruct (first_zero_lowest N s HN Hwf Hc) as (Hr0 & Hlow0 & Hhit0).
  exists s'. split; [exact E |]. split; [| split; [| split]].
  - apply (first_one_unique N s' _ HN Hwf' Hc'); [lia | |].
    + intros j Hj. now rewrite Hneg, Hlow0 by lia.
    + intros Hlt. now rewrite Hneg, Hhit0 by lia.
  - apply (first_zero_unique N s' _ HN Hwf' Hc'); [lia | |].
    + intros j Hj. now rewrite Hneg, Hlow1 by lia.
    + intros Hlt. now rewrite Hneg, Hhit1 by lia.
  - apply eq_true_iff_eq. split.
    + intros Hnone. apply (all_iff_bits N s HN Hwf Hc). intros i Hi.
      pose proof (none_bits s' Hnone i) as Hb. rewrite Hneg in Hb by lia.
      now destruct (bit s i).
    + intros Hall. apply (bits_none N s' Hwf'). intros j Hj.
      rewrite Hbits by lia. destruct (Z.ltb_spec j N); [| reflexivity].
      now rewrite (proj1 (all_iff_bits N s HN Hwf Hc) Hall j) by lia.
  - apply eq_true_iff_eq. split.
    + intros Hall. apply (bits_none N s Hwf). intros j Hj.
      destruct (Z.lt_ge_cases j N) as [Hlt | Hge].
      * pose proof (proj1 (all_iff_bits N s' HN Hwf' Hc') Hall j ltac:(lia)) as Hb.
        rewrite Hneg in Hb by lia. now destruct (bit s j).
      * now apply (canonical_padding N s HN Hlen Hc).
    + intros Hnone. apply (all_iff_bits N s' HN Hwf' Hc'). intros i Hi.
      now rewrite Hneg, (none_bits s Hnone) by lia.
Qed.

Lemma flip_exchanges_witness :
  size_ok 70 /\ wf 70 [5; 33] = true /\ canonical 70 [5; 33] = true /\
  exists s',
    flip 70 [5; 33] = Ok s' /\
    first_one 70 s' = first_zero 70 [5; 33] /\
    first_zero 70 s' = first_one 70 [5; 33] /\
    none s' = all 70 [5; 33] /\ all 70 s' = none [5; 33].
Proof.
  assert (size_ok 70) as HN by size_ok_lit.
  assert (wf 70 [5; 33] = true) as Hwf by reflexivity.
  assert (canonical 70 [5; 33] = true) as Hc by reflexivity.
  repeat (split; [assumption |]).
  exact (flip_exchanges 70 [5; 33] HN Hwf Hc).
Defined.

(** ** Accessors *)

(** X11. On a state in canonical form exactly one of [first_one()] and
    [first_zero()] is 0, according to the bit at index 0, so the two scans
    never return the same value. *)
Theorem scans_exclusive N (s : list Z) :
  size_ok N -> wf N s = true -> canonical N s = true ->
  (first_one N s = 0 <-> bit s 0 = true) /\
  (first_zero N s = 0 <-> bit s 0 = false) /\
  first_one N s <> first_zero N s.
Proof.
  intros HN Hwf Hc. pose proof HN as [HN0 HN1].
  destruct (first_one_lowest N s HN Hwf Hc) as (Hr1 & Hlow1 & Hhit1).
  destruct (first_zero_lowest N s HN Hwf Hc) as (Hr0 & Hlow0 & Hhit0).
  assert (first_one N s = 0 <-> bit s 0 = true) as H1.
  { split.
    - intros E. rewrite E in Hhit1. apply Hhit1. lia.
    - intros Hb. destruct (Z.eq_dec (first_one N s) 0) as [E | E]; [exact E |].
      rewrite Hlow1 in Hb by lia. discriminate. }
  assert (first_zero N s = 0 <-> bit s 0 = false) as H0.
  { split.
    - intros E. rewrite E in Hhit0. apply Hhit0. lia.
    - intros Hb. destruct (Z.eq_dec (first_zero N s) 0) as [E | E]; [exact E |].
      rewrite Hlow0 in Hb by lia. discriminate. }
  split; [exact H1 |]. split; [exact H0 |].
  intros E. destruct (bit s 0) eqn:Hb.
  - assert (first_one N s = 0) as E1 by now apply H1.
    assert (first_zero N s = 0) as E0 by lia. apply H0 in E0. discriminate.
  - assert (first_zero N s = 0) as E0 by now apply H0.
    assert (first_one N s = 0) as E1 by lia. apply H1 in E1. discriminate.
Qed.

Lemma scans_exclusive_witness :
  size_ok 8 /\ wf 8 [53] = true /\ canonical 8 [53] = true /\
  (first_one 8 [53] = 0 <-> bit [53] 0 = true) /\
  (first_zero 8 [53] = 0 <-> bit [53] 0 = false) /\
  first_one 8 [53] <> first_zero 8 [53].
Proof.
  assert (size_ok 8) as HN by size_ok_lit.
  assert (wf 8 [53] = true) as Hwf by reflexivity.
  assert (canonical 8 [53] = true) as Hc by reflexivity.
  repeat (split; [assumption |]).
  exact (scans_exclusive 8 [53] HN Hwf Hc).
Defined.

(** X12. [none()] and [any()] read the live bits: on a state in canonical
    form [none()] is true exactly when no bit below [N] is 1, and [any()] is
    true exactly when some bit below [N] is 1, [first_one()] being such a
    bit. *)
Theorem none_any_bits N (s : list Z) :
  size_ok N -> wf N s = true -> canonical N s = true ->
  (none s = true <-> forall i, 0 <= i < N -> bit s i = false) /\
  (any s = true <-> exists i, 0 <= i < N /\ bit s i = true) /\
  (any s = true -> first_one N s < N /\ bit s (first_one N s) = true).
Proof.
  intros HN Hwf Hc.
  assert (Z.of_nat (length s) = NUM_CHUNKS N) as Hlen by (apply wf_iff in Hwf; tauto).
  destruct (first_one_lowest N s HN Hwf Hc) as (Hr & Hlow & Hhit).
  assert (none s = true <-> forall i, 0 <= i < N -> bit s i = false) as Hnone.
  { split.
    - intros H i _. now apply none_bits.
    - intros H. apply (bits_none N s Hwf). intros j Hj.
      destruct (Z.lt_ge_cases j N); [apply H; lia |].
      now apply (canonical_padding N s HN Hlen Hc). }
  assert (any s = true -> first_one N s < N /\ bit s (first_one N s) = true) as Hany.
  { intros Ha. rewrite any_negb_none in Ha.
    assert (first_one N s < N) as Hlt.
    { destruct (Z.lt_ge_cases (first_one N s) N) as [Hlt | Hge]; [exact Hlt |].
      assert (none s = true) as Hn by (apply Hnone; intros i Hi; apply Hlow; lia).
      rewrite Hn in Ha. discriminate. }
    split; [exact Hlt | now apply Hhit]. }
  split; [exact Hnone |]. split; [| exact Hany].
  split.
  - intros Ha. destruct (Hany Ha) as [Hlt Hb]. exists (first_one N s). repeat split; lia || exact Hb.
  - intros (i & Hi & Hb). rewrite any_negb_none.
    destruct (none s) eqn:Hn; [| reflexivity].
    rewrite (none_bits s Hn) in Hb. discriminate.
Qed.

Lemma none_any_bits_witness :
  size_ok 129 /\ wf 129 [0; 0; 1] = true /\ canonical 129 [0; 0; 1] = true /\
  (none [0; 0; 1] = true <-> forall i, 0 <= i < 129 -> bit [0; 0; 1] i = false) /\
  (any [0; 0; 1] = true <-> exists i, 0 <= i < 129 /\ bit [0; 0; 1] i = true) /\
  (any [0; 0; 1] = true ->
   first_one 129 [0; 0; 1] < 129 /\ bit [0; 0; 1] (first_one 129 [0; 0; 1]) = true).
Proof.
  assert (size_ok 129) as HN by size_ok_lit.
  assert (wf 129 [0; 0; 1] = true) as Hwf by reflexivity.
  assert (canonical 129 [0; 0; 1] = true) as Hc by reflexivity.
  repeat (split; [assumption |]).
  exact (none_any_bits 129 [0; 0; 1] HN Hwf Hc).
Defined.

(** ** Equality *)

(** X13. [operator==] compares bit sequences: two well-formed states are
    equal exactly when they agree at every bit position, padding included;
    when both are in canonical form, exactly when they agree at every
    position below [N]. *)
Theorem eqb_bitwise N (s1 s2 : list Z) :
  size_ok N -> wf N s1 = true -> wf N s2 = true ->
  (eqb s1 s2 = true <-> forall q, 0 <= q -> bit s1 q = bit s2 q) /\
  (canonical N s1 = true -> canonical N s2 = true ->
   (eqb s1 s2 = true <-> forall q, 0 <= q < N -> bit s1 q = bit s2 q)).
Proof.
  intros HN H1 H2. unfold eqb. rewrite bool_decide_eq_true. split.
  - split; [now intros -> |]. now apply (bits_ext N).
  - intros Hc1 Hc2. split; [now intros -> |]. now apply (bits_ext_canonical N).
Qed.

Lemma eqb_bitwise_witness :
  size_ok 5 /\ wf 5 [21] = true /\ wf 5 [53] = true /\
  (eqb [21] [53] = true <-> forall q, 0 <= q -> bit [21] q = bit [53] q) /\
  (canonical 5 [21] = true -> canonical 5 [53] = true ->
   (eqb [21] [53] = true <-> forall q, 0 <= q < 5 -> bit [21] q = bit [53] q)).
Proof.
  assert (size_ok 5) as HN by size_ok_lit.
  assert (wf 5 [21] = true) as H1 by reflexivity.
  assert (wf 5 [53] = true) as H2 by reflexivity.
  repeat (split; [assumption |]).
  exact (eqb_bitwise 5 [21] [53] HN H1 H2).
Defined.

(** X14. Comparison with raw storage is a comparison of bits, padding
    included.  For [N <= 64], [*this == word] is true exactly when the word
    has the bits of the object; for [N > 64] likewise with the array.  So an
    object in canonical form never compares equal to raw storage that has a
    1 bit at a position [>= N]. *)
Theorem eqb_raw N (s : list Z) :
  size_ok N -> wf N s = true ->
  (N <= 64 -> forall x, word_ok N x = true ->
     exists r, eqb_word s x = Ok r /\
       (r = true <-> forall q, 0 <= q < 64 -> Z.testbit x q = bit s q) /\
       (canonical N s = true ->
        (exists j, N <= j /\ Z.testbit x j = true) -> r = false)) /\
  (64 < N -> forall st, wf N st = true ->
     (eqb_array s st = true <-> forall q, 0 <= q -> bit st q = bit s q) /\
     (canonical N s = true ->
      (exists j, N <= j /\ bit st j = true) -> eqb_array s st = false)).
Proof.
  intros HN Hwf.
  assert (Z.of_nat (length s) = NUM_CHUNKS N) as Hlen by (apply wf_iff in Hwf; tauto).
  split.
  - intros Hle x Hx. destruct (single_word N HN Hle) as [Hk _].
    pose proof Hwf as Hwf0. apply wf_iff in Hwf0. destruct Hwf0 as [_ Hall].
    destruct s as [| w [| w' s]]; cbn [length] in Hlen; try lia.
    apply Forall_inv in Hall. cbn beta in Hall.
    apply word_ok_iff in Hall, Hx. pose proof (Inner_bits_le N) as H64.
    change (eqb_word [w] x) with (@Ok bool (w =? x)).
    exists (w =? x). split; [reflexivity |].
    assert (forall q, 0 <= q < 64 -> bit [w] q = Z.testbit w q) as Hbit.
    { intros q Hq. rewrite bit_cons by lia. destruct (Z.ltb_spec q 64); [reflexivity | lia]. }
    assert ((w =? x) = true <-> forall q, 0 <= q < 64 -> Z.testbit x q = bit [w] q) as Hiff.
    { rewrite Z.eqb_eq. split.
      - intros -> q Hq. now rewrite Hbit.
      - intros H. apply Z.bits_inj'. intros j Hj. destruct (Z.lt_ge_cases j 64).
        + now rewrite H, Hbit by lia.
        + now rewrite (testbit_above (Inner_bits N) w), (testbit_above (Inner_bits N) x) by lia. }
    split; [exact Hiff |].
    intros Hc (j & Hj & Hb). destruct (w =? x) eqn:E; [| reflexivity].
    pose proof (canonical_padding N [w] HN Hlen Hc) as Hpad.
    destruct HN as [HN0 _]. destruct (Z.lt_ge_cases j 64).
    + rewrite (proj1 Hiff eq_refl j), Hpad in Hb by lia. discriminate.
    + rewrite (testbit_above (Inner_bits N) x) in Hb by lia. discriminate.
  - intros Hgt st Hst. unfold eqb_array. rewrite bool_decide_eq_true.
    assert (s = st <-> forall q, 0 <= q -> bit st q = bit s q) as Hiff.
    { split; [now intros -> |]. intros H. apply (bits_ext N); try assumption.
      intros q Hq. now rewrite H. }
    split; [exact Hiff |].
    intros Hc (j & Hj & Hb). apply bool_decide_eq_false. intros E.
    pose proof (canonical_padding N s HN Hlen Hc) as Hpad.
    destruct HN as [HN0 _].
    rewrite (proj1 Hiff E j), Hpad in Hb by lia. discriminate.
Qed.

Lemma eqb_raw_witness :
  size_ok 5 /\ wf 5 [21] = true /\
  (5 <= 64 -> forall x, word_ok 5 x = true ->
     exists r, eqb_word [21] x = Ok r /\
       (r = true <-> forall q, 0 <= q < 64 -> Z.testbit x q = bit [21] q) /\
       (canonical 5 [21] = true ->
        (exists j, 5 <= j /\ Z.testbit x j = true) -> r = false)) /\
  (64 < 5 -> forall st, wf 5 st = true ->
     (eqb_array [21] st = true <-> forall q, 0 <= q -> bit st q = bit [21] q) /\
     (canonical 5 [21] = true ->
      (exists j, 5 <= j /\ bit st j = true) -> eqb_array [21] st = false)).
Proof.
  assert (size_ok 5) as HN by size_ok_lit.
  assert (wf 5 [21] = true) as Hwf by reflexivity.
  split; [exact HN |]. split; [exact Hwf |].
  exact (eqb_raw 5 [21] HN Hwf).
Defined.

(** ** Bounds: what a call with [pos >= N] does *)

(** X15. A debug build checks the index exactly: on a well-formed state,
    [operator[]], [test], [set(pos, value)] and [reset(pos)] fail their
    assertion when [pos >= N], and return normally when [pos < N]. *)
Theorem debug_bounds_checked N (s : list Z) pos (value : bool) :
  size_ok N -> wf N s = true -> 0 <= pos ->
  (N <= pos ->
   index Debug N s pos = AssertionFailed /\ test Debug N s pos = AssertionFailed /\
   set Debug N s pos value = AssertionFailed /\
   reset Debug N s pos = AssertionFailed) /\
  (pos < N ->
   (exists r, index Debug N s pos = Ok r /\ test Debug N s pos = Ok r) /\
   (exists s', set Debug N s pos value = Ok s') /\
   (exists s', reset Debug N s pos = Ok s')).
Proof.
  intros HN Hwf Hpos. split.
  - intros Hge. unfold test, index, set, reset, BITSET_ASSERT.
    destruct (Z.ltb_spec pos N); [lia |]. repeat split; reflexivity.
  - intros Hlt. split; [| split].
    + destruct (test_returns Debug N s pos HN Hwf ltac:(lia)) as (r & E & _).
      exists r. split; exact E.
    + destruct value.
      * destruct (set_bits Debug N s pos HN Hwf ltac:(lia)) as (s' & E & _). now exists s'.
      * destruct (reset_bits Debug N s pos HN Hwf ltac:(lia)) as (s' & E & _).
        exists s'. unfold set. destruct (Z.ltb_spec pos N); [| lia].
        rewrite BITSET_ASSERT_true. exact E.
    + destruct (reset_bits Debug N s pos HN Hwf ltac:(lia)) as (s' & E & _). now exists s'.
Qed.

Lemma debug_bounds_checked_witness :
  size_ok 70 /\ wf 70 [5; 33] = true /\ 0 <= 70 /\
  (70 <= 70 ->
   index Debug 70 [5; 33] 70 = AssertionFailed /\
   test Debug 70 [5; 33] 70 = AssertionFailed /\
   set Debug 70 [5; 33] 70 true = AssertionFailed /\
   reset Debug 70 [5; 33] 70 = AssertionFailed) /\
  (70 < 70 ->
   (exists r, index Debug 70 [5; 33] 70 = Ok r /\ test Debug 70 [5; 33] 70 = Ok r) /\
   (exists s', set Debug 70 [5; 33] 70 true = Ok s') /\
   (exists s', reset Debug 70 [5; 33] 70 = Ok s')).
Proof.
  assert (size_ok 70) as HN by size_ok_lit.
  assert (wf 70 [5; 33] = true) as Hwf by reflexivity.
  assert (0 <= 70) as Hpos by lia.
  repeat (split; [assumption |]).
  exact (debug_bounds_checked 70 [5; 33] 70 true HN Hwf Hpos).
Defined.

(** X16. In a release build, [reset(pos)] at a padding position
    ([N <= pos], still inside the storage) returns, changes no bit below [N],
    and leaves the final word masked by [LAST_MASK]: the result is in
    canonical form whatever the padding was, and a state already in canonical
    form is returned unchanged. *)
Theorem release_reset_padding N (s : list Z) pos :
  size_ok N -> wf N s = true -> N <= pos < 64 * NUM_CHUNKS N ->
  exists s',
    reset Release N s pos = Ok s' /\ wf N s' = true /\ canonical N s' = true /\
    (forall q, 0 <= q < N -> bit s' q = bit s q) /\
    (canonical N s = true -> s' = s).
Proof.
  intros HN Hwf Hpos. pose proof HN as [HN0 HN1].
  assert (Z.of_nat (length s) = NUM_CHUNKS N) as Hlen by (apply wf_iff in Hwf; tauto).
  destruct (chunks_live N HN) as [HNC HNeq]. pose proof (live_bits_range N) as Hlive.
  destruct (reset_bits_gen Release N s pos HN Hwf ltac:(lia) ltac:(intro; discriminate))
    as (s' & E & Hwf' & Hlow & Hhigh).
  assert (pos / 64 = NUM_CHUNKS N - 1) as Hlast.
  { destruct (bit_split pos ltac:(lia)) as (Ep & Hc & Hj). lia. }
  rewrite Hlast, Z.eqb_refl in Hhigh.
  assert (forall q, 0 <= q < N -> bit s' q = bit s q) as Hsame.
  { intros q Hq. rewrite Hlow by lia.
    destruct (Z.eqb_spec q pos); [lia | apply andb_true_r]. }
  assert (canonical N s' = true) as Hc' by (apply (padding_canonical N s' HN Hwf'); exact Hhigh).
  exists s'. repeat (split; [assumption |]).
  intros Hc. now apply (bits_ext_canonical N).
Qed.

Lemma release_reset_padding_witness :
  size_ok 70 /\ wf 70 [5; 255] = true /\ 70 <= 71 < 64 * NUM_CHUNKS 70 /\
  exists s',
    reset Release 70 [5; 255] 71 = Ok s' /\ wf 70 s' = true /\
    canonical 70 s' = true /\
    (forall q, 0 <= q < 70 -> bit s' q = bit [5; 255] q) /\
    (canonical 70 [5; 255] = true -> s' = [5; 255]).
Proof.
  assert (size_ok 70) as HN by size_ok_lit.
  assert (wf 70 [5; 255] = true) as Hwf by reflexivity.
  assert (70 <= 71 < 64 * NUM_CHUNKS 70) as Hpos by (change (NUM_CHUNKS 70) with 2; lia).
  repeat (split; [assumption |]).
  exact (release_reset_padding 70 [5; 255] 71 HN Hwf Hpos).
Defined.

(** X17. In a release build, [set(pos)] at a padding position that the word
    type can hold ([N <= pos < sizeof(Inner_t) * 8 * NUM_CHUNKS]) returns
    and sets that padding bit: the bits below [N] are unchanged and the
    result is not in canonical form. *)
Theorem release_set_padding N (s : list Z) pos :
  size_ok N -> wf N s = true -> N <= pos < Inner_bits N * NUM_CHUNKS N ->
  exists s',
    set Release N s pos true = Ok s' /\ wf N s' = true /\
    bit s' pos = true /\ canonical N s' = false /\
    (forall q, 0 <= q < N -> bit s' q = bit s q).
Proof.
  intros HN Hwf Hpos. pose proof HN as [HN0 HN1].
  destruct (set_bits_gen Release N s pos HN Hwf ltac:(lia) ltac:(intro; discriminate))
    as (s' & E & Hwf' & Hbits).
  assert (bit s' pos = true) as Hb
      by (rewrite Hbits, Z.eqb_refl by lia; apply orb_true_r).
  exists s'. repeat (split; [assumption |]). split.
  - destruct (canonical N s') eqn:Hc; [| reflexivity].
    assert (Z.of_nat (length s') = NUM_CHUNKS N) as Hlen by (apply wf_iff in Hwf'; tauto).
    rewrite (canonical_padding N s' HN Hlen Hc pos) in Hb by lia. discriminate.
  - intros q Hq. rewrite Hbits by lia.
    destruct (Z.eqb_spec q pos); [lia | apply orb_false_r].
Qed.

Lemma release_set_padding_witness :
  size_ok 5 /\ wf 5 [21] = true /\ 5 <= 6 < Inner_bits 5 * NUM_CHUNKS 5 /\
  exists s',
    set Release 5 [21] 6 true = Ok s' /\ wf 5 s' = true /\
    bit s' 6 = true /\ canonical 5 s' = false /\
    (forall q, 0 <= q < 5 -> bit s' q = bit [21] q).
Proof.
  assert (size_ok 5) as HN by size_ok_lit.
  assert (wf 5 [21] = true) as Hwf by reflexivity.
  assert (5 <= 6 < Inner_bits 5 * NUM_CHUNKS 5) as Hpos
      by (change (NUM_CHUNKS 5) with 1; change (Inner_bits 5) with 8; lia).
  repeat (split; [assumption |]).
  exact (release_set_padding 5 [21] 6 HN Hwf Hpos).
Defined.

(** X18. Past the storage nothing is defined: in a release build, with
    [pos >= 64 * NUM_CHUNKS], [operator[]], [test], [set(pos)] and
    [reset(pos)] index the array out of bounds (or, for [N <= 64], shift by
    the width of the operand or more). *)
Theorem release_past_storage N (s : list Z) pos (value : bool) :
  size_ok N -> Z.of_nat (length s) = NUM_CHUNKS N -> 64 * NUM_CHUNKS N <= pos ->
  index Release N s pos = Undefined /\ test Release N s pos = Undefined /\
  set Release N s pos value = Undefined /\ reset Release N s pos = Undefined.
Proof.
  intros HN Hlen Hpos. destruct (chunks_live N HN) as [HNC _].
  destruct (bit_split pos ltac:(lia)) as (Ep & Hc & Hj).
  assert (reset Release N s pos = Undefined) as Hreset.
  { unfold reset. cbn [BITSET_ASSERT bind]. destruct (Z.ltb_spec 64 N) as [Hgt | Hle].
    - unfold shl. destruct (Z.ltb_spec (pos mod 64) 64); [| lia]. cbn [bind].
      unfold load. destruct (Z.ltb_spec (pos / 64) 0); [lia |].
      rewrite (proj2 (lookup_ge_None s (Z.to_nat (pos / 64)))) by lia. reflexivity.
    - destruct (single_word N HN Hle) as [Hk _]. unfold shl.
      destruct (Z.ltb_spec pos 64); [lia | reflexivity]. }
  assert (index Release N s pos = Undefined) as Hindex.
  { unfold index. cbn [BITSET_ASSERT bind]. destruct (Z.ltb_spec 64 N) as [Hgt | Hle].
    - unfold load. destruct (Z.ltb_spec (pos / 64) 0); [lia |].
      rewrite (proj2 (lookup_ge_None s (Z.to_nat (pos / 64)))) by lia. reflexivity.
    - destruct (single_word N HN Hle) as [Hk _]. pose proof (Inner_bits_le N).
      rewrite Hk in Hlen. destruct s as [| w [| w' s]]; cbn [length] in Hlen; try lia.
      change (load [w] 0) with (@Ok Z w). cbn [bind].
      unfold shr, promoted_bits.
      destruct (Z.ltb_spec pos (if Inner_bits N <? 32 then 32 else Inner_bits N)) as [Hlt | _];
        [| reflexivity].
      destruct (Inner_bits N <? 32); lia. }
  repeat split; try assumption.
  unfold set. cbn [BITSET_ASSERT bind]. destruct value; cbn [negb]; [| exact Hreset].
  destruct (Z.ltb_spec 64 N) as [Hgt | Hle].
  - unfold shl. destruct (Z.ltb_spec (pos mod 64) 64); [| lia]. cbn [bind].
    unfold load. destruct (Z.ltb_spec (pos / 64) 0); [lia |].
    rewrite (proj2 (lookup_ge_None s (Z.to_nat (pos / 64)))) by lia. reflexivity.
  - destruct (single_word N HN Hle) as [Hk _]. unfold shl.
    destruct (Z.ltb_spec pos 64); [lia | reflexivity].
Qed.

Lemma release_past_storage_witness :
  size_ok 70 /\ Z.of_nat (length [5; 33]) = NUM_CHUNKS 70 /\ 64 * NUM_CHUNKS 70 <= 128 /\
  index Release 70 [5; 33] 128 = Undefined /\ test Release 70 [5; 33] 128 = Undefined /\
  set Release 70 [5; 33] 128 true = Undefined /\
  reset Release 70 [5; 33] 128 = Undefined.
Proof.
  assert (size_ok 70) as HN by size_ok_lit.
  assert (Z.of_nat (length [5; 33]) = NUM_CHUNKS 70) as Hlen by reflexivity.
  assert (64 * NUM_CHUNKS 70 <= 128) as Hpos by (change (NUM_CHUNKS 70) with 2; lia).
  repeat (split; [assumption |]).
  exact (release_past_storage 70 [5; 33] 128 true HN Hlen Hpos).
Defined.

(** ** Constructors *)

(** X19. The constructor from one raw word ([N <= 64]): a debug build fails
    the assertion exactly when the word has a 1 bit at a position [>= N]; a
    release build always constructs the object; and the constructed object,
    whichever build made it, is in canonical form exactly when the word has
    no such bit. *)
Theorem raw_word_constructor N x :
  size_ok N -> N <= 64 -> word_ok N x = true ->
  (BitSet_of_word Debug N x = AssertionFailed
   <-> exists j, N <= j /\ Z.testbit x j = true) /\
  (BitSet_of_word Debug N x = Ok [x]
   <-> forall j, N <= j -> Z.testbit x j = false) /\
  BitSet_of_word Release N x = Ok [x] /\
  wf N [x] = true /\
  (canonical N [x] = true <-> forall j, N <= j -> Z.testbit x j = false).
Proof.
  intros HN Hle Hx. destruct (BitSet_of_word_assert N x HN Hle Hx) as [Hfail Hok].
  destruct (single_word N HN Hle) as [Hk Hlive]. pose proof HN as [HN0 HN1].
  assert (wf N [x] = true) as Hwf.
  { apply wf_iff. cbn [length]. split; [lia | now constructor]. }
  split; [exact Hfail |]. split; [| split; [reflexivity | split; [exact Hwf |]]].
  - split; [| exact Hok]. intros E j Hj.
    destruct (Z.testbit x j) eqn:Hb; [| reflexivity].
    assert (BitSet_of_word Debug N x = AssertionFailed) as E' by (apply Hfail; eauto).
    rewrite E in E'. discriminate.
  - rewrite canonical_within. cbn [List.last]. split.
    + intros Hw j Hj. destruct (Z.testbit x j) eqn:Hb; [| reflexivity].
      apply Hw in Hb; [| lia]. rewrite (testbit_LAST_MASK N j HN), Hlive in Hb by lia.
      destruct (Z.ltb_spec j N); [lia | discriminate].
    + intros H j Hj Hb. rewrite (testbit_LAST_MASK N j HN), Hlive by lia.
      destruct (Z.ltb_spec j N); [reflexivity |]. rewrite H in Hb by lia. discriminate.
Qed.

Lemma raw_word_constructor_witness :
  size_ok 5 /\ 5 <= 64 /\ word_ok 5 255 = true /\
  (BitSet_of_word Debug 5 255 = AssertionFailed
   <-> exists j, 5 <= j /\ Z.testbit 255 j = true) /\
  (BitSet_of_word Debug 5 255 = Ok [255]
   <-> forall j, 5 <= j -> Z.testbit 255 j = false) /\
  BitSet_of_word Release 5 255 = Ok [255] /\
  wf 5 [255] = true /\
  (canonical 5 [255] = true <-> forall j, 5 <= j -> Z.testbit 255 j = false).
Proof.
  assert (size_ok 5) as HN by size_ok_lit.
  assert (5 <= 64) as Hle by lia.
  assert (word_ok 5 255 = true) as Hx by reflexivity.
  repeat (split; [assumption |]).
  exact (raw_word_constructor 5 255 HN Hle Hx).
Defined.

(** X20. The constructor from a raw array ([N > 64]): a release build always
    constructs the object; a debug build fails the assertion exactly when
    the bit width of the final word exceeds the value of [LAST_MASK], so it
    never rejects storage in canonical form, and when the final word has 7
    or more live bits it rejects nothing at all. *)
Theorem raw_array_constructor N (st : list Z) :
  size_ok N -> 64 < N -> wf N st = true ->
  BitSet_of_array Release N st = Ok st /\
  (BitSet_of_array Debug N st = AssertionFailed
   <-> LAST_MASK N < Std.bit_width (List.last st 0)) /\
  (BitSet_of_array Debug N st = AssertionFailed \/ BitSet_of_array Debug N st = Ok st) /\
  (canonical N st = true -> BitSet_of_array Debug N st = Ok st) /\
  (7 <= live_bits N -> BitSet_of_array Debug N st = Ok st).
Proof.
  intros HN Hgt Hwf. destruct (chunks_live N HN) as [HNC _].
  pose proof (live_bits_range N) as Hlive.
  destruct (load_ok N st (NUM_CHUNKS N - 1) Hwf ltac:(lia)) as (w & Hload & Hw & Hlast).
  specialize (Hlast eq_refl). subst w.
  pose proof (bit_width_range N _ Hw) as Hbw.
  assert (forall b, BitSet_of_array b N st
                    = (BITSET_ASSERT b (Std.bit_width (List.last st 0) <=? LAST_MASK N);; Ok st))
    as Hform.
  { intros b. unfold BitSet_of_array. rewrite (chunks_but_last_eq N HN), Hload. cbn [bind].
    now rewrite size_t_small by (rewrite pow2_64; lia). }
  rewrite !Hform. cbn [BITSET_ASSERT bind].
  split; [reflexivity |].
  destruct (Z.leb_spec (Std.bit_width (List.last st 0)) (LAST_MASK N)) as [Hpass | Hfail];
    cbn [bind].
  - split; [split; [discriminate | lia] |]. split; [now right |]. split; reflexivity.
  - split; [split; [lia | reflexivity] |]. split; [now left |]. split.
    + intros Hc. pose proof (BitSet_of_array_canonical Debug N st HN Hwf Hc) as E.
      rewrite Hform in E. cbn [BITSET_ASSERT] in E.
      destruct (Z.leb_spec (Std.bit_width (List.last st 0)) (LAST_MASK N)); [lia |].
      discriminate.
    + intros H7. exfalso. rewrite (LAST_MASK_ones N HN), Z.ones_equiv in Hfail.
      pose proof (Z.pow_le_mono_r 2 7 (live_bits N) ltac:(lia) H7).
      change (2 ^ 7) with 128 in *. lia.
Qed.

Lemma raw_array_constructor_witness :
  size_ok 71 /\ 64 < 71 /\ wf 71 [0; 255] = true /\
  BitSet_of_array Release 71 [0; 255] = Ok [0; 255] /\
  (BitSet_of_array Debug 71 [0; 255] = AssertionFailed
   <-> LAST_MASK 71 < Std.bit_width (List.last [0; 255] 0)) /\
  (BitSet_of_array Debug 71 [0; 255] = AssertionFailed
   \/ BitSet_of_array Debug 71 [0; 255] = Ok [0; 255]) /\
  (canonical 71 [0; 255] = true -> BitSet_of_array Debug 71 [0; 255] = Ok [0; 255]) /\
  (7 <= live_bits 71 -> BitSet_of_array Debug 71 [0; 255] = Ok [0; 255]).
Proof.
  assert (size_ok 71) as HN by size_ok_lit.
  assert (64 < 71) as Hgt by lia.
  assert (wf 71 [0; 255] = true) as Hwf by reflexivity.
  repeat (split; [assumption |]).
  exact (raw_array_constructor 71 [0; 255] HN Hgt Hwf).
Defined.

(** ** Reading single bits *)

(** X21. In a single-word container ([N <= 64]), [operator[]] and [test]
    return, in either build and for every [pos < N], exactly the bit at
    [pos]; so after [set(pos)] they return true at [pos], after [reset(pos)]
    false, and neither modifier changes what they return elsewhere. *)
Theorem accessors_single_word b N (s : list Z) pos :
  size_ok N -> N <= 64 -> wf N s = true -> 0 <= pos < N ->
  index b N s pos = Ok (bit s pos) /\ test b N s pos = Ok (bit s pos) /\
  (exists s', set b N s pos true = Ok s' /\ test b N s' pos = Ok true /\
     forall q, 0 <= q < N -> q <> pos -> test b N s' q = test b N s q) /\
  (exists s', reset b N s pos = Ok s' /\ test b N s' pos = Ok false /\
     forall q, 0 <= q < N -> q <> pos -> test b N s' q = test b N s q).
Proof.
  intros HN Hle Hwf Hpos.
  destruct (index_single_word b N s pos HN Hle Hwf Hpos) as [Hi Ht].
  split; [exact Hi |]. split; [exact Ht |]. split.
  - destruct (set_bits b N s pos HN Hwf Hpos) as (s' & E & Hwf' & Hbits).
    exists s'. split; [exact E |]. split.
    + destruct (index_single_word b N s' pos HN Hle Hwf' Hpos) as [_ ->].
      rewrite Hbits, Z.eqb_refl by lia. now rewrite orb_true_r.
    + intros q Hq Hne.
      destruct (index_single_word b N s' q HN Hle Hwf' Hq) as [_ ->].
      destruct (index_single_word b N s q HN Hle Hwf Hq) as [_ ->].
      rewrite Hbits by lia. destruct (Z.eqb_spec q pos); [contradiction |].
      now rewrite orb_false_r.
  - destruct (reset_bits b N s pos HN Hwf Hpos) as (s' & E & Hwf' & Hbits & _).
    exists s'. split; [exact E |]. split.
    + destruct (index_single_word b N s' pos HN Hle Hwf' Hpos) as [_ ->].
      rewrite Hbits, Z.eqb_refl by lia. now rewrite andb_false_r.
    + intros q Hq Hne.
      destruct (index_single_word b N s' q HN Hle Hwf' Hq) as [_ ->].
      destruct (index_single_word b N s q HN Hle Hwf Hq) as [_ ->].
      rewrite Hbits by lia. destruct (Z.eqb_spec q pos); [contradiction |].
      now rewrite andb_true_r.
Qed.

Lemma accessors_single_word_witness :
  size_ok 8 /\ 8 <= 64 /\ wf 8 [53] = true /\ 0 <= 1 < 8 /\
  index Debug 8 [53] 1 = Ok (bit [53] 1) /\ test Debug 8 [53] 1 = Ok (bit [53] 1) /\
  (exists s', set Debug 8 [53] 1 true = Ok s' /\ test Debug 8 s' 1 = Ok true /\
     forall q, 0 <= q < 8 -> q <> 1 -> test Debug 8 s' q = test Debug 8 [53] q) /\
  (exists s', reset Debug 8 [53] 1 = Ok s' /\ test Debug 8 s' 1 = Ok false /\
     forall q, 0 <= q < 8 -> q <> 1 -> test Debug 8 s' q = test Debug 8 [53] q).
Proof.
  assert (size_ok 8) as HN by size_ok_lit.
  assert (8 <= 64) as Hle by lia.
  assert (wf 8 [53] = true) as Hwf by reflexivity.
  assert (0 <= 1 < 8) as Hpos by lia.
  repeat (split; [assumption |]).
  exact (accessors_single_word Debug 8 [53] 1 HN Hle Hwf Hpos).
Defined.

(** X22. In a multi-word container ([N > 64]), [operator[]] and [test]
    return, for [pos < N], whether the 64-bit chunk of [pos] has a 1 bit at
    [pos] or above it.  So they never miss a set bit, they return the bit at
    [pos] whenever the bits above it in its chunk are clear, and they return
    true at a clear bit that has a set bit above it in its chunk. *)
Theorem accessors_multi_word b N (s : list Z) pos :
  size_ok N -> 64 < N -> wf N s = true -> 0 <= pos < N ->
  exists r,
    index b N s pos = Ok r /\ test b N s pos = Ok r /\
    (r = true <-> exists q, pos <= q < 64 * (pos / 64 + 1) /\ bit s q = true) /\
    (bit s pos = true -> r = true) /\
    ((forall q, pos < q < 64 * (pos / 64 + 1) -> bit s q = false) -> r = bit s pos) /\
    (forall q, pos < q < 64 * (pos / 64 + 1) -> bit s q = true -> r = true).
Proof.
  intros HN Hgt Hwf Hpos.
  destruct (index_multi_word b N s pos HN Hgt Hwf Hpos) as (r & E & Hr).
  destruct (bit_split pos ltac:(lia)) as (Ep & Hc & Hj).
  exists r. split; [exact E |]. split; [exact E |]. split; [exact Hr |].
  split; [| split].
  - intros Hb. apply Hr. exists pos. split; [lia | exact Hb].
  - intros Hclear. destruct (bit s pos) eqn:Hb.
    + apply Hr. exists pos. split; [lia | exact Hb].
    + destruct r; [| reflexivity]. destruct (proj1 Hr eq_refl) as (q & Hq & Hbq).
      destruct (Z.eq_dec q pos) as [-> | Hne]; [congruence |].
      rewrite Hclear in Hbq by lia. discriminate.
  - intros q Hq Hb. apply Hr. exists q. split; [lia | exact Hb].
Qed.

Lemma accessors_multi_word_witness :
  size_ok 70 /\ 64 < 70 /\ wf 70 [4; 33] = true /\ 0 <= 1 < 70 /\
  exists r,
    index Release 70 [4; 33] 1 = Ok r /\ test Release 70 [4; 33] 1 = Ok r /\
    (r = true <-> exists q, 1 <= q < 64 * (1 / 64 + 1) /\ bit [4; 33] q = true) /\
    (bit [4; 33] 1 = true -> r = true) /\
    ((forall q, 1 < q < 64 * (1 / 64 + 1) -> bit [4; 33] q = false) ->
     r = bit [4; 33] 1) /\
    (forall q, 1 < q < 64 * (1 / 64 + 1) -> bit [4; 33] q = true -> r = true).
Proof.
  assert (size_ok 70) as HN by size_ok_lit.
  assert (64 < 70) as Hgt by lia.
  assert (wf 70 [4; 33] = true) as Hwf by reflexivity.
  assert (0 <= 1 < 70) as Hpos by lia.
  repeat (split; [assumption |]).
  exact (accessors_multi_word Release 70 [4; 33] 1 HN Hgt Hwf Hpos).
Defined.

(** X23. [reset()] then [set(pos)], from any storage content and for every
    [N]: the state has the bit at [pos] set and no other, [test(pos)] is
    true, [count()] is 1, [any()] is true, [none()] is false, [first_one()]
    is [pos], and [all()] is true only when [N = 1]. *)
Theorem reset_then_set_observed b N (s : list Z) pos :
  size_ok N -> Z.of_nat (length s) = NUM_CHUNKS N -> 0 <= pos < N ->
  exists s',
    set b N (reset_all s) pos true = Ok s' /\
    (forall q, 0 <= q -> bit s' q = (q =? pos)) /\
    test b N s' pos = Ok true /\ count s' = 1 /\
    any s' = true /\ none s' = false /\ first_one N s' = pos /\
    (all N s' = true <-> N = 1).
Proof.
  intros HN Hlen Hpos.
  destruct (reset_set_spec b N s pos HN Hlen Hpos) as (s' & E & Hbits & Ht & Hcount & _).
  destruct (set_preserves b N (reset_all s) pos true HN (wf_reset_all N s Hlen)
              (reset_all_canonical N s) Hpos) as (x & Ex & Hwf & Hc).
  rewrite E in Ex. injection Ex as <-.
  assert (none s' = false) as Hnone.
  { destruct (none s') eqn:Hn; [| reflexivity].
    pose proof (none_bits s' Hn pos) as Hb. rewrite Hbits, Z.eqb_refl in Hb by lia.
    discriminate. }
  exists s'. split; [exact E |]. split; [exact Hbits |]. split; [exact Ht |].
  split; [exact Hcount |]. split; [| split; [exact Hnone | split]].
  - now rewrite any_negb_none, Hnone.
  - apply (first_one_unique N s' pos HN Hwf Hc); [lia | |].
    + intros j Hj. rewrite Hbits by lia. destruct (Z.eqb_spec j pos); [lia | reflexivity].
    + intros _. rewrite Hbits by lia. apply Z.eqb_refl.
  - rewrite (all_iff_bits N s' HN Hwf Hc). split.
    + intros Hall. destruct (Z.eq_dec N 1) as [E1 | Hne]; [exact E1 |].
      assert (bit s' (if pos =? 0 then 1 else 0) = true) as Hb
          by (apply Hall; destruct (Z.eqb_spec pos 0); lia).
      rewrite Hbits in Hb by (destruct (pos =? 0); lia).
      destruct (Z.eqb_spec pos 0); apply Z.eqb_eq in Hb; lia.
    + intros -> i Hi. rewrite Hbits by lia. apply Z.eqb_eq. lia.
Qed.

Lemma reset_then_set_observed_witness :
  size_ok 8 /\ Z.of_nat (length [53]) = NUM_CHUNKS 8 /\ 0 <= 3 < 8 /\
  exists s',
    set Debug 8 (reset_all [53]) 3 true = Ok s' /\
    (forall q, 0 <= q -> bit s' q = (q =? 3)) /\
    test Debug 8 s' 3 = Ok true /\ count s' = 1 /\
    any s' = true /\ none s' = false /\ first_one 8 s' = 3 /\
    (all 8 s' = true <-> 8 = 1).
Proof.
  assert (size_ok 8) as HN by size_ok_lit.
  assert (Z.of_nat (length [53]) = NUM_CHUNKS 8) as Hlen by reflexivity.
  assert (0 <= 3 < 8) as Hpos by lia.
  repeat (split; [assumption |]).
  exact (reset_then_set_observed Debug 8 [53] 3 HN Hlen Hpos).
Defined.

(** ** [to_string()] *)

Lemma to_string_loop_spec b N (s : list Z) :
  size_ok N -> wf N s = true ->
  forall (i : nat) (acc : list ascii),
    Z.of_nat i <= N ->
    exists str,
      to_string_loop b N s i acc = Ok (acc ++ str) /\ length str = i /\
      forall k, (k < i)%nat ->
        exists r, test b N s (Z.of_nat k) = Ok r /\
                  nth (i - 1 - k) str "0"%char = if r then "1"%char else "0"%char.
Proof.
  intros HN Hwf. induction i as [| i IH]; intros acc Hi.
  - exists []. split; [cbn; now rewrite app_nil_r |]. split; [reflexivity |].
    intros k Hk. lia.
  - cbn [to_string_loop].
    destruct (test_returns b N s (Z.of_nat i) HN Hwf ltac:(lia)) as (r & Er & _).
    rewrite Er. cbn [bind].
    destruct (IH (acc ++ [if r then "1"%char else "0"%char]) ltac:(lia))
      as (str & E & Hlen & Hchars).
    exists ((if r then "1"%char else "0"%char) :: str).
    split; [now rewrite E, <- app_assoc |]. split; [cbn [length]; lia |].
    intros k Hk. destruct (Nat.eq_dec k i) as [-> | Hne].
    + exists r. split; [exact Er |].
      replace (S i - 1 - i)%nat with 0%nat by lia. reflexivity.
    + destruct (Hchars k ltac:(lia)) as (r' & Er' & Hc). exists r'. split; [exact Er' |].
      replace (S i - 1 - k)%nat with (S (i - 1 - k)) by lia. exact Hc.
Qed.

(** X24. [to_string()] returns, in either build, a string of exactly [N]
    characters, each ['0'] or ['1'], whose character at index [N - 1 - pos]
    is ['1'] exactly when [test(pos)] returns true.  For [N <= 64] that is
    the bit at [pos], most significant first; for [N > 64] it is whether the
    chunk of [pos] has a 1 bit at [pos] or above. *)
Theorem to_string_spec b N (s : list Z) :
  size_ok N -> wf N s = true ->
  exists str,
    to_string b N s = Ok str /\ Z.of_nat (length str) = N /\
    (forall pos, 0 <= pos < N ->
       exists r, test b N s pos = Ok r /\
         nth (Z.to_nat (N - 1 - pos)) str "0"%char = if r then "1"%char else "0"%char) /\
    (N <= 64 -> forall pos, 0 <= pos < N ->
       nth (Z.to_nat (N - 1 - pos)) str "0"%char
       = if bit s pos then "1"%char else "0"%char) /\
    (64 < N -> forall pos, 0 <= pos < N ->
       (nth (Z.to_nat (N - 1 - pos)) str "0"%char = "1"%char
        <-> exists q, pos <= q < 64 * (pos / 64 + 1) /\ bit s q = true)).
Proof.
  intros HN Hwf. pose proof HN as [HN0 HN1]. unfold to_string.
  destruct (to_string_loop_spec b N s HN Hwf (Z.to_nat N) [] ltac:(lia))
    as (str & E & Hlen & Hchars).
  assert (forall pos, 0 <= pos < N ->
            exists r, test b N s pos = Ok r /\
              nth (Z.to_nat (N - 1 - pos)) str "0"%char
              = if r then "1"%char else "0"%char) as Hall.
  { intros pos Hpos. destruct (Hchars (Z.to_nat pos) ltac:(lia)) as (r & Er & Hc).
    rewrite Z2Nat.id in Er by lia. exists r. split; [exact Er |].
    replace (Z.to_nat (N - 1 - pos)) with (Z.to_nat N - 1 - Z.to_nat pos)%nat by lia.
    exact Hc. }
  exists str. split; [exact E |]. split; [lia |]. split; [exact Hall |]. split.
  - intros Hle pos Hpos. destruct (Hall pos Hpos) as (r & Er & ->).
    destruct (test_returns b N s pos HN Hwf Hpos) as (r' & Er' & Hsingle & _).
    rewrite Er in Er'. injection Er' as <-. now rewrite (Hsingle Hle).
  - intros Hgt pos Hpos. destruct (Hall pos Hpos) as (r & Er & ->).
    destruct (test_returns b N s pos HN Hwf Hpos) as (r' & Er' & _ & Hmulti).
    rewrite Er in Er'. injection Er' as <-. rewrite <- (Hmulti Hgt).
    destruct r; split; intros H; try reflexivity; discriminate.
Qed.

Lemma to_string_spec_witness :
  size_ok 8 /\ wf 8 [53] = true /\
  exists str,
    to_string Debug 8 [53] = Ok str /\ Z.of_nat (length str) = 8 /\
    (forall pos, 0 <= pos < 8 ->
       exists r, test Debug 8 [53] pos = Ok r /\
         nth (Z.to_nat (8 - 1 - pos)) str "0"%char = if r then "1"%char else "0"%char) /\
    (8 <= 64 -> forall pos, 0 <= pos < 8 ->
       nth (Z.to_nat (8 - 1 - pos)) str "0"%char
       = if bit [53] pos then "1"%char else "0"%char) /\
    (64 < 8 -> forall pos, 0 <= pos < 8 ->
       (nth (Z.to_nat (8 - 1 - pos)) str "0"%char = "1"%char
        <-> exists q, pos <= q < 64 * (pos / 64 + 1) /\ bit [53] q = true)).
Proof.
  assert (size_ok 8) as HN by size_ok_lit.
  assert (wf 8 [53] = true) as Hwf by reflexivity.
  repeat (split; [assumption |]).
  exact (to_string_spec Debug 8 [53] HN Hwf).
Defined.

(** ** The compile-time constants *)

(** X25. For a bit count [N] whose chunk count does not wrap: [NUM_CHUNKS]
    is the least number of 64-bit chunks that hold [N] bits, [LAST_MASK] is
    the mask of the [(N - 1) % 64 + 1] low bits and fits the word type, and
    the word type is the narrowest of 8, 16, 32 and 64 bits that holds [N]
    bits when [N <= 64], and 64 bits otherwise. *)
Theorem constants_spec N :
  size_ok N ->
  64 * (NUM_CHUNKS N - 1) < N <= 64 * NUM_CHUNKS N /\
  LAST_MASK N = 2 ^ ((N - 1) mod 64 + 1) - 1 /\
  1 <= LAST_MASK N <= Inner_max N /\
  64 * (NUM_CHUNKS N - 1) + ((N - 1) mod 64 + 1) = N /\
  (N <= 64 -> NUM_CHUNKS N = 1 /\ N <= Inner_bits N /\
              forall w, In w [8; 16; 32; 64] -> N <= w -> Inner_bits N <= w) /\
  (64 < N -> Inner_bits N = 64).
Proof.
  intros HN. destruct (chunks_live N HN) as [HNC HNeq].
  pose proof (live_bits_range N) as Hlive. pose proof (live_le_Inner N HN) as Hle.
  unfold live_bits in *.
  split; [lia |]. split; [now rewrite (LAST_MASK_ones N HN), Z.ones_equiv |].
  split; [| split; [exact HNeq | split]].
  - split; [apply LAST_MASK_pos |]. rewrite (LAST_MASK_ones N HN), Z.ones_equiv.
    unfold Inner_max, live_bits.
    pose proof (Z.pow_le_mono_r 2 ((N - 1) mod 64 + 1) (Inner_bits N) ltac:(lia) Hle). lia.
  - intros H64. destruct (single_word N HN H64) as [Hk _].
    split; [exact Hk |]. split; [now apply Inner_bits_ge |].
    intros w Hw HNw. unfold Inner_bits. cbn [In] in Hw.
    destruct (Z.ltb_spec 32 N); [lia |]. destruct (Z.ltb_spec 16 N); [lia |].
    destruct (Z.ltb_spec 8 N); lia.
  - intros Hgt. now apply (multi_word N HN).
Qed.

Lemma constants_spec_witness :
  size_ok 70 /\
  64 * (NUM_CHUNKS 70 - 1) < 70 <= 64 * NUM_CHUNKS 70 /\
  LAST_MASK 70 = 2 ^ ((70 - 1) mod 64 + 1) - 1 /\
  1 <= LAST_MASK 70 <= Inner_max 70 /\
  64 * (NUM_CHUNKS 70 - 1) + ((70 - 1) mod 64 + 1) = 70 /\
  (70 <= 64 -> NUM_CHUNKS 70 = 1 /\ 70 <= Inner_bits 70 /\
               forall w, In w [8; 16; 32; 64] -> 70 <= w -> Inner_bits 70 <= w) /\
  (64 < 70 -> Inner_bits 70 = 64).
Proof.
  assert (size_ok 70) as HN by size_ok_lit.
  split; [assumption |].
  exact (constants_spec 70 HN).
Defined.

(** X26. For the 63 largest values of [size_t], [N + 63] wraps: [NUM_CHUNKS]
    is 0 and the storage of a default-constructed object is an empty array. *)
Theorem num_chunks_wraps N :
  2 ^ 64 - 63 <= N < 2 ^ 64 ->
  NUM_CHUNKS N = 0 /\ BitSet_default N = [].
Proof.
  intros HN. assert (NUM_CHUNKS N = 0) as E.
  { unfold NUM_CHUNKS, size_t, wrap.
    replace (N + 63) with ((N + 63 - 2 ^ 64) + 1 * 2 ^ 64) by lia.
    rewrite Z.mod_add by lia. rewrite Z.mod_small by lia.
    apply Z.div_small. lia. }
  split; [exact E |]. unfold BitSet_default. now rewrite E.
Qed.

Lemma num_chunks_wraps_witness :
  2 ^ 64 - 63 <= 18446744073709551615 < 2 ^ 64 /\
  NUM_CHUNKS 18446744073709551615 = 0 /\ BitSet_default 18446744073709551615 = [].
Proof.
  assert (2 ^ 64 - 63 <= 18446744073709551615 < 2 ^ 64) as HN by (rewrite pow2_64; lia).
  split; [assumption |].
  exact (num_chunks_wraps 18446744073709551615 HN).
Defined.

(** ** More compositions *)

(** X27. The bulk modifiers compose as the bit patterns say, from any
    storage content: [flip()] after [set()] gives the all-zero storage of
    [reset()], [flip()] after [reset()] gives the storage of [set()], and
    [set()] gives the same storage whatever it starts from. *)
Theorem bulk_modifiers_compose N (s : list Z) :
  size_ok N -> Z.of_nat (length s) = NUM_CHUNKS N ->
  exists s1,
    set_all N s = Ok s1 /\
    flip N s1 = Ok (reset_all s) /\ flip N (reset_all s) = Ok s1 /\
    set_all N s1 = Ok s1 /\ set_all N (reset_all s) = Ok s1 /\
    reset_all s1 = reset_all s.
Proof.
  intros HN Hlen.
  destruct (set_all_bits N s HN Hlen) as (s1 & E1 & Hwf1 & Hc1 & Hb1).
  assert (Z.of_nat (length s1) = NUM_CHUNKS N) as Hlen1 by (apply wf_iff in Hwf1; tauto).
  pose proof (wf_reset_all N s Hlen) as Hwf0.
  pose proof (reset_all_canonical N s) as Hc0.
  pose proof (none_bits _ (none_reset_all s)) as Hb0.
  assert (Z.of_nat (length (reset_all s)) = NUM_CHUNKS N) as Hlen0
      by (apply wf_iff in Hwf0; tauto).
  destruct (flip_bits N s1 HN Hlen1) as (f1 & Ef1 & Hwff1 & Hcf1 & Hbf1).
  destruct (flip_bits N (reset_all s) HN Hlen0) as (f0 & Ef0 & Hwff0 & Hcf0 & Hbf0).
  destruct (set_all_bits N s1 HN Hlen1) as (s11 & E11 & Hwf11 & Hc11 & Hb11).
  destruct (set_all_bits N (reset_all s) HN Hlen0) as (s01 & E01 & Hwf01 & Hc01 & Hb01).
  assert (f1 = reset_all s) as ->.
  { apply (bits_ext N); try assumption. intros q Hq. rewrite Hbf1, Hb1, Hb0 by lia.
    now destruct (q <? N). }
  assert (f0 = s1) as ->.
  { apply (bits_ext N); try assumption. intros q Hq. rewrite Hbf0, Hb1, Hb0 by lia.
    now destruct (q <? N). }
  assert (s11 = s1) as ->.
  { apply (bits_ext N); try assumption. intros q Hq. now rewrite Hb11, Hb1 by lia. }
  assert (s01 = s1) as ->.
  { apply (bits_ext N); try assumption. intros q Hq. now rewrite Hb01, Hb1 by lia. }
  exists s1. repeat (split; [assumption |]).
  apply (bits_ext N); try assumption.
  - apply wf_reset_all. exact Hlen1.
  - intros q Hq. rewrite Hb0. apply none_bits, none_reset_all.
Qed.

Lemma bulk_modifiers_compose_witness :
  size_ok 70 /\ Z.of_nat (length [5; 255]) = NUM_CHUNKS 70 /\
  exists s1,
    set_all 70 [5; 255] = Ok s1 /\
    flip 70 s1 = Ok (reset_all [5; 255]) /\ flip 70 (reset_all [5; 255]) = Ok s1 /\
    set_all 70 s1 = Ok s1 /\ set_all 70 (reset_all [5; 255]) = Ok s1 /\
    reset_all s1 = reset_all [5; 255].
Proof.
  assert (size_ok 70) as HN by size_ok_lit.
  assert (Z.of_nat (length [5; 255]) = NUM_CHUNKS 70) as Hlen by reflexivity.
  repeat (split; [assumption |]).
  exact (bulk_modifiers_compose 70 [5; 255] HN Hlen).
Defined.

(** X28. Single-bit modifiers at two different positions commute: on a
    well-formed state in canonical form, [set(p)] and [set(q)], [reset(p)]
    and [reset(q)], and [set(p)] and [reset(q)] give the same storage in
    either order. *)
Theorem single_bit_modifiers_commute b N (s : list Z) p q :
  size_ok N -> wf N s = true -> canonical N s = true ->
  0 <= p < N -> 0 <= q < N -> p <> q ->
  (exists sp sq spq,
     set b N s p true = Ok sp /\ set b N s q true = Ok sq /\
     set b N sp q true = Ok spq /\ set b N sq p true = Ok spq) /\
  (exists sp sq spq,
     reset b N s p = Ok sp /\ reset b N s q = Ok sq /\
     reset b N sp q = Ok spq /\ reset b N sq p = Ok spq) /\
  (exists sp sq spq,
     set b N s p true = Ok sp /\ reset b N s q = Ok sq /\
     reset b N sp q = Ok spq /\ set b N sq p true = Ok spq).
Proof.
  intros HN Hwf Hc Hp Hq Hne.
  destruct (set_bits b N s p HN Hwf Hp) as (sp & Esp & Hwfsp & Hbsp).
  destruct (set_preserves b N s p true HN Hwf Hc Hp) as (x & Ex & _ & Hcsp).
  rewrite Esp in Ex. injection Ex as <-.
  destruct (set_bits b N s q HN Hwf Hq) as (sq & Esq & Hwfsq & Hbsq).
  destruct (set_preserves b N s q true HN Hwf Hc Hq) as (x & Ex & _ & Hcsq).
  rewrite Esq in Ex. injection Ex as <-.
  destruct (reset_bits b N s p HN Hwf Hp) as (rp & Erp & Hwfrp & Hbrp & _).
  destruct (reset_preserves b N s p HN Hwf Hc Hp) as (x & Ex & _ & Hcrp).
  rewrite Erp in Ex. injection Ex as <-.
  destruct (reset_bits b N s q HN Hwf Hq) as (rq & Erq & Hwfrq & Hbrq & _).
  destruct (reset_preserves b N s q HN Hwf Hc Hq) as (x & Ex & _ & Hcrq).
  rewrite Erq in Ex. injection Ex as <-.
  split; [| split].
  - destruct (set_bits b N sp q HN Hwfsp Hq) as (spq & Espq & Hwfspq & Hbspq).
    destruct (set_preserves b N sp q true HN Hwfsp Hcsp Hq) as (x & Ex & _ & Hcspq).
    rewrite Espq in Ex. injection Ex as <-.
    destruct (set_bits b N sq p HN Hwfsq Hp) as (sqp & Esqp & Hwfsqp & Hbsqp).
    destruct (set_preserves b N sq p true HN Hwfsq Hcsq Hp) as (x & Ex & _ & Hcsqp).
    rewrite Esqp in Ex. injection Ex as <-.
    assert (sqp = spq) as ->.
    { apply (bits_ext_canonical N); try assumption. intros i Hi.
      rewrite Hbsqp, Hbsq, Hbspq, Hbsp by lia.
      now destruct (bit s i), (i =? p), (i =? q). }
    exists sp, sq, spq. repeat split; assumption.
  - destruct (reset_bits b N rp q HN Hwfrp Hq) as (rpq & Erpq & Hwfrpq & Hbrpq & _).
    destruct (reset_preserves b N rp q HN Hwfrp Hcrp Hq) as (x & Ex & _ & Hcrpq).
    rewrite Erpq in Ex. injection Ex as <-.
    destruct (reset_bits b N rq p HN Hwfrq Hp) as (rqp & Erqp & Hwfrqp & Hbrqp & _).
    destruct (reset_preserves b N rq p HN Hwfrq Hcrq Hp) as (x & Ex & _ & Hcrqp).
    rewrite Erqp in Ex. injection Ex as <-.
    assert (rqp = rpq) as ->.
    { apply (bits_ext_canonical N); try assumption. intros i Hi.
      rewrite Hbrqp, Hbrq, Hbrpq, Hbrp by lia.
      now destruct (bit s i), (i =? p), (i =? q). }
    exists rp, rq, rpq. repeat split; assumption.
  - destruct (reset_bits b N sp q HN Hwfsp Hq) as (spq & Espq & Hwfspq & Hbspq & _).
    destruct (reset_preserves b N sp q HN Hwfsp Hcsp Hq) as (x & Ex & _ & Hcspq).
    rewrite Espq in Ex. injection Ex as <-.
    destruct (set_bits b N rq p HN Hwfrq Hp) as (rqp & Erqp & Hwfrqp & Hbrqp).
    destruct (set_preserves b N rq p true HN Hwfrq Hcrq Hp) as (x & Ex & _ & Hcrqp).
    rewrite Erqp in Ex. injection Ex as <-.
    assert (rqp = spq) as ->.
    { apply (bits_ext_canonical N); try assumption. intros i Hi.
      rewrite Hbrqp, Hbrq, Hbspq, Hbsp by lia.
      destruct (Z.eqb_spec i p), (Z.eqb_spec i q); try lia;
        now destruct (bit s i). }
    exists sp, rq, spq. repeat split; assumption.
Qed.

Lemma single_bit_modifiers_commute_witness :
  size_ok 70 /\ wf 70 [5; 33] = true /\ canonical 70 [5; 33] = true /\
  0 <= 2 < 70 /\ 0 <= 69 < 70 /\ 2 <> 69 /\
  (exists sp sq spq,
     set Debug 70 [5; 33] 2 true = Ok sp /\ set Debug 70 [5; 33] 69 true = Ok sq /\
     set Debug 70 sp 69 true = Ok spq /\ set Debug 70 sq 2 true = Ok spq) /\
  (exists sp sq spq,
     reset Debug 70 [5; 33] 2 = Ok sp /\ reset Debug 70 [5; 33] 69 = Ok sq /\
     reset Debug 70 sp 69 = Ok spq /\ reset Debug 70 sq 2 = Ok spq) /\
  (exists sp sq spq,
     set Debug 70 [5; 33] 2 true = Ok sp /\ reset Debug 70 [5; 33] 69 = Ok sq /\
     reset Debug 70 sp 69 = Ok spq /\ set Debug 70 sq 2 true = Ok spq).
Proof.
  assert (size_ok 70) as HN by size_ok_lit.
  assert (wf 70 [5; 33] = true) as Hwf by reflexivity.
  assert (canonical 70 [5; 33] = true) as Hc by reflexivity.
  assert (0 <= 2 < 70) as Hp by lia.
  assert (0 <= 69 < 70) as Hq by lia.
  assert (2 <> 69) as Hne by lia.
  repeat (split; [assumption |]).
  exact (single_bit_modifiers_commute Debug 70 [5; 33] 2 69 HN Hwf Hc Hp Hq Hne).
Defined.

(** ** [to_string()] on the repository's test objects *)

Module ToStringExamples.

Example to_string_a :
  to_string Debug 8 [53]
  = Ok ["0"; "0"; "1"; "1"; "0"; "1"; "0"; "1"]%char.
Proof. vm_compute. reflexivity. Qed.

Example to_string_b :
  to_string Release 8 [255]
  = Ok ["1"; "1"; "1"; "1"; "1"; "1"; "1"; "1"]%char.
Proof. vm_compute. reflexivity. Qed.

End ToStringExamples.

(** ** Outside canonical form *)

Lemma count_true_pos f lo n i :
  lo <= i < lo + Z.of_nat n -> f i = true -> 1 <= count_true f lo n.
Proof.
  revert lo. induction n as [| n IH]; intros lo Hi Hf; [lia |].
  cbn [count_true]. pose proof (count_true_range f (lo + 1) n) as Hr.
  destruct (Z.eq_dec lo i) as [-> | Hne].
  - rewrite Hf. cbn [Z.b2z]. lia.
  - specialize (IH (lo + 1) ltac:(lia) Hf). destruct (f lo); cbn [Z.b2z]; lia.
Qed.

(** A state outside canonical form has a 1 bit among the padding positions
    of its final word. *)
Lemma non_canonical_padding_bit N (s : list Z) :
  size_ok N -> wf N s = true -> canonical N s = false ->
  exists p, N <= p < 64 * NUM_CHUNKS N /\ bit s p = true.
Proof.
  intros HN Hwf Hc.
  destruct (wf_snoc N s HN Hwf) as (init & w & -> & Hinit & _ & Hw).
  destruct (chunks_live N HN) as [HNC HNeq]. pose proof (live_bits_range N) as Hlive.
  apply word_ok_iff in Hw. pose proof (Inner_bits_le N) as H64.
  unfold canonical in Hc. rewrite List.last_last in Hc. apply Z.eqb_neq in Hc.
  set (x := Z.land w (Z.lnot (LAST_MASK N))) in *.
  assert (0 <= x) as Hx0 by (apply Z.land_nonneg; lia).
  pose proof (Z.bit_log2 x ltac:(lia)) as Hb. pose proof (Z.log2_nonneg x) as Hl.
  unfold x in Hb at 1. rewrite Z.land_spec, Z.lnot_spec, (testbit_LAST_MASK N _ HN) in Hb by lia.
  apply andb_true_iff in Hb. destruct Hb as [Hw1 Hm].
  destruct (Z.ltb_spec (Z.log2 x) (live_bits N)); [discriminate |].
  assert (Z.log2 x < 64).
  { destruct (Z.lt_ge_cases (Z.log2 x) 64); [assumption |].
    rewrite (testbit_above (Inner_bits N) w) in Hw1 by lia. discriminate. }
  exists (64 * Z.of_nat (length init) + Z.log2 x). split; [lia |].
  now rewrite bit_snoc_last by lia.
Qed.

(** X29. Outside canonical form the whole-container queries are off: on a
    well-formed state that has a padding bit set, [all()] is false even when
    every bit below [N] is 1, [any()] is true and [none()] false even when
    every bit below [N] is 0, and [count()] counts the padding bits too, so
    it exceeds the number of 1 bits below [N] (for a storage of fewer than
    [2^31] bits). *)
Theorem non_canonical_queries N (s : list Z) :
  size_ok N -> wf N s = true -> canonical N s = false ->
  all N s = false /\ any s = true /\ none s = false /\
  (64 * NUM_CHUNKS N < 2 ^ 31 -> ones_below N s < count s).
Proof.
  intros HN Hwf Hc. pose proof HN as [HN0 HN1].
  assert (Z.of_nat (length s) = NUM_CHUNKS N) as Hlen by (apply wf_iff in Hwf; tauto).
  destruct (non_canonical_padding_bit N s HN Hwf Hc) as (p & Hp & Hb).
  assert (none s = false) as Hnone.
  { destruct (none s) eqn:Hn; [| reflexivity].
    rewrite (none_bits s Hn) in Hb. discriminate. }
  split; [| split; [| split; [exact Hnone |]]].
  - destruct (all N s) eqn:Hall; [| reflexivity].
    apply all_iff_words in Hall. destruct Hall as [_ Hlast].
    assert (canonical N s = true) as Hc'
        by (apply canonical_within; rewrite Hlast; apply within_refl).
    rewrite Hc in Hc'. discriminate.
  - now rewrite any_negb_none, Hnone.
  - intros Hsmall.
    pose proof (run_sum_popcount s (wf_words_64 N s Hwf)) as Hsum.
    pose proof (count_true_range (bit s) 0 (64 * length s)) as Hr.
    rewrite count_run_sum by lia. rewrite Hsum. unfold ones_below.
    replace (64 * length s)%nat with (Z.to_nat N + (64 * length s - Z.to_nat N))%nat by lia.
    rewrite count_true_app.
    pose proof (count_true_pos (bit s) (0 + Z.of_nat (Z.to_nat N))
                  (64 * length s - Z.to_nat N) p ltac:(lia) Hb). lia.
Qed.

Lemma non_canonical_queries_witness :
  size_ok 5 /\ wf 5 [95] = true /\ canonical 5 [95] = false /\
  all 5 [95] = false /\ any [95] = true /\ none [95] = false /\
  (64 * NUM_CHUNKS 5 < 2 ^ 31 -> ones_below 5 [95] < count [95]).
Proof.
  assert (size_ok 5) as HN by size_ok_lit.
  assert (wf 5 [95] = true) as Hwf by reflexivity.
  assert (canonical 5 [95] = false) as Hc by reflexivity.
  split; [exact HN |]. split; [exact Hwf |]. split; [exact Hc |].
  exact (non_canonical_queries 5 [95] HN Hwf Hc).
Defined.
